(** * Clip-candidate pipeline: comment binning, peaks, silence segments,
      candidate merging and scoring.

    A shallow embedding of [src/analyzer/comment_analyzer.py],
    [src/analyzer/subtitle_analyzer.py] and [src/analyzer/clip_generator.py].

    Numbers.  A Python float is a rational ([Q]); counts, the integer bin
    size and the bin edges (whole-number float64 values
    [floor(min) + k * bin_size]) are integers ([Z]), on which float
    arithmetic is exact.  Where the code subtracts or adds two floats and
    tests the result against a threshold, the operation is the float one:
    the exact result rounded to a float ([Py.fsub], [Py.fadd], over the
    rounding of [Py.FloatArith]); so are the steps of the float operators
    [//] and [%] ([PyFloat]).  [Binary64.arith] is the rounding of
    IEEE 754 double precision, which Python uses.

    Exceptions.  Code that can raise returns [result]; the places where the
    repository's own code indexes, divides or takes [max] of a list are kept
    as explicit failure points.

    Library calls ([np.arange], [np.percentile], [pd.cut], [groupby],
    [re.compile]) are given by their documented behaviour. *)

From Stdlib Require Import QArith Qround Qabs Qpower Lqa ZArith Lia Sorted.
From stdpp Require Import base option list gmap strings.

(** ** Python values and control *)

Module Py.

Inductive exn : Set :=
| ValueError
| IndexError
| ZeroDivisionError
| OverflowError
| KeyError
| AttributeError
| ReError.

Inductive result (A : Type) : Type :=
| Ok (a : A)
| Raise (e : exn).
Arguments Ok {A} a.
Arguments Raise {A} e.

#[global] Instance result_ret : MRet result := fun A a => Ok a.
#[global] Instance result_bind : MBind result := fun A B f m =>
  match m with
  | Ok a => f a
  | Raise e => Raise e
  end.

Definition returns {A} (m : result A) : Prop := exists a, m = Ok a.

(** Float comparisons are exact. *)
Definition Qleb (x y : Q) : bool := Qle_bool x y.
Definition Qltb (x y : Q) : bool := negb (Qle_bool y x).

(** Float arithmetic: an operation returns the exact result rounded to a
    float.  [fround] is the rounding. *)
Class FloatArith := {
  fround : Q -> Q
}.

Definition fsub `{FloatArith} (x y : Q) : Q := fround (x - y).
Definition fadd `{FloatArith} (x y : Q) : Q := fround (x + y).
Definition fdiv `{FloatArith} (x y : Q) : Q := fround (x / y).

(** [min(a, b)] and [max(a, b)]: the first argument wins ties. *)
Definition min (a b : Q) : Q := if Qltb b a then b else a.
Definition max (a b : Q) : Q := if Qltb a b then b else a.

(** A Python string is a sequence of characters; the strings here hold
    their UTF-8 bytes, in which a byte [10xxxxxx] continues a character.
    [len(s)] and [s[:n]] count characters. *)
Definition continues (b : Ascii.ascii) : bool :=
  let n := Stdlib.Strings.Ascii.nat_of_ascii b in (128 <=? n)%nat && (n <? 192)%nat.

Fixpoint len (s : string) : nat :=
  match s with
  | EmptyString => 0
  | String b s' => (if continues b then 0 else 1) + len s'
  end.

Fixpoint prefix (n : nat) (s : string) : string :=
  match s with
  | EmptyString => EmptyString
  | String b s' =>
      if continues b then String b (prefix n s')
      else match n with
           | O => EmptyString
           | S n' => String b (prefix n' s')
           end
  end.

(** A [for] loop that threads a state, and one that collects one value
    per element; both stop at the first exception. *)
Fixpoint for_loop {S A} (body : S -> A -> result S) (st : S) (l : list A)
  : result S :=
  match l with
  | [] => Ok st
  | x :: l' => st' ← body st x; for_loop body st' l'
  end.

Fixpoint for_each {A B} (f : A -> result B) (l : list A) : result (list B) :=
  match l with
  | [] => Ok []
  | x :: l' => y ← f x; ys ← for_each f l'; Ok (y :: ys)
  end.

(** [l[i]] for a non-negative index. *)
Definition index {A} (l : list A) (i : nat) : result A :=
  match l !! i with
  | Some x => Ok x
  | None => Raise IndexError
  end.

(** [list.sort] is stable; so is insertion from the right.  [leb x y] says
    that [x] may stand before [y]. *)
Fixpoint insert_by {A} (leb : A -> A -> bool) (x : A) (l : list A) : list A :=
  match l with
  | [] => [x]
  | y :: l' => if leb x y then x :: l else y :: insert_by leb x l'
  end.

Definition sort_by {A} (leb : A -> A -> bool) (l : list A) : list A :=
  foldr (insert_by leb) [] l.

(** The regular-expression engine: [re.compile(pattern, flags)] either
    raises [re.error] ([None]) or gives a pattern whose [search] is a
    predicate on texts. *)
Class RegexEngine := {
  re_compile : bool (* re.IGNORECASE *) -> string -> option (string -> bool)
}.

Definition compile `{RegexEngine} (ignorecase : bool) (pattern : string)
  : result (string -> bool) :=
  match re_compile ignorecase pattern with
  | Some search => Ok search
  | None => Raise ReError
  end.

End Py.
Import Py.

(** ** IEEE 754 double precision

    Rounding to the nearest number with a 53-bit significand, ties to the
    even one, with the gradual underflow of binary64.  Results beyond the
    largest finite double (Python's [inf]) are outside the model. *)

Module Binary64.

(** [2^e] *)
Definition pow2 (e : Z) : Q :=
  if (0 <=? e)%Z then inject_Z (2 ^ e) else (/ inject_Z (2 ^ (- e)))%Q.

(** The [e] with [2^e <= x < 2^(e+1)], for a positive [x]. *)
Definition exponent (x : Q) : Z :=
  let e := (Z.log2 (Qnum x) - Z.log2 (Zpos (Qden x)))%Z in
  if Qle_bool (pow2 e) x then e else (e - 1)%Z.

(** The nearest integer, the even one of two equally near. *)
Definition nearest_even (x : Q) : Z :=
  let f := Qfloor x in
  match Qcompare (x - inject_Z f) (1 # 2) with
  | Lt => f
  | Gt => (f + 1)%Z
  | Eq => if Z.even f then f else (f + 1)%Z
  end.

Definition round (x : Q) : Q :=
  if Qeq_bool x 0 then 0%Q
  else
    let a := Qabs x in
    let e := Z.max (exponent a) (-1022) in
    let ulp := pow2 (e - 52) in
    let m := (inject_Z (nearest_even (a / ulp)) * ulp)%Q in
    Qred (if Qle_bool 0 x then m else (- m)%Q).

Definition arith : FloatArith := {| fround := round |}.

End Binary64.

(** ** numpy and pandas operations used by the analyzers *)

Module Np.

(** [np.arange(start, stop, step)] for a step other than 0:
    [start + i * step] for [0 <= i < ceil((stop - start) / step)]. *)
Definition arange (start stop step : Z) : list Z :=
  let n := Z.to_nat (- ((start - stop) / step))%Z in
  map (fun i => (start + Z.of_nat i * step)%Z) (seq 0 n).

(** [np.percentile(a, q)], linear interpolation between closest ranks, for
    non-empty [a]; [q] outside [0, 100] is a [ValueError]. *)
Definition percentile (a : list Z) (q : Q) : result Q :=
  if Qleb 0 q && Qleb q 100 then
    let sorted := sort_by Z.leb a in
    let last := (Z.of_nat (length a) - 1)%Z in
    let virtual_index := (q / 100 * inject_Z last)%Q in
    let lo := Qfloor virtual_index in
    let hi := Z.min (lo + 1) last in
    let gamma := (virtual_index - inject_Z lo)%Q in
    let a_lo := nth (Z.to_nat lo) sorted 0%Z in
    let a_hi := nth (Z.to_nat hi) sorted 0%Z in
    Ok (inject_Z a_lo + inject_Z (a_hi - a_lo) * gamma)%Q
  else Raise ValueError.

End Np.

Module Pd.

(** [bins.searchsorted(x, side='left')] on ascending [bins]: the number of
    edges strictly below [x]. *)
Definition searchsorted_left (bins : list Z) (x : Q) : nat :=
  length (List.filter (fun b => Qltb (inject_Z b) x) bins).

(** [pd.cut(x, bins, labels=False, include_lowest=True)] on one value, with
    the default [right=True]: intervals are [(bins[i], bins[i+1]]], the
    first one also holds [bins[0]]; a value in no interval is NaN ([None]). *)
Definition cut (bins : list Z) (x : Q) : option nat :=
  let ids :=
    match bins with
    | b0 :: _ => if Qeq_bool x (inject_Z b0) then 1%nat else searchsorted_left bins x
    | [] => searchsorted_left bins x
    end in
  if (ids =? length bins)%nat || (ids =? 0)%nat then None else Some (ids - 1)%nat.

(** [groupby(keys)]: one row per distinct non-NaN key, ascending.  [bump]
    adds [v] to the row of key [k], or opens that row at its place. *)
Section groupby.
Context {K : Type} (ltb eqb : K -> K -> bool).

Fixpoint bump (k : K) (v : Z) (acc : list (K * Z)) : list (K * Z) :=
  match acc with
  | [] => [(k, v)]
  | (k', c) :: acc' =>
      if ltb k k' then (k, v) :: acc
      else if eqb k k' then (k', (c + v)%Z) :: acc'
      else (k', c) :: bump k v acc'
  end.

(** [groupby(keys).size()] *)
Definition groupby_size (keys : list (option K)) : list (K * Z) :=
  foldl (fun acc key => match key with Some k => bump k 1 acc | None => acc end)
        [] keys.

(** [groupby(keys).sum()] of one integer column *)
Definition groupby_sum (rows : list (K * Z)) : list (K * Z) :=
  foldl (fun acc row => bump row.1 row.2 acc) [] rows.
End groupby.

End Pd.

(** ** comment_analyzer.py *)

(** A row of the chat frame; a missing message is the float NaN ([None]).
    What pandas makes of the column depends on its dtype, which
    [CommentAnalyzer.message_dtype] reads off the cells. *)
Module CommentRecord.
Record t := {
  timestamp_sec : Q;
  author : string;
  message : option string
}.
End CommentRecord.

(** A row of the frame returned by [bin_comments_by_time]. *)
Module TimeBin.
Record t := {
  bin_start : Z;
  bin_end : Z;
  count : Z;
  comment_rate : Q
}.
End TimeBin.

(** The dict built by [_merge_peak_group]. *)
Module Peak.
Record t := {
  time : Z;
  time_end : Z;
  count : Z;
  comment_rate : Q;
  percentile : Z
}.
End Peak.

(** A row of the frame returned by [count_keywords]. *)
Module KeywordHit.
Record t := {
  keyword : string;
  timestamp_sec : Q;
  message : option string
}.
End KeywordHit.

(** A row of the frame returned by [get_keyword_frequency_over_time]. *)
Module KeywordBin.
Record t := {
  bin_start : Z;
  bin_end : Z;
  keyword : string;
  count : Z
}.
End KeywordBin.

Module CommentAnalyzer.

(** [self.chat_df[timestamp_column].min()] and [.max()], on a non-empty
    frame. *)
Definition min_time (chat_df : list CommentRecord.t) : Q :=
  match map CommentRecord.timestamp_sec chat_df with
  | [] => 0
  | t0 :: ts => foldl Py.min t0 ts
  end.

Definition max_time (chat_df : list CommentRecord.t) : Q :=
  match map CommentRecord.timestamp_sec chat_df with
  | [] => 0
  | t0 :: ts => foldl Py.max t0 ts
  end.

(** The bin edges of lines 42-46 (and 212-216). *)
Definition bin_edges (chat_df : list CommentRecord.t) (bin_size_seconds : Z) : list Z :=
  Np.arange (Qfloor (min_time chat_df))
            (Qceiling (max_time chat_df) + bin_size_seconds) bin_size_seconds.

(** The ['bin'] column of lines 49-54. *)
Definition bin_column (chat_df : list CommentRecord.t) (bin_size_seconds : Z)
  : list (option nat) :=
  let bins := bin_edges chat_df bin_size_seconds in
  map (fun r => Pd.cut bins (CommentRecord.timestamp_sec r)) chat_df.

(** Lines 56-71: one output row per group of the ['bin'] column. *)
Definition bin_row (bins : list Z) (bin_size_seconds : Z) (g : nat * Z)
  : result TimeBin.t :=
  b_start ← Py.index bins g.1;
  b_end ← Py.index bins (g.1 + 1)%nat;
  mret {| TimeBin.bin_start := b_start; TimeBin.bin_end := b_end;
          TimeBin.count := g.2;
          TimeBin.comment_rate := (inject_Z g.2 / inject_Z bin_size_seconds)%Q |}.

(** What numpy or pandas raises at lines 42-54 (and 212-223) on a
    non-empty frame, for a bin size that is not positive.  With the step 0
    [np.arange] cannot compute its length [(stop - start) / step]: that is
    NaN when [start = stop], a [ValueError], and infinite otherwise, an
    [OverflowError].  With a step below zero the edges run down from
    [floor(min)]: there is none when [floor(min) - ceil(max) <= bin_size],
    and [pd.cut] with [include_lowest] then reads [bins[0]], an
    [IndexError]; below that there is the one edge [floor(min)], which
    [pd.cut] accepts.  A positive bin size raises nothing. *)
Definition binning_error (chat_df : list CommentRecord.t) (bin_size_seconds : Z)
  : option exn :=
  if (bin_size_seconds =? 0)%Z then
    Some (if (Qfloor (min_time chat_df) =? Qceiling (max_time chat_df))%Z
          then ValueError else OverflowError)
  else if (length (bin_edges chat_df bin_size_seconds) =? 0)%nat then Some IndexError
  else None.

(** [bin_comments_by_time] *)
Definition bin_comments_by_time (chat_df : list CommentRecord.t) (bin_size_seconds : Z)
  : result (list TimeBin.t) :=
  match chat_df with
  | [] => Ok []
  | _ :: _ =>
      match binning_error chat_df bin_size_seconds with
      | Some e => Raise e
      | None =>
          let bins := bin_edges chat_df bin_size_seconds in
          let binned_counts :=
            Pd.groupby_size Nat.ltb Nat.eqb (bin_column chat_df bin_size_seconds) in
          rows ← for_each (bin_row bins bin_size_seconds) binned_counts;
          mret (sort_by (fun a b => (TimeBin.bin_start a <=? TimeBin.bin_start b)%Z) rows)
      end
  end.

(** [_merge_peak_group]: [max(group, key=count)] keeps the first row of
    greatest count and raises on an empty group. *)
Definition max_by_count (group : list TimeBin.t) : result TimeBin.t :=
  match group with
  | [] => Raise ValueError
  | r :: rest =>
      Ok (foldl (fun best x => if (TimeBin.count best <? TimeBin.count x)%Z then x else best)
                r rest)
  end.

Definition _merge_peak_group (group : list TimeBin.t) : result Peak.t :=
  max_row ← max_by_count group;
  mret {| Peak.time := TimeBin.bin_start max_row;
          Peak.time_end := TimeBin.bin_end max_row;
          Peak.count := TimeBin.count max_row;
          Peak.comment_rate := TimeBin.comment_rate max_row;
          Peak.percentile := 0 |}.

(** The loop of lines 105-124, with the call that closes a group as a
    parameter; [find_peaks] closes groups with [_merge_peak_group]. *)
Section peak_loop.
Context {A : Type} (close : list TimeBin.t -> result A) (min_gap_seconds : Z).

Definition peak_step (st : list A * list TimeBin.t) (row : TimeBin.t)
  : result (list A * list TimeBin.t) :=
  let '(merged_peaks, current_group) := st in
  match last current_group with
  | None => Ok (merged_peaks, current_group ++ [row])
  | Some prev =>
      let time_gap := (TimeBin.bin_start row - TimeBin.bin_end prev)%Z in
      if (time_gap <=? min_gap_seconds)%Z then Ok (merged_peaks, current_group ++ [row])
      else p ← close current_group; Ok (merged_peaks ++ [p], [row])
  end.

Definition peak_loop (peaks : list TimeBin.t) : result (list A) :=
  st ← for_loop peak_step ([], []) peaks;
  match st.2 with
  | [] => Ok st.1
  | _ :: _ => p ← close st.2; Ok (st.1 ++ [p])
  end.
End peak_loop.

(** Lines 96-99: the rows whose count reaches the percentile threshold. *)
Definition peak_rows (binned_df : list TimeBin.t) (threshold_percentile : Q)
  : result (list TimeBin.t) :=
  threshold ← Np.percentile (map TimeBin.count binned_df) threshold_percentile;
  mret (List.filter (fun r => Qleb threshold (inject_Z (TimeBin.count r))) binned_df).

Definition find_peaks (binned_df : list TimeBin.t) (threshold_percentile : Q)
    (min_gap_seconds : Z) : result (list Peak.t) :=
  match binned_df with
  | [] => Ok []
  | _ :: _ =>
      peaks ← peak_rows binned_df threshold_percentile;
      match peaks with
      | [] => Ok []
      | _ :: _ => peak_loop _merge_peak_group min_gap_seconds peaks
      end
  end.

(** The dtype of the message column.  pandas gives [object] to a column
    that holds a text and [float64] to a column built from NaN alone; the
    [.str] accessor refuses a [float64] column. *)
Inductive dtype : Set :=
| object_
| float64.

Definition message_dtype (chat_df : list CommentRecord.t) : dtype :=
  match chat_df with
  | [] => object_
  | _ :: _ =>
      if existsb (fun r => match CommentRecord.message r with
                           | Some _ => true
                           | None => false
                           end) chat_df
      then object_ else float64
  end.

(** [Series.str] *)
Definition str_accessor (column : dtype) : result unit :=
  match column with
  | object_ => Ok ()
  | float64 => Raise AttributeError
  end.

(** [Series.str.contains(pattern, na=False, regex=True)] on one cell of an
    [object] column. *)
Definition str_contains (search : string -> bool) (cell : option string) : bool :=
  match cell with
  | Some s => search s
  | None => false
  end.

Section keywords.
Context `{RegexEngine}.

(** The body of the [for keyword in keywords] loop of [count_keywords], on
    a frame whose message column is an [object] column. *)
Definition keyword_matches (chat_df : list CommentRecord.t) (case_sensitive : bool)
    (keyword : string) : result (list KeywordHit.t) :=
  pattern ← Py.compile (negb case_sensitive) keyword;
  let matches :=
    List.filter (fun r => str_contains pattern (CommentRecord.message r)) chat_df in
  mret (map (fun r => {| KeywordHit.keyword := keyword;
                         KeywordHit.timestamp_sec := CommentRecord.timestamp_sec r;
                         KeywordHit.message := CommentRecord.message r |}) matches).

(** [count_keywords] on a frame whose message column is an [object]
    column; [count_keywords_on] below is the method for either dtype. *)
Definition count_keywords (chat_df : list CommentRecord.t) (keywords : list string)
    (case_sensitive : bool) : result (list KeywordHit.t) :=
  match chat_df with
  | [] => Ok []
  | _ :: _ =>
      results ← for_each (keyword_matches chat_df case_sensitive) keywords;
      mret (concat results)
  end.

(** [count_keywords] with the dtype of the message column given: the
    accessor is asked for once the keyword is compiled. *)
Definition keyword_matches_on (column : dtype) (chat_df : list CommentRecord.t)
    (case_sensitive : bool) (keyword : string) : result (list KeywordHit.t) :=
  pattern ← Py.compile (negb case_sensitive) keyword;
  _ ← str_accessor column;
  let matches :=
    List.filter (fun r => str_contains pattern (CommentRecord.message r)) chat_df in
  mret (map (fun r => {| KeywordHit.keyword := keyword;
                         KeywordHit.timestamp_sec := CommentRecord.timestamp_sec r;
                         KeywordHit.message := CommentRecord.message r |}) matches).

Definition count_keywords_on (column : dtype) (chat_df : list CommentRecord.t)
    (keywords : list string) (case_sensitive : bool) : result (list KeywordHit.t) :=
  match chat_df with
  | [] => Ok []
  | _ :: _ =>
      results ← for_each (keyword_matches_on column chat_df case_sensitive) keywords;
      mret (concat results)
  end.

Definition key_ltb (a b : nat * string) : bool :=
  (a.1 <? b.1)%nat || ((a.1 =? b.1)%nat && String.ltb a.2 b.2).
Definition key_eqb (a b : nat * string) : bool :=
  (a.1 =? b.1)%nat && String.eqb a.2 b.2.

Definition keyword_bin_row (bins : list Z) (g : (nat * string) * Z)
  : result KeywordBin.t :=
  b_start ← Py.index bins g.1.1;
  b_end ← Py.index bins (g.1.1 + 1)%nat;
  mret {| KeywordBin.bin_start := b_start; KeywordBin.bin_end := b_end;
          KeywordBin.keyword := g.1.2; KeywordBin.count := g.2 |}.

Definition keyword_bin_leb (a b : KeywordBin.t) : bool :=
  (KeywordBin.bin_start a <? KeywordBin.bin_start b)%Z
  || ((KeywordBin.bin_start a =? KeywordBin.bin_start b)%Z
      && String.leb (KeywordBin.keyword a) (KeywordBin.keyword b)).

Definition get_keyword_frequency_over_time (chat_df : list CommentRecord.t)
    (keywords : list string) (bin_size_seconds : Z) : result (list KeywordBin.t) :=
  keyword_df ← count_keywords chat_df keywords false;
  match keyword_df with
  | [] => Ok []
  | _ :: _ =>
      match binning_error chat_df bin_size_seconds with
      | Some e => Raise e
      | None =>
          let bins := bin_edges chat_df bin_size_seconds in
          let keys :=
            map (fun h => match Pd.cut bins (KeywordHit.timestamp_sec h) with
                          | Some b => Some (b, KeywordHit.keyword h)
                          | None => None
                          end) keyword_df in
          let binned_keywords := Pd.groupby_size key_ltb key_eqb keys in
          rows ← for_each (keyword_bin_row bins) binned_keywords;
          mret (sort_by keyword_bin_leb rows)
      end
  end.
End keywords.

End CommentAnalyzer.

(** ** subtitle_analyzer.py *)

(** A row of the subtitle frame. *)
Module SubtitleRecord.
Record t := {
  start : Q;
  duration : Q;
  end_ : Q;
  text : string
}.
End SubtitleRecord.

Module Gap.
Record t := {
  gap_start : Q;
  gap_end : Q;
  gap_duration : Q
}.
End Gap.

Module Segment.
Record t := {
  segment_id : nat;
  start : Q;
  end_ : Q;
  duration : Q;
  subtitle_count : nat;
  text : string
}.
End Segment.

Module TopicChange.
Record t := {
  time : Q;
  keyword : string;
  text : string
}.
End TopicChange.

Module SubtitleAnalyzer.

Section silences.
Context `{FloatArith}.

(** The loop of [detect_silence_gaps] over adjacent rows [i], [i + 1]. *)
Fixpoint adjacent_gaps (min_gap_seconds : Q) (subtitle_df : list SubtitleRecord.t)
  : list Gap.t :=
  match subtitle_df with
  | current :: (next :: _) as rest =>
      let current_end := SubtitleRecord.end_ current in
      let next_start := SubtitleRecord.start next in
      let gap_duration := fsub next_start current_end in
      (if Qleb min_gap_seconds gap_duration
       then [ {| Gap.gap_start := current_end; Gap.gap_end := next_start;
                 Gap.gap_duration := gap_duration |} ]
       else [])
      ++ adjacent_gaps min_gap_seconds rest
  | _ => []
  end.

Definition detect_silence_gaps (subtitle_df : list SubtitleRecord.t)
    (min_gap_seconds : Q) : list Gap.t :=
  if (length subtitle_df <? 2)%nat then []
  else adjacent_gaps min_gap_seconds subtitle_df.

(** The loop state of [segment_by_silence]. *)
Record seg_state := {
  segments : list Segment.t;
  segment_start : Q;
  current_segment_subs : list SubtitleRecord.t
}.

(** One iteration of the loop of lines 76-111; [i] is the row's index label
    (the frame carries the default index 0, 1, ...). *)
Definition segment_step (subtitle_df : list SubtitleRecord.t) (gaps : list Gap.t)
    (min_segment_duration : Q) (st : seg_state) (i : nat) (row : SubtitleRecord.t)
  : result seg_state :=
  let current_end := SubtitleRecord.end_ row in
  let has_gap :=
    existsb (fun gap => Qltb (Qabs (fsub (Gap.gap_start gap) current_end))
                              (fround 0.1)) gaps in
  let subs := current_segment_subs st ++ [row] in
  if has_gap || (i =? length subtitle_df - 1)%nat then
    let segment_end := SubtitleRecord.end_ row in
    let segment_duration := fsub segment_end (segment_start st) in
    let segments' :=
      if Qleb min_segment_duration segment_duration then
        segments st ++
        [ {| Segment.segment_id := length (segments st);
             Segment.start := segment_start st;
             Segment.end_ := segment_end;
             Segment.duration := segment_duration;
             Segment.subtitle_count := length subs;
             Segment.text := String.concat " " (map SubtitleRecord.text subs) |} ]
      else segments st in
    if (i <? length subtitle_df - 1)%nat then
      next ← Py.index subtitle_df (i + 1)%nat;
      Ok {| segments := segments'; segment_start := SubtitleRecord.start next;
            current_segment_subs := [] |}
    else
      Ok {| segments := segments'; segment_start := segment_start st;
            current_segment_subs := subs |}
  else
    Ok {| segments := segments st; segment_start := segment_start st;
          current_segment_subs := subs |}.

Fixpoint segment_loop (subtitle_df : list SubtitleRecord.t) (gaps : list Gap.t)
    (min_segment_duration : Q) (st : seg_state) (i : nat)
    (rows : list SubtitleRecord.t) : result seg_state :=
  match rows with
  | [] => Ok st
  | row :: rows' =>
      st' ← segment_step subtitle_df gaps min_segment_duration st i row;
      segment_loop subtitle_df gaps min_segment_duration st' (S i) rows'
  end.

Definition segment_by_silence (subtitle_df : list SubtitleRecord.t)
    (min_gap_seconds min_segment_duration : Q) : result (list Segment.t) :=
  match subtitle_df with
  | [] => Ok []
  | first :: _ =>
      let gaps := detect_silence_gaps subtitle_df min_gap_seconds in
      st ← segment_loop subtitle_df gaps min_segment_duration
             {| segments := []; segment_start := SubtitleRecord.start first;
                current_segment_subs := [] |} 0 subtitle_df;
      Ok (segments st)
  end.
End silences.

Definition default_topic_keywords : list string :=
  ["次は"; "それでは"; "続いて"; "さて"; "ここから"; "これから"; "まず"; "最後に"].

Section topics.
Context `{RegexEngine}.

(** The inner [for keyword in keywords] loop: the first keyword found in
    the text, if any. *)
Fixpoint first_match (keywords : list string) (text : string)
  : result (option string) :=
  match keywords with
  | [] => Ok None
  | keyword :: keywords' =>
      pattern ← Py.compile false keyword;
      if (pattern : string -> bool) text then Ok (Some keyword) else first_match keywords' text
  end.

Definition topic_of_row (keywords : list string) (row : SubtitleRecord.t)
  : result (list TopicChange.t) :=
  let text := SubtitleRecord.text row in
  found ← first_match keywords text;
  match found with
  | Some keyword =>
      Ok [ {| TopicChange.time := SubtitleRecord.start row;
              TopicChange.keyword := keyword;
              TopicChange.text := text |} ]
  | None => Ok []
  end.

Definition detect_topic_changes (subtitle_df : list SubtitleRecord.t)
    (keywords : option (list string)) : result (list TopicChange.t) :=
  let keywords := default default_topic_keywords keywords in
  changes ← for_each (topic_of_row keywords) subtitle_df;
  Ok (concat changes).
End topics.

End SubtitleAnalyzer.

(** ** clip_generator.py *)

(** The ['details'] dict of a candidate: each producer builds one shape. *)
Inductive Details :=
| PeakDetails (peak_count : Z) (peak_time : Z)
| KeywordDetails (total_count : Z)
| SegmentDetails (segment_id subtitle_count : nat) (text_preview : string)
| TopicDetails (keyword text : string).

(** A candidate as the producers build it. *)
Module Candidate.
Record t := {
  start : Q;
  end_ : Q;
  reason : string;
  score : Q;
  details : Details
}.
End Candidate.

(** A candidate of the merge pass, with its ['reasons'] and ['all_details']. *)
Module Merged.
Record t := {
  start : Q;
  end_ : Q;
  reason : string;
  score : Q;
  details : Details;
  reasons : list string;
  all_details : list Details
}.
End Merged.

(** A row of [keyword_freq_df.groupby(['bin_start', 'bin_end']).sum()]; the
    concatenated keyword column is not read afterwards and is left out. *)
Module BinTotal.
Record t := {
  bin_start : Z;
  bin_end : Z;
  count : Z
}.
End BinTotal.

Module ClipGenerator.

(** The two analyzers, each given by its frame.  The keyword producer runs
    [CommentAnalyzer.count_keywords], the reading of the method on an
    [object] message column; on a comment frame whose messages are all NaN
    the method is [CommentAnalyzer.count_keywords_on] at [float64]. *)
Record t := {
  comment_analyzer : option (list CommentRecord.t);
  subtitle_analyzer : option (list SubtitleRecord.t)
}.

Definition default_reaction_keywords : list string :=
  ["w+"; "草"; "笑"; "！+"; "？+"; "すごい"; "やばい"].

(** [min_duration <= duration <= max_duration] *)
Definition within (min_duration max_duration duration : Q) : bool :=
  Qleb min_duration duration && Qleb duration max_duration.

(** The times of a peak are bin edges, whole numbers far below [2^53]: the
    float arithmetic on them is exact. *)
Definition candidate_of_peak (min_duration max_duration : Q) (peak : Peak.t)
  : list Candidate.t :=
  let start := Py.max 0 (inject_Z (Peak.time peak) - 15) in
  let end_ := Py.min (inject_Z (Peak.time_end peak) + 30) (inject_Z (Peak.time peak) + 60) in
  let duration := (end_ - start)%Q in
  if within min_duration max_duration duration then
    [ {| Candidate.start := start; Candidate.end_ := end_;
         Candidate.reason := "コメント急増"; Candidate.score := 0;
         Candidate.details := PeakDetails (Peak.count peak) (Peak.time peak) |} ]
  else [].

Definition _generate_from_comment_peaks (chat_df : list CommentRecord.t)
    (min_duration max_duration : Q) : result (list Candidate.t) :=
  binned_df ← CommentAnalyzer.bin_comments_by_time chat_df 10;
  peaks ← CommentAnalyzer.find_peaks binned_df 75 30;
  Ok (concat (map (candidate_of_peak min_duration max_duration) peaks)).

Definition _create_candidate_from_group (group : list BinTotal.t) (reason : string)
    (min_duration max_duration : Q) : option Candidate.t :=
  match group, last group with
  | first :: _, Some final =>
      let start := Py.max 0 (inject_Z (BinTotal.bin_start first) - 10) in
      let end_ := (inject_Z (BinTotal.bin_end final) + 10)%Q in
      let duration := (end_ - start)%Q in
      if within min_duration max_duration duration then
        let total_count := foldl Z.add 0%Z (map BinTotal.count group) in
        Some {| Candidate.start := start; Candidate.end_ := end_;
                Candidate.reason := reason; Candidate.score := 0;
                Candidate.details := KeywordDetails total_count |}
      else None
  | _, _ => None
  end.

Definition pair_ltb (a b : Z * Z) : bool :=
  (a.1 <? b.1)%Z || ((a.1 =? b.1)%Z && (a.2 <? b.2)%Z).
Definition pair_eqb (a b : Z * Z) : bool :=
  (a.1 =? b.1)%Z && (a.2 =? b.2)%Z.

(** Line 149. *)
Definition bin_totals (keyword_freq_df : list KeywordBin.t) : list BinTotal.t :=
  map (fun g => {| BinTotal.bin_start := g.1.1; BinTotal.bin_end := g.1.2;
                   BinTotal.count := g.2 |})
      (Pd.groupby_sum pair_ltb pair_eqb
         (map (fun r => ((KeywordBin.bin_start r, KeywordBin.bin_end r), KeywordBin.count r))
              keyword_freq_df)).

Definition append_candidate (candidates : list Candidate.t) (c : option Candidate.t)
  : list Candidate.t :=
  match c with
  | Some candidate => candidates ++ [candidate]
  | None => candidates
  end.

(** One iteration of the loop of lines 156-170. *)
Definition keyword_step (min_duration max_duration : Q)
    (st : list Candidate.t * list BinTotal.t) (row : BinTotal.t)
  : list Candidate.t * list BinTotal.t :=
  let '(candidates, current_group) := st in
  match last current_group with
  | None => (candidates, current_group ++ [row])
  | Some prev =>
      if (BinTotal.bin_start row - BinTotal.bin_end prev <=? 20)%Z
      then (candidates, current_group ++ [row])
      else (append_candidate candidates
              (_create_candidate_from_group current_group "キーワード多発"
                 min_duration max_duration),
            [row])
  end.

Section keywords.
Context `{RegexEngine}.

Definition _generate_from_keywords (chat_df : list CommentRecord.t)
    (keywords : list string) (min_duration max_duration : Q)
  : result (list Candidate.t) :=
  keyword_freq_df ← CommentAnalyzer.get_keyword_frequency_over_time chat_df keywords 10;
  match keyword_freq_df with
  | [] => Ok []
  | _ :: _ =>
      let totals := bin_totals keyword_freq_df in
      threshold ← Np.percentile (map BinTotal.count totals) (0.75 * 100);
      let high_keyword_bins :=
        List.filter (fun r => Qleb threshold (inject_Z (BinTotal.count r))) totals in
      let st := foldl (keyword_step min_duration max_duration) ([], []) high_keyword_bins in
      match st.2 with
      | [] => Ok st.1
      | _ :: _ =>
          Ok (append_candidate st.1
                (_create_candidate_from_group st.2 "キーワード多発"
                   min_duration max_duration))
      end
  end.
End keywords.

Definition text_preview (text : string) : string :=
  if (100 <? Py.len text)%nat then Py.prefix 100 text +:+ "..." else text.

Definition candidate_of_segment (min_duration max_duration : Q) (segment : Segment.t)
  : list Candidate.t :=
  let duration := Segment.duration segment in
  if within min_duration max_duration duration then
    [ {| Candidate.start := Segment.start segment;
         Candidate.end_ := Segment.end_ segment;
         Candidate.reason := "字幕セグメント"; Candidate.score := 0;
         Candidate.details :=
           SegmentDetails (Segment.segment_id segment) (Segment.subtitle_count segment)
                          (text_preview (Segment.text segment)) |} ]
  else [].

Definition _generate_from_subtitle_segments `{FloatArith}
    (subtitle_df : list SubtitleRecord.t) (min_duration max_duration : Q)
  : result (list Candidate.t) :=
  segments ← SubtitleAnalyzer.segment_by_silence subtitle_df 2.0 min_duration;
  Ok (concat (map (candidate_of_segment min_duration max_duration) segments)).

(** The loop of lines 225-247: each change runs to the next one, the last
    one for 60 seconds. *)
Fixpoint topic_candidates `{FloatArith} (min_duration max_duration : Q)
    (topic_changes : list TopicChange.t) : list Candidate.t :=
  match topic_changes with
  | [] => []
  | change :: rest =>
      let start := TopicChange.time change in
      let end_ :=
        match rest with
        | next :: _ => TopicChange.time next
        | [] => fadd start 60
        end in
      let duration := fsub end_ start in
      (if within min_duration max_duration duration then
         [ {| Candidate.start := start; Candidate.end_ := end_;
              Candidate.reason := "話題転換: " +:+ TopicChange.keyword change;
              Candidate.score := 0;
              Candidate.details :=
                TopicDetails (TopicChange.keyword change) (TopicChange.text change) |} ]
       else [])
      ++ topic_candidates min_duration max_duration rest
  end.

Definition _generate_from_topic_changes `{RegexEngine} `{FloatArith}
    (subtitle_df : list SubtitleRecord.t) (min_duration max_duration : Q)
  : result (list Candidate.t) :=
  topic_changes ← SubtitleAnalyzer.detect_topic_changes subtitle_df None;
  Ok (topic_candidates min_duration max_duration topic_changes).

(** [_calculate_overlap] reads only ['start'] and ['end'] of its arguments. *)
Definition _calculate_overlap (c1_start c1_end c2_start c2_end : Q) : result Q :=
  let overlap_start := Py.max c1_start c2_start in
  let overlap_end := Py.min c1_end c2_end in
  if Qleb overlap_end overlap_start then Ok 0%Q
  else
    let overlap_duration := (overlap_end - overlap_start)%Q in
    let min_duration := Py.min (c1_end - c1_start) (c2_end - c2_start) in
    if Qeq_bool min_duration 0 then Raise ZeroDivisionError
    else Ok (overlap_duration / min_duration)%Q.

Definition detail_score (details : Details) : Q :=
  match details with
  | PeakDetails peak_count _ => Py.min (inject_Z peak_count / 100) 0.3
  | KeywordDetails total_count => Py.min (inject_Z total_count / 50) 0.2
  | SegmentDetails _ _ _ => 0%Q
  | TopicDetails _ _ => 0%Q
  end.

Definition _calculate_score (candidate : Merged.t) : Q :=
  let num_reasons := length (Merged.reasons candidate) in
  let score := (0 + Py.min (inject_Z (Z.of_nat num_reasons) * 0.3) 0.6)%Q in
  let score := foldl (fun score details => (score + detail_score details)%Q)
                     score (Merged.all_details candidate) in
  Py.min score 1.0.

(** [candidate.copy()] with the two list keys added. *)
Definition open_candidate (candidate : Candidate.t) : Merged.t :=
  {| Merged.start := Candidate.start candidate;
     Merged.end_ := Candidate.end_ candidate;
     Merged.reason := Candidate.reason candidate;
     Merged.score := Candidate.score candidate;
     Merged.details := Candidate.details candidate;
     Merged.reasons := [Candidate.reason candidate];
     Merged.all_details := [Candidate.details candidate] |}.

Definition set_score (current : Merged.t) : Merged.t :=
  {| Merged.start := Merged.start current;
     Merged.end_ := Merged.end_ current;
     Merged.reason := Merged.reason current;
     Merged.score := _calculate_score current;
     Merged.details := Merged.details current;
     Merged.reasons := Merged.reasons current;
     Merged.all_details := Merged.all_details current |}.

(** One iteration of the loop of lines 303-321. *)
Definition merge_step (st : list Merged.t * Merged.t) (candidate : Candidate.t)
  : result (list Merged.t * Merged.t) :=
  let '(merged, current) := st in
  overlap ← _calculate_overlap (Merged.start current) (Merged.end_ current)
              (Candidate.start candidate) (Candidate.end_ candidate);
  if Qltb 0.5 overlap then
    Ok (merged,
        {| Merged.start := Py.min (Merged.start current) (Candidate.start candidate);
           Merged.end_ := Py.max (Merged.end_ current) (Candidate.end_ candidate);
           Merged.reason := Merged.reason current;
           Merged.score := Merged.score current;
           Merged.details := Merged.details current;
           Merged.reasons := Merged.reasons current ++ [Candidate.reason candidate];
           Merged.all_details :=
             Merged.all_details current ++ [Candidate.details candidate] |})
  else
    Ok (merged ++ [set_score current], open_candidate candidate).

(** Line 333: [', '.join(set(reasons))].  Python fixes no iteration order
    for a set of strings; the order of first occurrence stands for it. *)
Definition join_reasons (candidate : Merged.t) : Merged.t :=
  {| Merged.start := Merged.start candidate;
     Merged.end_ := Merged.end_ candidate;
     Merged.reason := String.concat ", " (remove_dups (Merged.reasons candidate));
     Merged.score := Merged.score candidate;
     Merged.details := Merged.details candidate;
     Merged.reasons := Merged.reasons candidate;
     Merged.all_details := Merged.all_details candidate |}.

Definition valid_duration `{FloatArith} (min_duration max_duration : Q)
    (candidate : Merged.t) : bool :=
  within min_duration max_duration (fsub (Merged.end_ candidate) (Merged.start candidate)).

Definition _merge_and_score_candidates `{FloatArith} (candidates : list Candidate.t)
    (min_duration max_duration : Q) : result (list Merged.t) :=
  match sort_by (fun a b => Qleb (Candidate.start a) (Candidate.start b)) candidates with
  | [] => Ok []
  | first :: rest =>
      st ← for_loop merge_step ([], open_candidate first) rest;
      let merged := st.1 ++ [set_score st.2] in
      Ok (map join_reasons (List.filter (valid_duration min_duration max_duration) merged))
  end.

Section generate.
Context `{RegexEngine} `{FloatArith}.

(** A producer runs only when its analyzer is present. *)
Definition when_present {A} (analyzer : option A)
    (producer : A -> result (list Candidate.t)) : result (list Candidate.t) :=
  match analyzer with
  | Some a => producer a
  | None => Ok []
  end.

Definition generate_candidates (self : t) (min_duration max_duration : Q)
    (reaction_keywords : option (list string)) : result (list Merged.t) :=
  let reaction_keywords := default default_reaction_keywords reaction_keywords in
  peak_candidates ← when_present (comment_analyzer self)
    (fun chat_df => _generate_from_comment_peaks chat_df min_duration max_duration);
  keyword_candidates ← when_present (comment_analyzer self)
    (fun chat_df => _generate_from_keywords chat_df reaction_keywords
                      min_duration max_duration);
  segment_candidates ← when_present (subtitle_analyzer self)
    (fun subtitle_df => _generate_from_subtitle_segments subtitle_df
                          min_duration max_duration);
  topic_candidates ← when_present (subtitle_analyzer self)
    (fun subtitle_df => _generate_from_topic_changes subtitle_df
                          min_duration max_duration);
  let candidates :=
    peak_candidates ++ keyword_candidates ++ segment_candidates ++ topic_candidates in
  merged_candidates ← _merge_and_score_candidates candidates min_duration max_duration;
  Ok (sort_by (fun a b => Qleb (Merged.score b) (Merged.score a)) merged_candidates).
End generate.

End ClipGenerator.

(** ** The analyzers as objects over a store of frames

    [CommentAnalyzer.__init__] and [SubtitleAnalyzer.__init__] keep
    [df.copy()], a new frame object; [bin_comments_by_time] assigns the
    ['bin'] column of the analyzer's frame (line 49).  Every other method
    only reads [self.chat_df] / [self.subtitle_df]: [count_keywords] and
    [find_keyword_timestamps] add their ['keyword'] column to a [.copy()] of
    the selected rows, [get_keyword_frequency_over_time] adds ['bin'] to the
    frame that [count_keywords] returned. *)

Module Store.

Abbreviation loc := positive.

(** A frame object: its rows and, once assigned, its ['bin'] column. *)
Record ChatFrame := {
  chat_rows : list CommentRecord.t;
  bin : option (list (option nat))
}.

Inductive Frame :=
| Chat (df : ChatFrame)
| Subtitles (df : list SubtitleRecord.t).

Abbreviation heap := (gmap loc Frame).

(** [df.copy()]: a new object with the same contents. *)
Definition copy (h : heap) (df : loc) : option (heap * loc) :=
  match h !! df with
  | Some frame => let l := fresh (dom h) in Some (<[l := frame]> h, l)
  | None => None
  end.

Record comment_analyzer := { chat_df : loc }.
Record subtitle_analyzer := { subtitle_df : loc }.

Definition CommentAnalyzer_init (h : heap) (chat_df : loc)
  : option (heap * comment_analyzer) :=
  match copy h chat_df with
  | Some (h', l) => Some (h', {| chat_df := l |})
  | None => None
  end.

Definition SubtitleAnalyzer_init (h : heap) (subtitle_df : loc)
  : option (heap * subtitle_analyzer) :=
  match copy h subtitle_df with
  | Some (h', l) => Some (h', {| subtitle_df := l |})
  | None => None
  end.

(** [bin_comments_by_time] as a method: the store after the call and the
    value returned.  The column is assigned once numpy and pandas have
    accepted the bin size. *)
Definition bin_comments_by_time (self : comment_analyzer) (bin_size_seconds : Z)
    (h : heap) : heap * result (list TimeBin.t) :=
  match h !! chat_df self with
  | Some (Chat df) =>
      let rows := chat_rows df in
      let h' :=
        match rows with
        | [] => h
        | _ :: _ =>
            match CommentAnalyzer.binning_error rows bin_size_seconds with
            | Some _ => h
            | None =>
                <[chat_df self :=
                    Chat {| chat_rows := rows;
                            bin := Some (CommentAnalyzer.bin_column rows bin_size_seconds) |}]> h
            end
        end in
      (h', CommentAnalyzer.bin_comments_by_time rows bin_size_seconds)
  | _ => (h, Raise KeyError)
  end.

(** The public methods of the two classes, as calls. *)
Inductive comment_call :=
| call_bin_comments_by_time (bin_size_seconds : Z)
| call_find_peaks (binned_df : list TimeBin.t) (threshold_percentile : Q)
                  (min_gap_seconds : Z)
| call_count_keywords (keywords : list string) (case_sensitive : bool)
| call_get_keyword_frequency_over_time (keywords : list string) (bin_size_seconds : Z)
| call_get_top_commenters (top_n : Z)
| call_comment_get_statistics.

Inductive subtitle_call :=
| call_detect_silence_gaps (min_gap_seconds : Q)
| call_segment_by_silence (min_gap_seconds min_segment_duration : Q)
| call_detect_topic_changes (keywords : option (list string))
| call_find_keyword_timestamps (keywords : list string) (case_sensitive : bool)
| call_get_subtitle_at_time (timestamp : Q)
| call_get_subtitle_range (start_time end_time : Q)
| call_get_full_text (separator : string)
| call_subtitle_get_statistics.

(** The store after one call. *)
Definition comment_effect (self : comment_analyzer) (c : comment_call) (h : heap) : heap :=
  match c with
  | call_bin_comments_by_time bin_size_seconds =>
      (bin_comments_by_time self bin_size_seconds h).1
  | call_find_peaks _ _ _
  | call_count_keywords _ _
  | call_get_keyword_frequency_over_time _ _
  | call_get_top_commenters _
  | call_comment_get_statistics => h
  end.

Definition subtitle_effect (self : subtitle_analyzer) (c : subtitle_call) (h : heap) : heap :=
  match c with
  | call_detect_silence_gaps _
  | call_segment_by_silence _ _
  | call_detect_topic_changes _
  | call_find_keyword_timestamps _ _
  | call_get_subtitle_at_time _
  | call_get_subtitle_range _ _
  | call_get_full_text _
  | call_subtitle_get_statistics => h
  end.

Definition comment_run (self : comment_analyzer) (calls : list comment_call) (h : heap)
  : heap :=
  foldl (fun h c => comment_effect self c h) h calls.

Definition subtitle_run (self : subtitle_analyzer) (calls : list subtitle_call) (h : heap)
  : heap :=
  foldl (fun h c => subtitle_effect self c h) h calls.

End Store.

(** ** chat_fetcher.py: [extract_video_id]

    The three regular expressions of lines 31-42 are written out.  A text
    is the sequence of its UTF-8 bytes; the patterns hold ASCII characters
    only, so that a match found on bytes is the match found on code
    points. *)

Module ChatFetcher.
Import Stdlib.Strings.Ascii.

(** [[a-zA-Z0-9_-]] *)
Definition is_id_char (c : ascii) : bool :=
  (("a" <=? c)%char && (c <=? "z")%char)
  || (("A" <=? c)%char && (c <=? "Z")%char)
  || (("0" <=? c)%char && (c <=? "9")%char)
  || (c =? "_")%char || (c =? "-")%char.

(** A literal at the start of [s]: what follows it. *)
Fixpoint strip_prefix (literal s : string) : option string :=
  match literal with
  | EmptyString => Some s
  | String c literal' =>
      match s with
      | String d s' => if (c =? d)%char then strip_prefix literal' s' else None
      | EmptyString => None
      end
  end.

(** [[a-zA-Z0-9_-]{n}] at the start of [s]: the text matched and what
    follows it. *)
Fixpoint id_chars (n : nat) (s : string) : option (string * string) :=
  match n with
  | O => Some (EmptyString, s)
  | S n' =>
      match s with
      | String c s' =>
          if is_id_char c then
            match id_chars n' s' with
            | Some (matched, rest) => Some (String c matched, rest)
            | None => None
            end
          else None
      | EmptyString => None
      end
  end.

(** [literal([a-zA-Z0-9_-]{11})] at the start of [s]: group 1. *)
Definition group_after (literal s : string) : option string :=
  match strip_prefix literal s with
  | Some rest =>
      match id_chars 11 rest with
      | Some (matched, _) => Some matched
      | None => None
      end
  | None => None
  end.

(** [(?:youtube\.com/watch\?v=|youtu\.be/)([a-zA-Z0-9_-]{11})] at the start
    of [s]: the alternatives in their order. *)
Definition watch_pattern (s : string) : option string :=
  match group_after "youtube.com/watch?v=" s with
  | Some video_id => Some video_id
  | None => group_after "youtu.be/" s
  end.

(** [youtube\.com/live/([a-zA-Z0-9_-]{11})] at the start of [s]. *)
Definition live_pattern (s : string) : option string :=
  group_after "youtube.com/live/" s.

(** [re.search(pattern, s).group(1)]: the match at the leftmost position
    that has one. *)
Fixpoint search (pattern : string -> option string) (s : string) : option string :=
  match pattern s with
  | Some group => Some group
  | None =>
      match s with
      | String _ s' => search pattern s'
      | EmptyString => None
      end
  end.

Definition newline : string := String (Ascii.ascii_of_nat 10) EmptyString.

(** [re.match(r'^[a-zA-Z0-9_-]{11}$', url)]: [$] stands at the end of the
    text and also before a newline that ends it. *)
Definition is_bare_id (url : string) : bool :=
  match id_chars 11 url with
  | Some (_, rest) => String.eqb rest EmptyString || String.eqb rest newline
  | None => false
  end.

Definition extract_video_id (url : string) : option string :=
  match search watch_pattern url with
  | Some video_id => Some video_id
  | None =>
      match search live_pattern url with
      | Some video_id => Some video_id
      | None => if is_bare_id url then Some url else None
      end
  end.

(** The address that [fetch_chat] hands to yt-dlp (line 82). *)
Definition watch_url (video_id : string) : string :=
  "https://www.youtube.com/watch?v=" +:+ video_id.

End ChatFetcher.

(** ** data_parser.py, charts.py and subtitle_fetcher.py *)

From stdpp Require Import pretty.

(** The float operators [//] and [%] as CPython computes them
    ([float_floor_div] and [float_rem] of [floatobject.c]), for a positive
    divisor. *)
Module PyFloat.

(** [int(x)]: towards zero. *)
Definition int (x : Q) : Z := if Qleb 0 x then Qfloor x else Qceiling x.

(** C's [fmod(x, y)]: the remainder of the division towards zero, which
    has the sign of [x]; it is a float, nothing is rounded. *)
Definition fmod (x y : Q) : Q := x - y * inject_Z (int (x / y)).

Section operators.
Context `{FloatArith}.

(** [x % y]: a remainder below zero has [y] added to it, by a float
    addition. *)
Definition mod_ (x y : Q) : Q :=
  let mod_ := fmod x y in
  if negb (Qeq_bool mod_ 0) && Qltb mod_ 0 then fadd mod_ y else mod_.

(** [x // y]: the quotient of [x - fmod(x, y)] by [y], less one when the
    remainder is below zero, snapped to the nearest whole number. *)
Definition floordiv (x y : Q) : Q :=
  let mod_ := fmod x y in
  let div := fdiv (fsub x mod_) y in
  let div := if negb (Qeq_bool mod_ 0) && Qltb mod_ 0 then fsub div 1 else div in
  if Qeq_bool div 0 then 0
  else
    let floordiv := inject_Z (Qfloor div) in
    if Qltb 0.5 (fsub div floordiv) then fadd floordiv 1 else floordiv.

End operators.

(** [f"{n}"] and [f"{n:02d}"] for an integer. *)
Definition fmt (n : Z) : string := pretty n.

Definition fmt_02d (n : Z) : string :=
  if (0 <=? n)%Z && (n <? 10)%Z then "0" +:+ pretty n else pretty n.

End PyFloat.

(** An entry of the ['subtitles'] list of a subtitle file; a key may be
    missing. *)
Module RawSubtitle.
Record t := {
  start : option Q;
  duration : option Q;
  text : option string
}.
End RawSubtitle.

(** The dict of a subtitle file; of its keys only ['subtitles'] is read. *)
Module SubtitleData.
Record t := {
  subtitles : option (list RawSubtitle.t)
}.
End SubtitleData.

(** [d[key]] *)
Definition getitem {A} (value : option A) : result A :=
  match value with
  | Some x => Ok x
  | None => Raise KeyError
  end.

Module DataParser.

(** The body of the loop of [parse_subtitle_to_dataframe]. *)
Definition parse_subtitle (sub : RawSubtitle.t) : result SubtitleRecord.t :=
  start ← getitem (RawSubtitle.start sub);
  duration ← getitem (RawSubtitle.duration sub);
  let end_ := (start + duration)%Q in
  text ← getitem (RawSubtitle.text sub);
  Ok {| SubtitleRecord.start := start; SubtitleRecord.duration := duration;
        SubtitleRecord.end_ := end_; SubtitleRecord.text := text |}.

(** [parse_subtitle_to_dataframe].  [sort_values('start')] leaves the order
    of rows with equal starts open; the stable order stands for it. *)
Definition parse_subtitle_to_dataframe (subtitle_data : SubtitleData.t)
  : result (list SubtitleRecord.t) :=
  let subtitles := default [] (SubtitleData.subtitles subtitle_data) in
  parsed_data ← for_each parse_subtitle subtitles;
  match parsed_data with
  | [] => Ok []
  | _ :: _ =>
      Ok (sort_by (fun a b => Qleb (SubtitleRecord.start a) (SubtitleRecord.start b))
                  parsed_data)
  end.

(** [normalize_timestamps] on a chat frame: the rows with the new column
    ['timestamp_sec_normalized']. *)
Definition normalize_timestamps (df : list CommentRecord.t)
  : list (CommentRecord.t * Q) :=
  match df with
  | [] => []
  | _ :: _ =>
      let min_timestamp := CommentAnalyzer.min_time df in
      map (fun r => (r, (CommentRecord.timestamp_sec r - min_timestamp)%Q)) df
  end.

Definition get_video_duration (df : list CommentRecord.t) : Q :=
  match df with
  | [] => 0
  | _ :: _ => CommentAnalyzer.max_time df - CommentAnalyzer.min_time df
  end.

Section format_timestamp.
Context `{FloatArith}.

(** Lines 140-142. *)
Definition hours (seconds : Q) : Z := PyFloat.int (PyFloat.floordiv seconds 3600).
Definition minutes (seconds : Q) : Z :=
  PyFloat.int (PyFloat.floordiv (PyFloat.mod_ seconds 3600) 60).
Definition secs (seconds : Q) : Z := PyFloat.int (PyFloat.mod_ seconds 60).

Definition format_timestamp (seconds : Q) : string :=
  let hours := hours seconds in
  let minutes := minutes seconds in
  let secs := secs seconds in
  if (0 <? hours)%Z then
    PyFloat.fmt hours +:+ ":" +:+ PyFloat.fmt_02d minutes +:+ ":" +:+ PyFloat.fmt_02d secs
  else
    PyFloat.fmt minutes +:+ ":" +:+ PyFloat.fmt_02d secs.
End format_timestamp.

End DataParser.

Module ChartGenerator.

(** [format_time] has the body of [DataParser.format_timestamp]. *)
Definition format_time `{FloatArith} (seconds : Q) : string :=
  let hours := PyFloat.int (PyFloat.floordiv seconds 3600) in
  let minutes := PyFloat.int (PyFloat.floordiv (PyFloat.mod_ seconds 3600) 60) in
  let secs := PyFloat.int (PyFloat.mod_ seconds 60) in
  if (0 <? hours)%Z then
    PyFloat.fmt hours +:+ ":" +:+ PyFloat.fmt_02d minutes +:+ ":" +:+ PyFloat.fmt_02d secs
  else
    PyFloat.fmt minutes +:+ ":" +:+ PyFloat.fmt_02d secs.

End ChartGenerator.

Module SubtitleFetcher.

(** The loop of [get_subtitle_at_time]. *)
Fixpoint at_time (subtitles : list RawSubtitle.t) (timestamp : Q)
  : result (option string) :=
  match subtitles with
  | [] => Ok None
  | sub :: subtitles' =>
      start ← getitem (RawSubtitle.start sub);
      duration ← getitem (RawSubtitle.duration sub);
      if Qleb start timestamp && Qltb timestamp (start + duration) then
        text ← getitem (RawSubtitle.text sub);
        Ok (Some text)
      else at_time subtitles' timestamp
  end.

Definition get_subtitle_at_time (subtitle_data : SubtitleData.t) (timestamp : Q)
  : result (option string) :=
  at_time (default [] (SubtitleData.subtitles subtitle_data)) timestamp.

(** The body of the loop of [get_subtitle_range]: the entry, if it is
    kept. *)
Definition in_range (start_time end_time : Q) (sub : RawSubtitle.t)
  : result (list RawSubtitle.t) :=
  sub_start ← getitem (RawSubtitle.start sub);
  duration ← getitem (RawSubtitle.duration sub);
  let sub_end := (sub_start + duration)%Q in
  if Qltb sub_start end_time && Qltb start_time sub_end then Ok [sub] else Ok [].

Definition get_subtitle_range (subtitle_data : SubtitleData.t) (start_time end_time : Q)
  : result (list RawSubtitle.t) :=
  kept ← for_each (in_range start_time end_time)
                  (default [] (SubtitleData.subtitles subtitle_data));
  Ok (concat kept).

End SubtitleFetcher.

(** A row of the frame returned by [find_keyword_timestamps]. *)
Module KeywordTimestamp.
Record t := {
  keyword : string;
  start : Q;
  end_ : Q;
  text : string
}.
End KeywordTimestamp.

(** Further methods of [SubtitleAnalyzer]. *)
Module SubtitleLookup.

Section keywords.
Context `{RegexEngine}.

(** The body of the [for keyword in keywords] loop of
    [find_keyword_timestamps]. *)
Definition keyword_rows (subtitle_df : list SubtitleRecord.t) (case_sensitive : bool)
    (keyword : string) : result (list KeywordTimestamp.t) :=
  pattern ← Py.compile (negb case_sensitive) keyword;
  let matches :=
    List.filter (fun r => (pattern : string -> bool) (SubtitleRecord.text r)) subtitle_df in
  Ok (map (fun r => {| KeywordTimestamp.keyword := keyword;
                       KeywordTimestamp.start := SubtitleRecord.start r;
                       KeywordTimestamp.end_ := SubtitleRecord.end_ r;
                       KeywordTimestamp.text := SubtitleRecord.text r |}) matches).

Definition find_keyword_timestamps (subtitle_df : list SubtitleRecord.t)
    (keywords : list string) (case_sensitive : bool)
  : result (list KeywordTimestamp.t) :=
  match subtitle_df with
  | [] => Ok []
  | _ :: _ =>
      results ← for_each (keyword_rows subtitle_df case_sensitive) keywords;
      Ok (concat results)
  end.
End keywords.

Definition covers (timestamp : Q) (row : SubtitleRecord.t) : bool :=
  Qleb (SubtitleRecord.start row) timestamp && Qltb timestamp (SubtitleRecord.end_ row).

Definition get_subtitle_at_time (subtitle_df : list SubtitleRecord.t) (timestamp : Q)
  : option string :=
  match List.filter (covers timestamp) subtitle_df with
  | row :: _ => Some (SubtitleRecord.text row)
  | [] => None
  end.

Definition overlaps (start_time end_time : Q) (row : SubtitleRecord.t) : bool :=
  Qltb (SubtitleRecord.start row) end_time && Qltb start_time (SubtitleRecord.end_ row).

Definition get_subtitle_range (subtitle_df : list SubtitleRecord.t)
    (start_time end_time : Q) : list SubtitleRecord.t :=
  List.filter (overlaps start_time end_time) subtitle_df.

End SubtitleLookup.

(** ** comment_analyzer.py: the ranking of commenters *)

(** A row of the frame returned by [get_top_commenters]. *)
Module Commenter.
Record t := {
  author : string;
  comment_count : Z
}.
End Commenter.

Module PdSeries.

(** One more occurrence of [value] in a table of counts; a value not yet
    seen is added after the others. *)
Fixpoint tally (value : string) (counts : list (string * Z)) : list (string * Z) :=
  match counts with
  | [] => [(value, 1%Z)]
  | (v, c) :: counts' =>
      if String.eqb v value then (v, (c + 1)%Z) :: counts'
      else (v, c) :: tally value counts'
  end.

(** [Series.value_counts()]: the distinct values with the number of their
    occurrences, the most frequent first.  pandas leaves the order of
    values with equal counts open; the order of first occurrence stands
    for it. *)
Definition value_counts (values : list string) : list (string * Z) :=
  sort_by (fun a b => (b.2 <=? a.2)%Z)
          (foldl (fun counts value => tally value counts) [] values).

(** [DataFrame.head(n)]: the first [n] rows, and for a negative [n] all
    rows but the last [-n]. *)
Definition head {A} (n : Z) (rows : list A) : list A :=
  if (0 <=? n)%Z then take (Z.to_nat n) rows
  else take (length rows - Z.to_nat (- n)) rows.

End PdSeries.

(** A further method of [CommentAnalyzer]. *)
Module CommentRanking.

Definition get_top_commenters (chat_df : list CommentRecord.t) (top_n : Z)
  : list Commenter.t :=
  match chat_df with
  | [] => []
  | _ :: _ =>
      let commenter_counts :=
        PdSeries.value_counts (map CommentRecord.author chat_df) in
      map (fun vc => {| Commenter.author := vc.1; Commenter.comment_count := vc.2 |})
          (PdSeries.head top_n commenter_counts)
  end.

End CommentRanking.

(** ** Notions used to state the properties *)

(** The groups that [find_peaks] closes: its own loop, with each closed
    group kept as it is. *)
Definition peak_groups (binned_df : list TimeBin.t) (threshold_percentile : Q)
    (min_gap_seconds : Z) : result (list (list TimeBin.t)) :=
  match binned_df with
  | [] => Ok []
  | _ :: _ =>
      peaks ← CommentAnalyzer.peak_rows binned_df threshold_percentile;
      match peaks with
      | [] => Ok []
      | _ :: _ => CommentAnalyzer.peak_loop Ok min_gap_seconds peaks
      end
  end.

(** [peak] carries the start, end, count and rate of one member of
    [group] whose count no other member exceeds. *)
Definition representative (group : list TimeBin.t) (peak : Peak.t) : Prop :=
  exists max_row,
    In max_row group /\
    (forall x, In x group -> (TimeBin.count x <= TimeBin.count max_row)%Z) /\
    Peak.time peak = TimeBin.bin_start max_row /\
    Peak.time_end peak = TimeBin.bin_end max_row /\
    Peak.count peak = TimeBin.count max_row /\
    Peak.comment_rate peak = TimeBin.comment_rate max_row.

(** No adjacent pair of subtitles is [min_gap_seconds] or more apart: the
    gap is the float difference [next.start - current.end] that the code
    computes. *)
Definition no_silence `{FloatArith} (min_gap_seconds : Q)
    (subtitle_df : list SubtitleRecord.t) : Prop :=
  forall (i : nat) (current next : SubtitleRecord.t),
    subtitle_df !! i = Some current ->
    subtitle_df !! S i = Some next ->
    (fsub (SubtitleRecord.start next) (SubtitleRecord.end_ current) < min_gap_seconds)%Q.

(** The one segment that spans [subtitle_df] from [first] to [final]; its
    duration is the float difference of its two ends. *)
Definition whole_segment `{FloatArith} (subtitle_df : list SubtitleRecord.t)
    (first final : SubtitleRecord.t) : Segment.t :=
  {| Segment.segment_id := 0;
     Segment.start := SubtitleRecord.start first;
     Segment.end_ := SubtitleRecord.end_ final;
     Segment.duration := fsub (SubtitleRecord.end_ final) (SubtitleRecord.start first);
     Segment.subtitle_count := length subtitle_df;
     Segment.text := String.concat " " (map SubtitleRecord.text subtitle_df) |}.

(** [re.compile] accepts the pattern. *)
Definition compiles `{RegexEngine} (ignorecase : bool) (pattern : string) : Prop :=
  is_Some (re_compile ignorecase pattern).

(** The message column is an [object] column: the frame is empty or some
    message is a text. *)
Definition text_column (chat_df : list CommentRecord.t) : Prop :=
  CommentAnalyzer.message_dtype chat_df = CommentAnalyzer.object_.

(** The record's message is present (not NaN). *)
Definition has_message (r : CommentRecord.t) : bool :=
  match CommentRecord.message r with
  | Some _ => true
  | None => false
  end.

(** The end of [find_peaks]'s loop: the group still open is closed. *)
Definition finish {B} (close : list TimeBin.t -> result B)
    (st : list B * list TimeBin.t) : result (list B) :=
  match st.2 with
  | [] => Ok st.1
  | _ :: _ => p ← close st.2; Ok (st.1 ++ [p])
  end.

(** The loop of [count_keywords] without the early return. *)
Definition count_all `{RegexEngine} (chat_df : list CommentRecord.t)
    (keywords : list string) (case_sensitive : bool) : result (list KeywordHit.t) :=
  results ← for_each (CommentAnalyzer.keyword_matches chat_df case_sensitive) keywords;
  Ok (concat results).

(** The counts that a ['details'] dict carries are not negative. *)
Definition details_ok (details : Details) : Prop :=
  match details with
  | PeakDetails peak_count _ => (0 <= peak_count)%Z
  | KeywordDetails total_count => (0 <= total_count)%Z
  | SegmentDetails _ _ _ => True
  | TopicDetails _ _ => True
  end.

(** What holds of a candidate that passed a producer's duration filter. *)
Definition candidate_ok (min_duration max_duration : Q) (c : Candidate.t) : Prop :=
  (min_duration <= max_duration)%Q /\ details_ok (Candidate.details c).

(** The comment source, if there is one, has an [object] message column. *)
Definition text_messages (self : ClipGenerator.t) : Prop :=
  forall chat_df, ClipGenerator.comment_analyzer self = Some chat_df -> text_column chat_df.

(** The patterns that [generate_candidates] hands to [re]: the reaction
    keywords (with [re.IGNORECASE]) when there are comments, the default
    topic keywords when there are subtitles. *)
Definition patterns_compile `{RegexEngine} (self : ClipGenerator.t)
    (reaction_keywords : option (list string)) : Prop :=
  (is_Some (ClipGenerator.comment_analyzer self) ->
   Forall (compiles true)
          (default ClipGenerator.default_reaction_keywords reaction_keywords)) /\
  (is_Some (ClipGenerator.subtitle_analyzer self) ->
   Forall (compiles false) SubtitleAnalyzer.default_topic_keywords).

(** The score lies between 0 and 1. *)
Definition score_ok (candidate : Merged.t) : Prop :=
  (0 <= Merged.score candidate <= 1)%Q.

(** The invariant of the merge loop: the candidates already closed are
    scored within bounds, the open one carries sound details. *)
Definition merge_state_ok (st : list Merged.t * Merged.t) : Prop :=
  Forall score_ok st.1 /\ Forall details_ok (Merged.all_details st.2).

(** The [i]-th bin edge. *)
Definition edge (lo bin_size_seconds : Z) (i : nat) : Z :=
  (lo + Z.of_nat i * bin_size_seconds)%Z.

(** [t] lies in the interval that [pd.cut] gives to the output row [row]:
    [(bin_start, bin_end]], and also [bin_start] itself for the first bin. *)
Definition in_bin (chat_df : list CommentRecord.t) (row : TimeBin.t) (t : Q) : bool :=
  (Qltb (inject_Z (TimeBin.bin_start row)) t && Qleb t (inject_Z (TimeBin.bin_end row)))
  || (Qeq_bool t (inject_Z (TimeBin.bin_start row))
      && (TimeBin.bin_start row =? Qfloor (CommentAnalyzer.min_time chat_df))%Z).

(** The placement that half-open bins [[start, end)] would give: [t] lies
    in a returned bin from its start on and before its end, the end of the
    last bin included. *)
Definition placed_half_open (binned_df : list TimeBin.t) (t : Q) : Prop :=
  exists row,
    In row binned_df /\
    (inject_Z (TimeBin.bin_start row) <= t)%Q /\
    ((t < inject_Z (TimeBin.bin_end row))%Q \/
     (t == inject_Z (TimeBin.bin_end row) /\ last binned_df = Some row)).

(** What a grouped table holds for key [k], and how often [k] occurs in a
    key column. *)
Fixpoint total (k : nat) (acc : list (nat * Z)) : Z :=
  match acc with
  | [] => 0
  | (k', c) :: acc' => ((if (k =? k')%nat then c else 0) + total k acc')%Z
  end.

Definition is_key (k : nat) (key : option nat) : bool :=
  match key with
  | Some k' => (k =? k')%nat
  | None => false
  end.

Definition count_key (k : nat) (keys : list (option nat)) : nat :=
  length (List.filter (is_key k) keys).

Definition key_lt (a b : nat * Z) : Prop := (a.1 < b.1)%nat.

(** [t] lies in the [k]-th interval of [pd.cut]. *)
Definition interval (lo bin_size_seconds : Z) (k : nat) (t : Q) : Prop :=
  (inject_Z (edge lo bin_size_seconds k) < t)%Q /\
  (t <= inject_Z (edge lo bin_size_seconds (S k)))%Q \/
  k = 0%nat /\ (t == inject_Z lo)%Q.

(** The sum of a count column. *)
Definition sum_counts (counts : list Z) : Z := foldr Z.add 0%Z counts.

(** Bins in time order, each ending no later than the next one starts. *)
Definition bin_before (a b : TimeBin.t) : Prop :=
  (TimeBin.bin_end a <= TimeBin.bin_start b)%Z.

(** ** Test data

    An engine whose patterns are literal texts, found anywhere in the
    subject; the one pattern it refuses is an unbalanced parenthesis.  The
    frames are those of the [__main__] blocks of the two analyzers. *)

Definition literal_search (pattern text : string) : bool :=
  match String.index 0 pattern text with
  | Some _ => true
  | None => false
  end.

Definition literal_engine : RegexEngine :=
  {| re_compile := fun _ pattern =>
       if String.eqb pattern "(" then None else Some (literal_search pattern) |}.

Definition comment (t : Q) (author message : string) : CommentRecord.t :=
  {| CommentRecord.timestamp_sec := t;
     CommentRecord.author := author;
     CommentRecord.message := Some message |}.

Definition test_chat : list CommentRecord.t :=
  [ comment 10 "User1" "草"; comment 15 "User2" "ww"; comment 20 "User1" "笑";
    comment 25 "User3" "草生える"; comment 100 "User1" "!?";
    comment 105 "User2" "すごい"; comment 110 "User1" "www" ].

Definition subtitle (start duration : Q) (text : string) : SubtitleRecord.t :=
  {| SubtitleRecord.start := start;
     SubtitleRecord.duration := duration;
     SubtitleRecord.end_ := start + duration;
     SubtitleRecord.text := text |}.

Definition test_subtitles : list SubtitleRecord.t :=
  [ subtitle 0 4 "こんにちは"; subtitle 5 4 "これからゲームを始めます";
    subtitle 10 4 "次はボス戦です"; subtitle 15 4 "すごい！";
    subtitle 25 4 "それでは終わります"; subtitle 30 4 "ありがとうございました" ].

Definition test_generator : ClipGenerator.t :=
  {| ClipGenerator.comment_analyzer := Some test_chat;
     ClipGenerator.subtitle_analyzer := Some test_subtitles |}.

Definition time_bin (bin_start bin_end count : Z) (bin_size_seconds : Z) : TimeBin.t :=
  {| TimeBin.bin_start := bin_start; TimeBin.bin_end := bin_end;
     TimeBin.count := count;
     TimeBin.comment_rate := inject_Z count / inject_Z bin_size_seconds |}.

(** Three comments, one of them on the interior edge 10 of 10-second bins;
    and one comment alone, on a whole second. *)
Definition boundary_chat : list CommentRecord.t :=
  [ comment 0 "User1" "a"; comment 10 "User2" "b"; comment 25 "User3" "c" ].

Definition single_chat : list CommentRecord.t := [ comment 10 "User1" "草" ].

(** A comment without a message. *)
Definition missing_message_chat : list CommentRecord.t :=
  test_chat ++
  [ {| CommentRecord.timestamp_sec := 120; CommentRecord.author := "User4";
       CommentRecord.message := None |} ].

(** A batch of one record, whose message is missing. *)
Definition nan_chat : list CommentRecord.t :=
  [ {| CommentRecord.timestamp_sec := 120; CommentRecord.author := "User4";
       CommentRecord.message := None |} ].

(** The two bins of the scenario of spec section 8, and four bins of which
    the first three are adjacent. *)
Definition scenario_bins : list TimeBin.t :=
  [ time_bin 0 30 4 30; time_bin 90 120 3 30 ].

Definition adjacent_bins : list TimeBin.t :=
  [ time_bin 0 10 5 10; time_bin 10 20 9 10; time_bin 20 30 7 10;
    time_bin 100 110 6 10 ].

Definition peak_of (row : TimeBin.t) : Peak.t :=
  {| Peak.time := TimeBin.bin_start row; Peak.time_end := TimeBin.bin_end row;
     Peak.count := TimeBin.count row; Peak.comment_rate := TimeBin.comment_rate row;
     Peak.percentile := 0 |}.

Definition bin_triples (binned_df : list TimeBin.t) : list (Z * Z * Z) :=
  map (fun b => (TimeBin.bin_start b, TimeBin.bin_end b, TimeBin.count b)) binned_df.

Definition test_heap : Store.heap :=
  {[ 1%positive := Store.Chat {| Store.chat_rows := test_chat; Store.bin := None |} ]}.

(** Eleven characters of [[a-zA-Z0-9_-]] and nothing else. *)
Definition valid_id (video_id : string) : Prop :=
  ChatFetcher.id_chars 11 video_id = Some (video_id, EmptyString).

(** Every character of [s] is one of [[a-zA-Z0-9_-]] or a newline. *)
Fixpoint id_text (s : string) : bool :=
  match s with
  | EmptyString => true
  | String c s' =>
      (ChatFetcher.is_id_char c || Ascii.eqb c (Ascii.ascii_of_nat 10)) && id_text s'
  end.

(** The literal that precedes the id in an address: that of the watch
    address, of the short address or of the live address. *)
Definition id_literals : list string :=
  ["youtube.com/watch?v="; "youtu.be/"; "youtube.com/live/"].

(** The clock reading of a whole number of seconds: hours only from one
    hour on, minutes and seconds within the hour. *)
Definition clock (t : Z) : string :=
  if (3600 <=? t)%Z then
    PyFloat.fmt (t / 3600) +:+ ":" +:+ PyFloat.fmt_02d (t mod 3600 / 60) +:+ ":"
    +:+ PyFloat.fmt_02d (t mod 60)
  else
    PyFloat.fmt (t mod 3600 / 60) +:+ ":" +:+ PyFloat.fmt_02d (t mod 60).

(** The rounding leaves the whole numbers up to [2^53] as they are, as
    that of double precision does. *)
Definition whole_exact `{FloatArith} : Prop :=
  forall (q : Q) (z : Z),
    (Z.abs z <= 2 ^ 53)%Z -> (q == inject_Z z)%Q -> (fround q == inject_Z z)%Q.

(** The entries of a subtitle file, an entry with all three keys, and the
    entry a row of the frame was read from. *)
Definition entries (subtitle_data : SubtitleData.t) : list RawSubtitle.t :=
  default [] (SubtitleData.subtitles subtitle_data).

Definition complete (sub : RawSubtitle.t) : bool :=
  match RawSubtitle.start sub, RawSubtitle.duration sub, RawSubtitle.text sub with
  | Some _, Some _, Some _ => true
  | _, _, _ => false
  end.

Definition entry_of (row : SubtitleRecord.t) : RawSubtitle.t :=
  {| RawSubtitle.start := Some (SubtitleRecord.start row);
     RawSubtitle.duration := Some (SubtitleRecord.duration row);
     RawSubtitle.text := Some (SubtitleRecord.text row) |}.

Definition test_subtitle_data : SubtitleData.t :=
  {| SubtitleData.subtitles := Some
       [ {| RawSubtitle.start := Some 12%Q; RawSubtitle.duration := Some 3%Q;
            RawSubtitle.text := Some "second" |};
         {| RawSubtitle.start := Some 0%Q; RawSubtitle.duration := Some 5%Q;
            RawSubtitle.text := Some "first" |};
         {| RawSubtitle.start := Some 4%Q; RawSubtitle.duration := Some 2%Q;
            RawSubtitle.text := Some "overlapping" |} ] |}.

Definition test_subtitle_frame : list SubtitleRecord.t :=
  [ {| SubtitleRecord.start := 0; SubtitleRecord.duration := 5%Q;
       SubtitleRecord.end_ := 0 + 5; SubtitleRecord.text := "first" |};
    {| SubtitleRecord.start := 4; SubtitleRecord.duration := 2%Q;
       SubtitleRecord.end_ := 4 + 2; SubtitleRecord.text := "overlapping" |};
    {| SubtitleRecord.start := 12; SubtitleRecord.duration := 3%Q;
       SubtitleRecord.end_ := 12 + 3; SubtitleRecord.text := "second" |} ].

(** Neighbours in a list are related by [R]. *)
Definition consecutive {A} (R : A -> A -> Prop) (l : list A) : Prop :=
  forall (i : nat) (a b : A), l !! i = Some a -> l !! S i = Some b -> R a b.

(** The group [g2] opens more than [min_gap_seconds] after the end of the
    last row of [g1]. *)
Definition apart (min_gap_seconds : Z) (g1 g2 : list TimeBin.t) : Prop :=
  forall l f, last g1 = Some l -> head g2 = Some f ->
    (min_gap_seconds < TimeBin.bin_start f - TimeBin.bin_end l)%Z.

(** Bins in time order that do not overlap and do not end before they
    start: what [bin_comments_by_time] returns. *)
Definition bins_in_order (binned_df : list TimeBin.t) : Prop :=
  StronglySorted bin_before binned_df /\
  Forall (fun b => (TimeBin.bin_start b <= TimeBin.bin_end b)%Z) binned_df.

(** What holds of the segment at position [i] of the list that
    [segment_by_silence] returns; the duration is the float difference of
    the two ends. *)
Definition segment_ok `{FloatArith} (subtitle_df : list SubtitleRecord.t)
    (min_segment_duration : Q) (i : nat) (s : Segment.t) : Prop :=
  Segment.segment_id s = i /\
  Segment.duration s = fsub (Segment.end_ s) (Segment.start s) /\
  (min_segment_duration <= Segment.duration s)%Q /\
  (1 <= Segment.subtitle_count s)%nat /\
  exists first final,
    In first subtitle_df /\ In final subtitle_df /\
    Segment.start s = SubtitleRecord.start first /\
    Segment.end_ s = SubtitleRecord.end_ final.

Definition segments_ok `{FloatArith} (subtitle_df : list SubtitleRecord.t) (min_segment_duration : Q)
    (segments : list Segment.t) : Prop :=
  forall i s, segments !! i = Some s -> segment_ok subtitle_df min_segment_duration i s.

(** The subtitles counted by a list of segments. *)
Definition subtitles_counted (segments : list Segment.t) : nat :=
  sum_list_with Segment.subtitle_count segments.

(** The invariant of the loop of [segment_by_silence] before row [i]. *)
Definition segment_inv `{FloatArith} (subtitle_df : list SubtitleRecord.t) (min_segment_duration : Q)
    (st : SubtitleAnalyzer.seg_state) (i : nat) : Prop :=
  segments_ok subtitle_df min_segment_duration (SubtitleAnalyzer.segments st) /\
  (exists first, In first subtitle_df /\
                 SubtitleAnalyzer.segment_start st = SubtitleRecord.start first) /\
  (subtitles_counted (SubtitleAnalyzer.segments st)
   + (if (i <? length subtitle_df)%nat
      then length (SubtitleAnalyzer.current_segment_subs st) else 0)
   <= i)%nat.

(** [keyword] is the first of [keywords] that is found in [text]: the
    keywords before it compile and are not found. *)
Definition first_found `{RegexEngine} (keywords : list string) (text keyword : string)
  : Prop :=
  exists pre post search,
    keywords = pre ++ keyword :: post /\
    re_compile false keyword = Some search /\ search text = true /\
    Forall (fun k => exists s, re_compile false k = Some s /\ s text = false) pre.

(** A subtitle as [parse_subtitle_to_dataframe] builds it in double
    precision: [start] is the float nearest to the number given and [end]
    the float sum [start + duration]. *)
Definition float_subtitle (start duration : Q) (text : string) : SubtitleRecord.t :=
  {| SubtitleRecord.start := Binary64.round start;
     SubtitleRecord.duration := Binary64.round duration;
     SubtitleRecord.end_ :=
       @fadd Binary64.arith (Binary64.round start) (Binary64.round duration);
     SubtitleRecord.text := text |}.

(** A subtitle that ends at 0.13 and one that starts at 2.13: the exact
    distance of the two floats is [2 - 2^-53]. *)
Definition near_gap_subtitles : list SubtitleRecord.t :=
  [ float_subtitle 0 0.13 "a"; float_subtitle 2.13 40 "b" ].

(** One subtitle from 0.02 to 30.02, exactly [30 - 2^-49] long, and one
    from 0.03 to 180.03, exactly [180 + 2^-47] long. *)
Definition near_min_subtitles : list SubtitleRecord.t := [ float_subtitle 0.02 30 "c" ].
Definition near_max_subtitles : list SubtitleRecord.t := [ float_subtitle 0.03 180 "d" ].

(** A candidate of the merge pass has as many details as reasons, and at
    least one. *)
Definition booked (c : Merged.t) : Prop :=
  Merged.reasons c <> [] /\
  length (Merged.reasons c) = length (Merged.all_details c).

(** What holds of a candidate that the merge pass returns; its length is
    the float difference [end - start] that the filter tests. *)
Definition merged_ok `{FloatArith} (min_duration max_duration : Q) (c : Merged.t) : Prop :=
  (min_duration <= fsub (Merged.end_ c) (Merged.start c) <= max_duration)%Q /\
  Merged.score c = ClipGenerator._calculate_score c /\
  booked c.

(** The invariant of the merge loop for the bookkeeping. *)
Definition merge_state_booked (st : list Merged.t * Merged.t) : Prop :=
  Forall (fun c => Merged.score c = ClipGenerator._calculate_score c /\ booked c) st.1 /\
  booked st.2.

(** The window that [_generate_from_comment_peaks] opens around a peak of
    10-second bins. *)
Definition peak_window (min_duration max_duration : Q) (c : Candidate.t) : Prop :=
  exists peak_count peak_time,
    Candidate.details c = PeakDetails peak_count peak_time /\
    (0 < peak_count)%Z /\
    Candidate.start c = Py.max 0 (inject_Z peak_time - 15) /\
    ((inject_Z peak_time <= 15 /\ Candidate.start c == 0) \/
     (15 < inject_Z peak_time /\ Candidate.start c == inject_Z peak_time - 15))%Q /\
    (Candidate.end_ c == inject_Z peak_time + 40)%Q /\
    (Candidate.end_ c - Candidate.start c <= 55)%Q /\
    (min_duration <= Candidate.end_ c - Candidate.start c <= max_duration)%Q.

(** The number of comments of [chat_df] written by [author]. *)
Definition comments_by (chat_df : list CommentRecord.t) (author : string) : Z :=
  Z.of_nat (length (List.filter (fun c => String.eqb (CommentRecord.author c) author)
                                chat_df)).

(** How often [value] occurs in a list, and what a table of counts holds
    for it. *)
Definition occurrences (value : string) (values : list string) : Z :=
  Z.of_nat (length (List.filter (fun v => String.eqb v value) values)).

Fixpoint tally_of (value : string) (counts : list (string * Z)) : Z :=
  match counts with
  | [] => 0
  | (v, c) :: counts' => ((if String.eqb v value then c else 0) + tally_of value counts')%Z
  end.

(** * Properties *)

(** ** Comparisons, [min], [max], loops *)

Lemma Qleb_le (x y : Q) : Qleb x y = true <-> (x <= y)%Q.
Proof. apply Qle_bool_iff. Qed.

Lemma Qleb_gt (x y : Q) : Qleb x y = false <-> (y < x)%Q.
Proof.
  unfold Qleb. split; intros Hxy.
  - apply Qnot_le_lt. intros Hle. apply Qle_bool_iff in Hle. congruence.
  - destruct (Qle_bool x y) eqn:E; [|done].
    apply Qle_bool_iff in E. lra.
Qed.

Lemma Qltb_lt (x y : Q) : Qltb x y = true <-> (x < y)%Q.
Proof. unfold Qltb. rewrite negb_true_iff. apply Qleb_gt. Qed.

Lemma Qltb_ge (x y : Q) : Qltb x y = false <-> (y <= x)%Q.
Proof. unfold Qltb. rewrite negb_false_iff. apply Qleb_le. Qed.

Ltac Qcases :=
  repeat match goal with
  | H : Qleb _ _ = true |- _ => apply Qleb_le in H
  | H : Qleb _ _ = false |- _ => apply Qleb_gt in H
  | H : Qltb _ _ = true |- _ => apply Qltb_lt in H
  | H : Qltb _ _ = false |- _ => apply Qltb_ge in H
  | H : Qeq_bool _ _ = true |- _ => apply Qeq_bool_iff in H
  | H : Qeq_bool _ _ = false |- _ => apply Qeq_bool_neq in H
  end.

Lemma min_spec (a b : Q) :
  ((b < a)%Q /\ Py.min a b = b) \/ ((a <= b)%Q /\ Py.min a b = a).
Proof. unfold Py.min. destruct (Qltb b a) eqn:E; Qcases; auto. Qed.

Lemma max_spec (a b : Q) :
  ((a < b)%Q /\ Py.max a b = b) \/ ((b <= a)%Q /\ Py.max a b = a).
Proof. unfold Py.max. destruct (Qltb a b) eqn:E; Qcases; auto. Qed.

Lemma bind_Ok {A B} (m : result A) (f : A -> result B) (b : B) :
  m ≫= f = Ok b <-> exists a, m = Ok a /\ f a = Ok b.
Proof.
  destruct m as [a|e]; cbn.
  - split; [eauto|]. by intros (a' & [= ->] & ?).
  - split; [done|]. by intros (? & ? & ?).
Qed.

Lemma for_each_Ok {A B} (f : A -> result B) (l : list A) (out : list B) :
  for_each f l = Ok out <-> Forall2 (fun x y => f x = Ok y) l out.
Proof.
  revert out. induction l as [|x l IH]; intros out; cbn.
  - split; [intros [= <-]; constructor | by inversion 1].
  - rewrite bind_Ok. split.
    + intros (y & Hy & Hrest). apply bind_Ok in Hrest as (ys & Hys & [= <-]).
      constructor; [done|]. by apply IH.
    + inversion 1 as [|? y ? ys Hy Hys]; subst. exists y. split; [done|].
      apply IH in Hys. by rewrite Hys.
Qed.

Lemma for_each_returns {A B} (f : A -> result B) (l : list A) :
  Forall (fun x => returns (f x)) l -> returns (for_each f l).
Proof.
  induction 1 as [|x l [y Hy] _ [ys Hys]]; cbn; [by eexists|].
  rewrite Hy; cbn. rewrite Hys; cbn. by eexists.
Qed.

Lemma for_each_app {A B} (f : A -> result B) (l1 l2 : list A) :
  for_each f (l1 ++ l2) =
  ys1 ← for_each f l1; ys2 ← for_each f l2; Ok (ys1 ++ ys2).
Proof.
  induction l1 as [|x l1 IH]; cbn.
  - by destruct (for_each f l2).
  - destruct (f x) as [y|e]; cbn; [|done]. rewrite IH.
    destruct (for_each f l1) as [ys1|e]; cbn; [|done].
    by destruct (for_each f l2).
Qed.

Lemma insert_by_Permutation {A} (leb : A -> A -> bool) (x : A) (l : list A) :
  insert_by leb x l ≡ₚ x :: l.
Proof.
  induction l as [|y l IH]; cbn; [done|].
  destruct (leb x y); [done|]. rewrite IH. apply Permutation_swap.
Qed.

Lemma sort_by_Permutation {A} (leb : A -> A -> bool) (l : list A) :
  sort_by leb l ≡ₚ l.
Proof.
  induction l as [|x l IH]; cbn; [done|].
  rewrite insert_by_Permutation. by rewrite IH.
Qed.

Lemma sort_by_Forall {A} (P : A -> Prop) (leb : A -> A -> bool) (l : list A) :
  Forall P l -> Forall P (sort_by leb l).
Proof. intros Hl. by rewrite sort_by_Permutation. Qed.

Lemma sort_by_In {A} (leb : A -> A -> bool) (l : list A) (x : A) :
  In x (sort_by leb l) <-> In x l.
Proof. rewrite <- !list_elem_of_In. by rewrite sort_by_Permutation. Qed.

(** ** Peak groups *)

Section peak_groups.
Import CommentAnalyzer.

Lemma max_by_count_foldl (rest : list TimeBin.t) (best : TimeBin.t) :
  let pick := fun best x => if (TimeBin.count best <? TimeBin.count x)%Z then x else best in
  let r := foldl pick best rest in
  (r = best \/ In r rest) /\
  (TimeBin.count best <= TimeBin.count r)%Z /\
  (forall x, In x rest -> (TimeBin.count x <= TimeBin.count r)%Z).
Proof.
  cbn. revert best. induction rest as [|y rest IH]; intros best; cbn.
  - split; [by left|]. split; [lia|]. by intros ? [].
  - destruct (Z.ltb_spec (TimeBin.count best) (TimeBin.count y)) as [Hlt|Hge].
    + destruct (IH y) as (Hin & Hy & Hrest).
      split; [destruct Hin; auto|]. split; [lia|].
      intros x [<-|Hx]; auto.
    + destruct (IH best) as (Hin & Hbest & Hrest).
      split; [destruct Hin; auto|]. split; [done|].
      intros x [<-|Hx]; [lia|auto].
Qed.

Lemma _merge_peak_group_representative (group : list TimeBin.t) :
  group <> [] ->
  exists peak, _merge_peak_group group = Ok peak /\ representative group peak.
Proof.
  destruct group as [|r rest]; [done|]. intros _.
  unfold _merge_peak_group, max_by_count. cbn.
  eexists. split; [done|].
  destruct (max_by_count_foldl rest r) as (Hin & Hr & Hrest).
  eexists. split; [|split; [|done]].
  - destruct Hin as [->|Hin]; [by left|by right].
  - intros x [<-|Hx]; auto.
Qed.

Context {A : Type} (close : list TimeBin.t -> result A) (min_gap_seconds : Z).

(** Closing a group as it is never fails, and keeps the groups closed so
    far. *)
Lemma peak_step_Ok_prefix (rows : list TimeBin.t) (gs : list (list TimeBin.t))
    (g : list TimeBin.t) :
  exists more g',
    for_loop (peak_step Ok min_gap_seconds) (gs, g) rows = Ok (gs ++ more, g').
Proof.
  revert gs g. induction rows as [|row rows IH]; intros gs g; cbn.
  - exists [], g. by rewrite app_nil_r.
  - destruct (last g) as [prev|]; [|apply IH].
    destruct (_ <=? _)%Z; [apply IH|]. cbn.
    destruct (IH (gs ++ [g]) [row]) as (more & g' & ->).
    exists (g :: more), g'. by rewrite <- app_assoc.
Qed.

Lemma for_each_app_Raise {B C} (f : B -> result C) (l1 l2 : list B) (e : exn) :
  for_each f l1 = Raise e -> for_each f (l1 ++ l2) = Raise e.
Proof. intros Hl1. by rewrite for_each_app, Hl1. Qed.

Lemma peak_step_factor (rows : list TimeBin.t) (gs : list (list TimeBin.t))
    (merged : list A) (g : list TimeBin.t) :
  for_each close gs = Ok merged ->
  for_loop (peak_step close min_gap_seconds) (merged, g) rows ≫= finish close =
  (for_loop (peak_step Ok min_gap_seconds) (gs, g) rows ≫= finish Ok) ≫= for_each close.
Proof.
  revert gs merged g. induction rows as [|row rows IH]; intros gs merged g Hgs; cbn.
  - unfold finish; cbn. destruct g as [|r g]; cbn; [done|].
    rewrite for_each_app, Hgs. cbn. by destruct (close (r :: g)).
  - destruct (last g) as [prev|] eqn:Hlast; [|by apply IH].
    destruct (_ <=? _)%Z; [by apply IH|]. cbn.
    destruct (close g) as [p|e] eqn:Hclose; cbn.
    + apply IH. rewrite for_each_app, Hgs. cbn. by rewrite Hclose.
    + destruct (peak_step_Ok_prefix rows (gs ++ [g]) [row]) as (more & g' & ->).
      cbn. unfold finish; cbn.
      assert (for_each close (gs ++ [g]) = Raise e) as Hraise.
      { rewrite for_each_app, Hgs. cbn. by rewrite Hclose. }
      destruct g' as [|r g']; cbn.
      * symmetry. by apply for_each_app_Raise.
      * symmetry. rewrite <- app_assoc. by apply for_each_app_Raise.
Qed.

Lemma peak_loop_factor (rows : list TimeBin.t) :
  peak_loop close min_gap_seconds rows =
  peak_loop Ok min_gap_seconds rows ≫= for_each close.
Proof. unfold peak_loop. by apply (peak_step_factor rows [] []). Qed.

Lemma peak_step_nonempty (rows : list TimeBin.t) (gs : list (list TimeBin.t))
    (g : list TimeBin.t) (out : list (list TimeBin.t)) :
  Forall (fun g => g <> []) gs ->
  for_loop (peak_step Ok min_gap_seconds) (gs, g) rows ≫= finish Ok = Ok out ->
  Forall (fun g => g <> []) out.
Proof.
  revert gs g. induction rows as [|row rows IH]; intros gs g Hgs; cbn.
  - unfold finish; cbn. destruct g; cbn; intros [= <-]; [done|].
    apply Forall_app. split; [done|]. by constructor.
  - destruct (last g) as [prev|] eqn:Hlast; [|by apply IH].
    destruct (_ <=? _)%Z; [by apply IH|]. cbn.
    apply IH, Forall_app. split; [done|]. constructor; [|done].
    intros ->. done.
Qed.

Lemma peak_loop_nonempty (rows : list TimeBin.t) (out : list (list TimeBin.t)) :
  peak_loop Ok min_gap_seconds rows = Ok out -> Forall (fun g => g <> []) out.
Proof. apply (peak_step_nonempty rows [] []). constructor. Qed.
End peak_groups.

Lemma find_peaks_factor (binned_df : list TimeBin.t) (threshold_percentile : Q)
    (min_gap_seconds : Z) :
  CommentAnalyzer.find_peaks binned_df threshold_percentile min_gap_seconds =
  peak_groups binned_df threshold_percentile min_gap_seconds
    ≫= for_each CommentAnalyzer._merge_peak_group.
Proof.
  unfold CommentAnalyzer.find_peaks, peak_groups.
  destruct binned_df as [|b binned_df]; [done|].
  destruct (CommentAnalyzer.peak_rows _ _) as [[|r rows]|e]; [done| |done].
  apply (peak_loop_factor CommentAnalyzer._merge_peak_group min_gap_seconds (r :: rows)).
Qed.

Lemma peak_groups_nonempty (binned_df : list TimeBin.t) (threshold_percentile : Q)
    (min_gap_seconds : Z) (groups : list (list TimeBin.t)) :
  peak_groups binned_df threshold_percentile min_gap_seconds = Ok groups ->
  Forall (fun g => g <> []) groups.
Proof.
  unfold peak_groups. destruct binned_df as [|b binned_df]; [by intros [= <-]|].
  destruct (CommentAnalyzer.peak_rows _ _) as [[|r rows]|e];
    [by intros [= <-]| |done].
  apply (peak_loop_nonempty min_gap_seconds (r :: rows)).
Qed.

(** C6.  Every group of adjacent above-threshold bins that [find_peaks]
    closes yields one peak, and that peak's start, end, count and rate are
    those of a single member of the group whose count is the greatest in the
    group; the group's span plays no part. *)
Theorem find_peaks_representative (binned_df : list TimeBin.t)
    (threshold_percentile : Q) (min_gap_seconds : Z)
    (groups : list (list TimeBin.t)) :
  peak_groups binned_df threshold_percentile min_gap_seconds = Ok groups ->
  exists peaks,
    CommentAnalyzer.find_peaks binned_df threshold_percentile min_gap_seconds = Ok peaks /\
    Forall2 representative groups peaks.
Proof.
  intros Hgroups. rewrite find_peaks_factor, Hgroups. cbn.
  apply peak_groups_nonempty in Hgroups.
  induction Hgroups as [|g groups Hg _ (peaks & Hpeaks & Hrep)]; cbn.
  - exists []. by split.
  - destruct (_merge_peak_group_representative g Hg) as (peak & -> & Hpeak). cbn.
    rewrite Hpeaks. cbn. exists (peak :: peaks). split; [done|]. by constructor.
Qed.

(** ** Segments of a stream without silences *)

Section no_silence.
Context `{FloatArith}.
Import SubtitleAnalyzer.

Lemma no_silence_tail (g : Q) (a : SubtitleRecord.t) (df : list SubtitleRecord.t) :
  no_silence g (a :: df) -> no_silence g df.
Proof. intros Hdf i x y Hx Hy. by apply (Hdf (S i)). Qed.

Lemma adjacent_gaps_cons (g : Q) (a b : SubtitleRecord.t) (df : list SubtitleRecord.t) :
  adjacent_gaps g (a :: b :: df) =
  (if Qleb g (fsub (SubtitleRecord.start b) (SubtitleRecord.end_ a))
   then [ {| Gap.gap_start := SubtitleRecord.end_ a;
             Gap.gap_end := SubtitleRecord.start b;
             Gap.gap_duration := fsub (SubtitleRecord.start b) (SubtitleRecord.end_ a) |} ]
   else [])
  ++ adjacent_gaps g (b :: df).
Proof. done. Qed.

Lemma adjacent_gaps_no_silence (g : Q) (df : list SubtitleRecord.t) :
  no_silence g df -> adjacent_gaps g df = [].
Proof.
  induction df as [|a df IH]; [done|]. intros Hdf.
  destruct df as [|b df]; [done|].
  rewrite adjacent_gaps_cons, (IH (no_silence_tail _ _ _ Hdf)), app_nil_r.
  specialize (Hdf 0%nat a b eq_refl eq_refl).
  apply Qleb_gt in Hdf. by rewrite Hdf.
Qed.

Lemma detect_silence_gaps_no_silence (g : Q) (df : list SubtitleRecord.t) :
  no_silence g df -> detect_silence_gaps df g = [].
Proof.
  intros Hdf. unfold detect_silence_gaps.
  destruct (_ <? _)%nat; [done|]. by apply adjacent_gaps_no_silence.
Qed.

(** Without gaps the loop only closes a segment at the last row. *)
Lemma segment_loop_no_gaps (df : list SubtitleRecord.t) (d : Q)
    (rows : list SubtitleRecord.t) (i : nat) (st : seg_state)
    (final : SubtitleRecord.t) :
  (i + length rows = length df)%nat ->
  last rows = Some final ->
  segments st = [] ->
  segment_loop df [] d st i rows =
  Ok {| segments :=
          if Qleb d (fsub (SubtitleRecord.end_ final) (segment_start st)) then
            [ {| Segment.segment_id := 0;
                 Segment.start := segment_start st;
                 Segment.end_ := SubtitleRecord.end_ final;
                 Segment.duration := fsub (SubtitleRecord.end_ final) (segment_start st);
                 Segment.subtitle_count := length (current_segment_subs st ++ rows);
                 Segment.text :=
                   String.concat " "
                     (map SubtitleRecord.text (current_segment_subs st ++ rows)) |} ]
          else [];
        segment_start := segment_start st;
        current_segment_subs := current_segment_subs st ++ rows |}.
Proof.
  revert i st. induction rows as [|row rows IH]; intros i st Hlen Hlast Hsegs; [done|].
  cbn [segment_loop]. unfold segment_step. cbn [existsb orb].
  destruct rows as [|row' rows].
  - cbn in Hlen, Hlast. injection Hlast as <-.
    replace (i =? length df - 1)%nat with true by (symmetry; apply Nat.eqb_eq; lia).
    replace (i <? length df - 1)%nat with false by (symmetry; apply Nat.ltb_ge; lia).
    rewrite Hsegs. cbn. by destruct (Qleb d _).
  - cbn [length] in Hlen.
    replace (i =? length df - 1)%nat with false by (symmetry; apply Nat.eqb_neq; lia).
    cbn [mbind result_bind].
    rewrite (IH (S i) _); cbn [segments segment_start current_segment_subs length];
      [|lia|by rewrite last_cons_cons in Hlast|done].
    by rewrite <- app_assoc.
Qed.
End no_silence.

(** C7.  On a non-empty subtitle stream in which no adjacent pair is
    [min_gap_seconds] or more apart, [segment_by_silence] returns exactly
    one segment, from the first subtitle's start to the last subtitle's end,
    when that span lasts at least [min_segment_duration], and no segment
    otherwise.  Gaps and the span's duration are the float differences
    [next.start - current.end] and [last.end - first.start] as the code
    computes them, whatever the rounding of the floats. *)
Theorem segment_by_silence_no_silence `{FloatArith} (subtitle_df : list SubtitleRecord.t)
    (min_gap_seconds min_segment_duration : Q) (first final : SubtitleRecord.t) :
  head subtitle_df = Some first ->
  last subtitle_df = Some final ->
  no_silence min_gap_seconds subtitle_df ->
  SubtitleAnalyzer.segment_by_silence subtitle_df min_gap_seconds min_segment_duration =
  Ok (if Qleb min_segment_duration
              (fsub (SubtitleRecord.end_ final) (SubtitleRecord.start first))
      then [whole_segment subtitle_df first final]
      else []).
Proof.
  intros Hfirst Hfinal Hdf. unfold SubtitleAnalyzer.segment_by_silence.
  destruct subtitle_df as [|r df]; [done|]. injection Hfirst as ->.
  rewrite (detect_silence_gaps_no_silence _ _ Hdf).
  by rewrite (segment_loop_no_gaps _ _ _ _ _ final).
Qed.

(** ** Keyword counting and missing messages *)

Section missing_messages.
Context `{RegexEngine}.
Import CommentAnalyzer.

Lemma compile_returns (ignorecase : bool) (pattern : string) :
  compiles ignorecase pattern -> returns (Py.compile ignorecase pattern).
Proof. intros [search Hs]. unfold Py.compile. rewrite Hs. by eexists. Qed.

Lemma filter_str_contains (search : string -> bool) (chat_df : list CommentRecord.t) :
  List.filter (fun r => str_contains search (CommentRecord.message r))
              (List.filter has_message chat_df) =
  List.filter (fun r => str_contains search (CommentRecord.message r)) chat_df.
Proof.
  induction chat_df as [|r chat_df IH]; [done|]. cbn. unfold has_message at 1.
  destruct (CommentRecord.message r) as [m|] eqn:Hm; cbn; rewrite ?Hm; cbn; by rewrite IH.
Qed.

Lemma keyword_matches_has_message (chat_df : list CommentRecord.t)
    (case_sensitive : bool) (keyword : string) :
  keyword_matches (List.filter has_message chat_df) case_sensitive keyword =
  keyword_matches chat_df case_sensitive keyword.
Proof.
  unfold keyword_matches. destruct (Py.compile _ _) as [search|e]; [|done].
  cbn. by rewrite filter_str_contains.
Qed.

Lemma keyword_matches_message (chat_df : list CommentRecord.t)
    (case_sensitive : bool) (keyword : string) (hits : list KeywordHit.t) :
  keyword_matches chat_df case_sensitive keyword = Ok hits ->
  Forall (fun h => KeywordHit.message h <> None) hits.
Proof.
  unfold keyword_matches. destruct (Py.compile _ _) as [search|e]; [|done].
  cbn. intros [= <-]. apply Forall_forall. intros h Hin.
  apply list_elem_of_In, in_map_iff in Hin as (r & <- & Hr).
  apply filter_In in Hr as [_ Hr]. cbn. by destruct (CommentRecord.message r).
Qed.

Lemma keyword_matches_nil (case_sensitive : bool) (keyword : string) :
  compiles (negb case_sensitive) keyword ->
  keyword_matches [] case_sensitive keyword = Ok [].
Proof.
  intros Hk. unfold keyword_matches.
  by destruct (compile_returns _ _ Hk) as [search ->].
Qed.

Lemma count_all_nil (keywords : list string) (case_sensitive : bool) :
  Forall (compiles (negb case_sensitive)) keywords ->
  count_all [] keywords case_sensitive = Ok [].
Proof.
  unfold count_all. induction 1 as [|k keywords Hk _ IH]; [done|].
  cbn [for_each]. rewrite keyword_matches_nil by done. cbn.
  destruct (for_each _ keywords) as [results|e]; cbn in *; [exact IH|discriminate IH].
Qed.

Lemma count_keywords_count_all (chat_df : list CommentRecord.t)
    (keywords : list string) (case_sensitive : bool) :
  Forall (compiles (negb case_sensitive)) keywords ->
  count_keywords chat_df keywords case_sensitive =
  count_all chat_df keywords case_sensitive.
Proof.
  intros Hk. destruct chat_df; [|done]. by rewrite count_all_nil.
Qed.

Lemma count_all_returns (chat_df : list CommentRecord.t) (keywords : list string)
    (case_sensitive : bool) :
  Forall (compiles (negb case_sensitive)) keywords ->
  returns (count_all chat_df keywords case_sensitive).
Proof.
  intros Hk. unfold count_all.
  destruct (for_each_returns (keyword_matches chat_df case_sensitive) keywords)
    as [results ->]; [|by eexists].
  eapply Forall_impl; [exact Hk|]. intros k Hc. unfold keyword_matches.
  destruct (compile_returns _ _ Hc) as [search ->]. by eexists.
Qed.

Lemma count_keywords_returns (chat_df : list CommentRecord.t) (keywords : list string)
    (case_sensitive : bool) :
  Forall (compiles (negb case_sensitive)) keywords ->
  returns (count_keywords chat_df keywords case_sensitive).
Proof.
  intros Hk. rewrite count_keywords_count_all by done. by apply count_all_returns.
Qed.

Lemma count_keywords_message (chat_df : list CommentRecord.t) (keywords : list string)
    (case_sensitive : bool) (hits : list KeywordHit.t) :
  count_keywords chat_df keywords case_sensitive = Ok hits ->
  Forall (fun h => KeywordHit.message h <> None) hits.
Proof.
  destruct chat_df as [|r chat_df]; [by intros [= <-]|].
  unfold count_keywords. intros Hhits.
  apply bind_Ok in Hhits as (results & Hresults & [= <-]).
  apply for_each_Ok in Hresults. apply Forall_concat.
  induction Hresults as [|k hs ks hss Hk _ IH]; constructor; [|done].
  by eapply keyword_matches_message.
Qed.
End missing_messages.

Lemma count_keywords_on_object `{RegexEngine} (chat_df : list CommentRecord.t)
    (keywords : list string) (case_sensitive : bool) :
  CommentAnalyzer.count_keywords_on CommentAnalyzer.object_ chat_df keywords case_sensitive
  = CommentAnalyzer.count_keywords chat_df keywords case_sensitive.
Proof.
  unfold CommentAnalyzer.count_keywords_on, CommentAnalyzer.count_keywords.
  destruct chat_df as [|r chat_df]; reflexivity.
Qed.

Lemma text_column_filter (chat_df : list CommentRecord.t) :
  text_column chat_df -> chat_df <> [] -> List.filter has_message chat_df <> [].
Proof.
  unfold text_column, CommentAnalyzer.message_dtype.
  destruct chat_df as [|r chat_df]; [done|]. intros Hcol _.
  destruct (existsb _ (r :: chat_df)) eqn:Hex; [|done].
  apply existsb_exists in Hex as (x & Hx & Hm). intros Hnil.
  assert (In x (List.filter has_message (r :: chat_df))) as Hin
    by (apply filter_In; by split).
  by rewrite Hnil in Hin.
Qed.

(** X28.  On a frame whose message column holds a text, the comments whose
    message is missing change nothing, whatever the keywords are:
    [count_keywords] gives what it gives on the frame without them, the same
    table or the same error; no row of a table comes from such a comment;
    and with keywords that compile a table is returned. *)
Theorem count_keywords_skips_missing_messages `{RegexEngine}
    (chat_df : list CommentRecord.t) (keywords : list string) (case_sensitive : bool) :
  text_column chat_df ->
  CommentAnalyzer.count_keywords_on (CommentAnalyzer.message_dtype chat_df) chat_df
    keywords case_sensitive
  = CommentAnalyzer.count_keywords (List.filter has_message chat_df) keywords case_sensitive /\
  (forall hits,
     CommentAnalyzer.count_keywords_on (CommentAnalyzer.message_dtype chat_df) chat_df
       keywords case_sensitive = Ok hits ->
     Forall (fun h => KeywordHit.message h <> None) hits) /\
  (Forall (compiles (negb case_sensitive)) keywords ->
   returns (CommentAnalyzer.count_keywords_on (CommentAnalyzer.message_dtype chat_df)
              chat_df keywords case_sensitive)).
Proof.
  intros Hcol. rewrite Hcol, count_keywords_on_object.
  split; [|split].
  - pose proof (text_column_filter chat_df Hcol) as Hne.
    unfold CommentAnalyzer.count_keywords.
    destruct chat_df as [|r rest] eqn:Hdf; [done|]. rewrite <- Hdf in *.
    destruct (List.filter has_message chat_df) as [|r' rows] eqn:Hrows;
      [destruct Hne; [by rewrite Hdf|done]|].
    rewrite <- Hrows. f_equal.
    clear. induction keywords as [|k keywords IH]; [done|]. cbn.
    by rewrite keyword_matches_has_message, IH.
  - intros hits Hhits. by eapply count_keywords_message.
  - intros Hk. by apply count_keywords_returns.
Qed.

(** ** The caller's frame *)

Section caller_frame.
Import Store.

Lemma copy_spec (h : heap) (df : loc) (frame : Frame) :
  h !! df = Some frame ->
  exists l, copy h df = Some (<[l := frame]> h, l) /\ h !! l = None.
Proof.
  intros Hdf. unfold copy. rewrite Hdf. eexists. split; [done|].
  apply not_elem_of_dom, is_fresh.
Qed.

Lemma comment_effect_other (self : comment_analyzer) (c : comment_call) (h : heap)
    (l : loc) :
  l <> chat_df self -> comment_effect self c h !! l = h !! l.
Proof.
  intros Hl. destruct c; cbn; try done.
  unfold bin_comments_by_time.
  destruct (h !! chat_df self) as [[df|df]|]; cbn; try done.
  destruct (chat_rows df); [done|].
  destruct (CommentAnalyzer.binning_error _ _); [done|].
  by apply lookup_insert_ne.
Qed.

Lemma comment_run_other (self : comment_analyzer) (calls : list comment_call)
    (h : heap) (l : loc) :
  l <> chat_df self -> comment_run self calls h !! l = h !! l.
Proof.
  intros Hl. revert h. unfold comment_run.
  induction calls as [|c calls IH]; intros h; cbn; [done|].
  by rewrite IH, comment_effect_other.
Qed.

Lemma subtitle_run_id (self : subtitle_analyzer) (calls : list subtitle_call)
    (h : heap) :
  subtitle_run self calls h = h.
Proof.
  revert h. unfold subtitle_run.
  induction calls as [|c calls IH]; intros h; cbn; [done|].
  rewrite IH. by destruct c.
Qed.
End caller_frame.

(** C9.  The constructors of [CommentAnalyzer] and [SubtitleAnalyzer] keep a
    copy of the frame they are given: whatever methods are then called on
    the analyzer, [bin_comments_by_time] with its ['bin'] column included,
    the caller's frame object holds what it held before. *)
Theorem analyzers_leave_caller_frame (h : Store.heap) (df : Store.loc)
    (frame : Store.Frame) :
  h !! df = Some frame ->
  (exists h1 analyzer,
      Store.CommentAnalyzer_init h df = Some (h1, analyzer) /\
      forall calls, Store.comment_run analyzer calls h1 !! df = Some frame) /\
  (exists h1 analyzer,
      Store.SubtitleAnalyzer_init h df = Some (h1, analyzer) /\
      forall calls, Store.subtitle_run analyzer calls h1 !! df = Some frame).
Proof.
  intros Hdf. destruct (copy_spec h df frame Hdf) as (l & Hcopy & Hl).
  assert (df <> l) as Hne by (intros ->; congruence).
  split.
  - unfold Store.CommentAnalyzer_init. rewrite Hcopy. do 2 eexists. split; [done|].
    intros calls. rewrite comment_run_other by done.
    by rewrite lookup_insert_ne.
  - unfold Store.SubtitleAnalyzer_init. rewrite Hcopy. do 2 eexists. split; [done|].
    intros calls. rewrite subtitle_run_id. by rewrite lookup_insert_ne.
Qed.

(** ** Grouping and binning never index out of range *)

Section groupby_facts.
Context {K : Type} (ltb eqb : K -> K -> bool).

Lemma bump_keys (k : K) (v : Z) (acc : list (K * Z)) (kc : K * Z) :
  In kc (Pd.bump ltb eqb k v acc) -> kc.1 = k \/ In kc.1 (map fst acc).
Proof.
  induction acc as [|[k' c] acc IH]; cbn.
  - intros [<-|[]]. by left.
  - destruct (ltb k k'); [|destruct (eqb k k')]; cbn.
    + intros [<-|[<-|Hin]]; auto. right. right. by apply (in_map fst).
    + intros [<-|Hin]; auto. right. right. by apply (in_map fst).
    + intros [<-|Hin]; auto. destruct (IH Hin); auto.
Qed.

Lemma bump_positive (k : K) (v : Z) (acc : list (K * Z)) :
  (0 < v)%Z ->
  Forall (fun kc => (0 < kc.2)%Z) acc ->
  Forall (fun kc => (0 < kc.2)%Z) (Pd.bump ltb eqb k v acc).
Proof.
  intros Hv. induction 1 as [|[k' c] acc Hc Hacc IH]; cbn.
  - by repeat constructor.
  - destruct (ltb k k'); [|destruct (eqb k k')]; repeat constructor; cbn in *; auto; lia.
Qed.

Lemma groupby_size_keys (keys : list (option K)) (kc : K * Z) :
  In kc (Pd.groupby_size ltb eqb keys) -> In (Some kc.1) keys.
Proof.
  unfold Pd.groupby_size.
  assert (forall acc, In kc (foldl (fun acc key =>
             match key with Some k => Pd.bump ltb eqb k 1 acc | None => acc end) acc keys) ->
           In kc.1 (map fst acc) \/ In (Some kc.1) keys) as Hgen.
  { induction keys as [|[k|] keys IH]; intros acc; cbn.
    - intros Hin. left. by apply (in_map fst).
    - intros Hin. destruct (IH _ Hin) as [Hacc|Hkeys]; [|by auto].
      apply in_map_iff in Hacc as (kc' & Hfst & Hin').
      destruct (bump_keys _ _ _ _ Hin') as [Hk|Hacc].
      + right. left. congruence.
      + left. congruence.
    - intros Hin. destruct (IH _ Hin); auto. }
  intros Hin. by destruct (Hgen [] Hin).
Qed.

Lemma groupby_size_positive (keys : list (option K)) :
  Forall (fun kc => (0 < kc.2)%Z) (Pd.groupby_size ltb eqb keys).
Proof.
  unfold Pd.groupby_size.
  assert (forall acc, Forall (fun kc : K * Z => (0 < kc.2)%Z) acc ->
            Forall (fun kc : K * Z => (0 < kc.2)%Z)
              (foldl (fun acc key =>
                 match key with Some k => Pd.bump ltb eqb k 1 acc | None => acc end)
                 acc keys)) as Hgen.
  { induction keys as [|[k|] keys IH]; intros acc Hacc; cbn; [done| |by apply IH].
    apply IH, bump_positive; [lia|done]. }
  by apply Hgen.
Qed.

Lemma groupby_sum_positive (rows : list (K * Z)) :
  Forall (fun kc => (0 < kc.2)%Z) rows ->
  Forall (fun kc => (0 < kc.2)%Z) (Pd.groupby_sum ltb eqb rows).
Proof.
  unfold Pd.groupby_sum.
  assert (forall acc, Forall (fun kc : K * Z => (0 < kc.2)%Z) acc ->
            Forall (fun kc : K * Z => (0 < kc.2)%Z) rows ->
            Forall (fun kc : K * Z => (0 < kc.2)%Z)
              (foldl (fun acc row => Pd.bump ltb eqb row.1 row.2 acc) acc rows)) as Hgen.
  { induction rows as [|row rows IH]; intros acc Hacc Hrows; cbn; [done|].
    inversion Hrows; subst. apply IH; [|done]. by apply bump_positive. }
  by apply Hgen.
Qed.
End groupby_facts.

Lemma searchsorted_left_le (bins : list Z) (x : Q) :
  (Pd.searchsorted_left bins x <= length bins)%nat.
Proof. unfold Pd.searchsorted_left. apply filter_length_le. Qed.

Lemma cut_lt (bins : list Z) (x : Q) (k : nat) :
  Pd.cut bins x = Some k -> (k + 1 < length bins)%nat.
Proof.
  unfold Pd.cut. pose proof (searchsorted_left_le bins x) as Hle.
  destruct bins as [|b0 bins].
  - cbn in *. by destruct (Pd.searchsorted_left [] x).
  - destruct (Qeq_bool x (inject_Z b0)).
    + cbn [length]. destruct bins; cbn; [done|]. intros [= <-]. lia.
    + destruct (Nat.eqb_spec (Pd.searchsorted_left (b0 :: bins) x) (length (b0 :: bins)));
        [done|].
      destruct (Nat.eqb_spec (Pd.searchsorted_left (b0 :: bins) x) 0); [done|].
      cbn [orb]. intros [= <-]. lia.
Qed.

Lemma index_returns {A} (l : list A) (i : nat) :
  (i < length l)%nat -> returns (Py.index l i).
Proof.
  intros Hi. unfold Py.index. destruct (lookup_lt_is_Some_2 l i Hi) as [x ->].
  by eexists.
Qed.

Lemma foldl_min_le (ts : list Q) (acc : Q) :
  (foldl Py.min acc ts <= acc)%Q /\
  (forall t, In t ts -> foldl Py.min acc ts <= t)%Q.
Proof.
  revert acc. induction ts as [|t ts IH]; intros acc; cbn.
  - split; [lra|by intros ? []].
  - destruct (IH (Py.min acc t)) as [Hacc Hts].
    destruct (min_spec acc t) as [[? Hm]|[? Hm]]; rewrite Hm in *;
      (split; [lra|intros t' [<-|Ht']; [lra|by apply Hts]]).
Qed.

Lemma foldl_max_ge (ts : list Q) (acc : Q) :
  (acc <= foldl Py.max acc ts)%Q /\
  (forall t, In t ts -> t <= foldl Py.max acc ts)%Q.
Proof.
  revert acc. induction ts as [|t ts IH]; intros acc; cbn.
  - split; [lra|by intros ? []].
  - destruct (IH (Py.max acc t)) as [Hacc Hts].
    destruct (max_spec acc t) as [[? Hm]|[? Hm]]; rewrite Hm in *;
      (split; [lra|intros t' [<-|Ht']; [lra|by apply Hts]]).
Qed.

Section binning_facts.
Import CommentAnalyzer.

Lemma floor_min_le_ceil_max (chat_df : list CommentRecord.t) :
  chat_df <> [] -> (Qfloor (min_time chat_df) <= Qceiling (max_time chat_df))%Z.
Proof.
  destruct chat_df as [|r chat_df]; [done|]. intros _. unfold min_time, max_time.
  cbn [map].
  destruct (foldl_min_le (map CommentRecord.timestamp_sec chat_df)
              (CommentRecord.timestamp_sec r)) as [Hmin _].
  destruct (foldl_max_ge (map CommentRecord.timestamp_sec chat_df)
              (CommentRecord.timestamp_sec r)) as [Hmax _].
  set (lo := foldl Py.min _ _) in *. set (hi := foldl Py.max _ _) in *.
  pose proof (Qfloor_le lo). pose proof (Qle_ceiling hi).
  assert (inject_Z (Qfloor lo) <= inject_Z (Qceiling hi))%Q as Hle by lra.
  by rewrite <- Zle_Qle in Hle.
Qed.

(** A positive bin size raises nothing in numpy and pandas. *)
Lemma binning_error_positive (chat_df : list CommentRecord.t) (bin_size_seconds : Z) :
  chat_df <> [] -> (0 < bin_size_seconds)%Z ->
  binning_error chat_df bin_size_seconds = None.
Proof.
  intros Hne Hbs. unfold binning_error.
  destruct (Z.eqb_spec bin_size_seconds 0) as [|_]; [lia|].
  unfold bin_edges, Np.arange. rewrite length_map, length_seq.
  pose proof (floor_min_le_ceil_max chat_df Hne) as Hle.
  set (lo := Qfloor (min_time chat_df)) in *. set (hi := Qceiling (max_time chat_df)) in *.
  pose proof (Z.div_mod (lo - (hi + bin_size_seconds)) bin_size_seconds ltac:(lia)) as Hdiv.
  pose proof (Z.mod_pos_bound (lo - (hi + bin_size_seconds)) bin_size_seconds Hbs) as Hmod.
  destruct (Nat.eqb_spec (Z.to_nat (- ((lo - (hi + bin_size_seconds)) / bin_size_seconds))) 0)
    as [Hzero|]; [|done].
  nia.
Qed.

Lemma bin_row_returns (bins : list Z) (bin_size_seconds : Z) (g : nat * Z) :
  (g.1 + 1 < length bins)%nat -> returns (bin_row bins bin_size_seconds g).
Proof.
  intros Hg. unfold bin_row.
  destruct (index_returns bins g.1) as [b1 ->]; [lia|].
  destruct (index_returns bins (g.1 + 1)) as [b2 ->]; [lia|].
  by eexists.
Qed.

Lemma bin_row_count (bins : list Z) (bin_size_seconds : Z) (g : nat * Z)
    (row : TimeBin.t) :
  bin_row bins bin_size_seconds g = Ok row -> TimeBin.count row = g.2.
Proof.
  unfold bin_row. destruct (Py.index bins g.1); [|done].
  destruct (Py.index bins (g.1 + 1)); [|done]. by intros [= <-].
Qed.

Lemma bin_comments_by_time_returns (chat_df : list CommentRecord.t)
    (bin_size_seconds : Z) :
  (0 < bin_size_seconds)%Z ->
  returns (bin_comments_by_time chat_df bin_size_seconds).
Proof.
  intros Hbs. unfold bin_comments_by_time.
  destruct chat_df as [|r chat_df]; [by eexists|].
  rewrite binning_error_positive by done.
  destruct (for_each_returns (bin_row (bin_edges (r :: chat_df) bin_size_seconds)
                                      bin_size_seconds)
              (Pd.groupby_size Nat.ltb Nat.eqb (bin_column (r :: chat_df) bin_size_seconds)))
    as [rows ->]; [|by eexists].
  apply Forall_forall. intros g Hg%list_elem_of_In.
  apply bin_row_returns. apply groupby_size_keys in Hg.
  unfold bin_column in Hg. apply in_map_iff in Hg as (r' & Hcut & _).
  by eapply cut_lt.
Qed.

Lemma bin_comments_by_time_positive (chat_df : list CommentRecord.t)
    (bin_size_seconds : Z) (binned_df : list TimeBin.t) :
  bin_comments_by_time chat_df bin_size_seconds = Ok binned_df ->
  Forall (fun b => (0 < TimeBin.count b)%Z) binned_df.
Proof.
  unfold bin_comments_by_time. destruct chat_df as [|r chat_df]; [by intros [= <-]|].
  destruct (binning_error _ _); [done|]. intros Hrows.
  apply bind_Ok in Hrows as (rows & Hrows & [= <-]).
  apply sort_by_Forall. apply for_each_Ok in Hrows.
  pose proof (groupby_size_positive Nat.ltb Nat.eqb
                (bin_column (r :: chat_df) bin_size_seconds)) as Hpos.
  induction Hrows as [|g row gs rows Hrow _ IH]; [done|].
  inversion Hpos; subst. constructor; [|by apply IH].
  by rewrite (bin_row_count _ _ _ _ Hrow).
Qed.
End binning_facts.

(** ** Peaks: [find_peaks] returns, with the counts of its input *)

Section peak_facts.
Import CommentAnalyzer.

Lemma percentile_returns (a : list Z) (q : Q) :
  (0 <= q <= 100)%Q -> returns (Np.percentile a q).
Proof.
  intros [H0 H100]. unfold Np.percentile.
  apply Qleb_le in H0, H100. rewrite H0, H100. by eexists.
Qed.

Lemma peak_rows_Forall (P : TimeBin.t -> Prop) (binned_df : list TimeBin.t) (q : Q)
    (rows : list TimeBin.t) :
  Forall P binned_df -> peak_rows binned_df q = Ok rows -> Forall P rows.
Proof.
  intros HP Hrows. apply bind_Ok in Hrows as (threshold & _ & [= <-]).
  apply Forall_forall. intros r Hr%list_elem_of_In%filter_In.
  rewrite Forall_forall in HP. apply HP, list_elem_of_In, Hr.
Qed.

Lemma peak_step_members (P : TimeBin.t -> Prop) (min_gap_seconds : Z)
    (rows : list TimeBin.t) (gs : list (list TimeBin.t)) (g : list TimeBin.t)
    (out : list (list TimeBin.t)) :
  Forall (Forall P) gs -> Forall P g -> Forall P rows ->
  for_loop (peak_step Ok min_gap_seconds) (gs, g) rows ≫= finish Ok = Ok out ->
  Forall (Forall P) out.
Proof.
  revert gs g. induction rows as [|row rows IH]; intros gs g Hgs Hg Hrows; cbn.
  - unfold finish; cbn. destruct g; cbn; intros [= <-]; [done|].
    apply Forall_app. split; [done|]. by constructor.
  - inversion Hrows as [|? ? Hrow Hrows']; subst.
    assert (Forall P (g ++ [row])) by (apply Forall_app; split; [done|by constructor]).
    destruct (last g) as [prev|]; [|by apply IH].
    destruct (_ <=? _)%Z; [by apply IH|]. cbn.
    apply IH; [|by constructor|done].
    apply Forall_app. split; [done|]. by constructor.
Qed.

Lemma peak_groups_members (P : TimeBin.t -> Prop) (binned_df : list TimeBin.t)
    (q : Q) (min_gap_seconds : Z) (groups : list (list TimeBin.t)) :
  Forall P binned_df ->
  peak_groups binned_df q min_gap_seconds = Ok groups ->
  Forall (Forall P) groups.
Proof.
  intros HP. unfold peak_groups.
  destruct binned_df as [|b binned_df]; [by intros [= <-]|].
  destruct (peak_rows _ _) as [rows|e] eqn:Hrows; [|done].
  apply (peak_rows_Forall P) in Hrows; [|done].
  destruct rows as [|r rows]; [by intros [= <-]|].
  by apply (peak_step_members P min_gap_seconds (r :: rows) [] []).
Qed.

Lemma peak_groups_returns (binned_df : list TimeBin.t) (q : Q) (min_gap_seconds : Z) :
  (0 <= q <= 100)%Q -> returns (peak_groups binned_df q min_gap_seconds).
Proof.
  intros Hq. unfold peak_groups. destruct binned_df as [|b binned_df]; [by eexists|].
  unfold peak_rows.
  destruct (percentile_returns (map TimeBin.count (b :: binned_df)) q Hq) as [t ->].
  cbn [mbind result_bind mret result_ret].
  destruct (List.filter _ _) as [|r rows]; [by eexists|].
  unfold peak_loop.
  destruct (peak_step_Ok_prefix min_gap_seconds (r :: rows) [] []) as (more & g' & ->).
  cbn. destruct g'; by eexists.
Qed.

Lemma find_peaks_returns (binned_df : list TimeBin.t) (q : Q) (min_gap_seconds : Z) :
  (0 <= q <= 100)%Q -> returns (find_peaks binned_df q min_gap_seconds).
Proof.
  intros Hq. rewrite find_peaks_factor.
  destruct (peak_groups_returns binned_df q min_gap_seconds Hq) as [groups Hgroups].
  rewrite Hgroups. cbn. apply for_each_returns.
  eapply Forall_impl; [by eapply peak_groups_nonempty|].
  intros g Hg. destruct (_merge_peak_group_representative g Hg) as (peak & -> & _).
  by eexists.
Qed.

Lemma find_peaks_positive (binned_df : list TimeBin.t) (q : Q) (min_gap_seconds : Z)
    (peaks : list Peak.t) :
  Forall (fun b => (0 < TimeBin.count b)%Z) binned_df ->
  find_peaks binned_df q min_gap_seconds = Ok peaks ->
  Forall (fun p => (0 < Peak.count p)%Z) peaks.
Proof.
  intros Hpos. rewrite find_peaks_factor. intros Hpeaks.
  apply bind_Ok in Hpeaks as (groups & Hgroups & Hpeaks).
  pose proof (peak_groups_nonempty _ _ _ _ Hgroups) as Hne.
  apply (peak_groups_members _ _ _ _ _ Hpos) in Hgroups.
  apply for_each_Ok in Hpeaks.
  induction Hpeaks as [|g p gs ps Hp _ IH]; [done|].
  inversion Hne; subst. inversion Hgroups as [|? ? Hg Hgs]; subst.
  constructor; [|by apply IH].
  destruct (_merge_peak_group_representative g) as (p' & Hp' & r & Hr & _ & _ & _ & Hc & _);
    [done|].
  rewrite Hp in Hp'. injection Hp' as <-. rewrite Hc.
  rewrite Forall_forall in Hg. apply Hg, list_elem_of_In, Hr.
Qed.
End peak_facts.

(** ** Keyword frequencies *)

Section keyword_facts.
Context `{RegexEngine}.
Import CommentAnalyzer.

Lemma keyword_bin_row_returns (bins : list Z) (g : (nat * string) * Z) :
  (g.1.1 + 1 < length bins)%nat -> returns (keyword_bin_row bins g).
Proof.
  intros Hg. unfold keyword_bin_row.
  destruct (index_returns bins g.1.1) as [b1 ->]; [lia|].
  destruct (index_returns bins (g.1.1 + 1)) as [b2 ->]; [lia|].
  by eexists.
Qed.

Lemma keyword_bin_row_count (bins : list Z) (g : (nat * string) * Z)
    (row : KeywordBin.t) :
  keyword_bin_row bins g = Ok row -> KeywordBin.count row = g.2.
Proof.
  unfold keyword_bin_row. destruct (Py.index bins g.1.1); [|done].
  destruct (Py.index bins (g.1.1 + 1)); [|done]. by intros [= <-].
Qed.

Lemma get_keyword_frequency_over_time_returns (chat_df : list CommentRecord.t)
    (keywords : list string) (bin_size_seconds : Z) :
  (0 < bin_size_seconds)%Z ->
  Forall (compiles true) keywords ->
  returns (get_keyword_frequency_over_time chat_df keywords bin_size_seconds).
Proof.
  intros Hbs Hk. unfold get_keyword_frequency_over_time.
  destruct (count_keywords_returns chat_df keywords false Hk) as [keyword_df Hhits].
  rewrite Hhits. cbn [mbind result_bind].
  destruct keyword_df as [|h keyword_df]; [by eexists|].
  rewrite binning_error_positive; [|by intros ->|done].
  match goal with |- returns (for_each ?f ?l ≫= _) =>
    destruct (for_each_returns f l) as [rows ->]; [|by eexists] end.
  apply Forall_forall. intros g Hg%list_elem_of_In.
  apply keyword_bin_row_returns. apply groupby_size_keys in Hg.
  apply in_map_iff in Hg as (h' & Hcut & _).
  destruct (Pd.cut _ _) as [b|] eqn:Hb; [|done].
  injection Hcut as Hcut. apply cut_lt in Hb. by rewrite <- Hcut.
Qed.

Lemma get_keyword_frequency_over_time_positive (chat_df : list CommentRecord.t)
    (keywords : list string) (bin_size_seconds : Z) (freq : list KeywordBin.t) :
  get_keyword_frequency_over_time chat_df keywords bin_size_seconds = Ok freq ->
  Forall (fun r => (0 < KeywordBin.count r)%Z) freq.
Proof.
  unfold get_keyword_frequency_over_time. intros Hfreq.
  apply bind_Ok in Hfreq as (keyword_df & _ & Hfreq).
  destruct keyword_df as [|h keyword_df]; [by injection Hfreq as <-|].
  destruct (binning_error _ _); [done|].
  apply bind_Ok in Hfreq as (rows & Hrows & [= <-]).
  apply sort_by_Forall. apply for_each_Ok in Hrows.
  match type of Hrows with Forall2 _ (Pd.groupby_size ?l ?e ?k) _ =>
    pose proof (groupby_size_positive l e k) as Hpos end.
  induction Hrows as [|g row gs rows Hrow _ IH]; [done|].
  inversion Hpos; subst. constructor; [|by apply IH].
  by rewrite (keyword_bin_row_count _ _ _ Hrow).
Qed.
End keyword_facts.

(** ** The producers of [generate_candidates] *)

Section producers.
Context `{RegexEngine} `{FloatArith}.
Import ClipGenerator.

Lemma within_le (min_duration max_duration d : Q) :
  within min_duration max_duration d = true -> (min_duration <= max_duration)%Q.
Proof.
  unfold within. intros [H1 H2]%andb_true_iff. Qcases. lra.
Qed.

Lemma candidate_of_peak_ok (min_duration max_duration : Q) (peak : Peak.t) :
  (0 < Peak.count peak)%Z ->
  Forall (candidate_ok min_duration max_duration)
         (candidate_of_peak min_duration max_duration peak).
Proof.
  intros Hpos. unfold candidate_of_peak.
  destruct (within _ _ _) eqn:Hw; [|done].
  repeat constructor; cbn; [by eapply within_le|lia].
Qed.

Lemma _generate_from_comment_peaks_returns (chat_df : list CommentRecord.t)
    (min_duration max_duration : Q) :
  returns (_generate_from_comment_peaks chat_df min_duration max_duration).
Proof.
  unfold _generate_from_comment_peaks.
  destruct (bin_comments_by_time_returns chat_df 10) as [binned_df ->]; [done|].
  cbn [mbind result_bind].
  destruct (find_peaks_returns binned_df 75 30) as [peaks ->]; [done|].
  by eexists.
Qed.

Lemma _generate_from_comment_peaks_ok (chat_df : list CommentRecord.t)
    (min_duration max_duration : Q) (cs : list Candidate.t) :
  _generate_from_comment_peaks chat_df min_duration max_duration = Ok cs ->
  Forall (candidate_ok min_duration max_duration) cs.
Proof.
  unfold _generate_from_comment_peaks. intros Hcs.
  apply bind_Ok in Hcs as (binned_df & Hbinned & Hcs).
  apply bind_Ok in Hcs as (peaks & Hpeaks & [= <-]).
  apply bin_comments_by_time_positive in Hbinned.
  apply (find_peaks_positive _ _ _ _ Hbinned) in Hpeaks.
  apply Forall_concat, Forall_map.
  eapply Forall_impl; [exact Hpeaks|]. intros p Hp. by apply candidate_of_peak_ok.
Qed.

Lemma foldl_add_nonneg (l : list Z) (acc : Z) :
  (0 <= acc)%Z -> Forall (fun c => (0 < c)%Z) l -> (0 <= foldl Z.add acc l)%Z.
Proof.
  intros Hacc Hl. revert acc Hacc.
  induction Hl as [|c l Hc _ IH]; intros acc Hacc; cbn; [done|]. apply IH. lia.
Qed.

Lemma _create_candidate_from_group_ok (group : list BinTotal.t) (reason : string)
    (min_duration max_duration : Q) (c : Candidate.t) :
  Forall (fun r => (0 < BinTotal.count r)%Z) group ->
  _create_candidate_from_group group reason min_duration max_duration = Some c ->
  candidate_ok min_duration max_duration c.
Proof.
  intros Hpos. unfold _create_candidate_from_group.
  destruct group as [|first group'] eqn:Hgroup; [done|]. rewrite <- Hgroup in *.
  destruct (last group) as [final|]; [|done].
  destruct (within _ _ _) eqn:Hw; [|done]. intros [= <-].
  split; cbn; [by eapply within_le|].
  apply foldl_add_nonneg; [done|]. by apply Forall_map.
Qed.

Lemma append_candidate_ok (min_duration max_duration : Q) (cs : list Candidate.t)
    (group : list BinTotal.t) (reason : string) :
  Forall (candidate_ok min_duration max_duration) cs ->
  Forall (fun r => (0 < BinTotal.count r)%Z) group ->
  Forall (candidate_ok min_duration max_duration)
    (append_candidate cs
       (_create_candidate_from_group group reason min_duration max_duration)).
Proof.
  intros Hcs Hgroup.
  destruct (_create_candidate_from_group _ _ _ _) as [c|] eqn:Hc; cbn; [|done].
  apply Forall_app. split; [done|]. constructor; [|done].
  by eapply _create_candidate_from_group_ok.
Qed.

Lemma keyword_step_ok (min_duration max_duration : Q) (rows : list BinTotal.t)
    (st : list Candidate.t * list BinTotal.t) :
  Forall (candidate_ok min_duration max_duration) st.1 ->
  Forall (fun r => (0 < BinTotal.count r)%Z) st.2 ->
  Forall (fun r => (0 < BinTotal.count r)%Z) rows ->
  let st' := foldl (keyword_step min_duration max_duration) st rows in
  Forall (candidate_ok min_duration max_duration) st'.1 /\
  Forall (fun r => (0 < BinTotal.count r)%Z) st'.2.
Proof.
  cbn. revert st. induction rows as [|row rows IH]; intros [cs g] Hcs Hg Hrows;
    cbn in *; [done|].
  inversion Hrows; subst.
  assert (Forall (fun r => (0 < BinTotal.count r)%Z) (g ++ [row]))
    by (apply Forall_app; split; [done|by constructor]).
  destruct (last g) as [prev|]; [|by apply IH].
  destruct (_ <=? _)%Z; [by apply IH|].
  apply IH; cbn; [by apply append_candidate_ok|by constructor|done].
Qed.

Lemma bin_totals_positive (freq : list KeywordBin.t) :
  Forall (fun r => (0 < KeywordBin.count r)%Z) freq ->
  Forall (fun r => (0 < BinTotal.count r)%Z) (bin_totals freq).
Proof.
  intros Hfreq. unfold bin_totals. apply Forall_map.
  eapply Forall_impl; [apply groupby_sum_positive|by intros [k c]].
  by apply Forall_map.
Qed.

Lemma _generate_from_keywords_returns (chat_df : list CommentRecord.t)
    (keywords : list string) (min_duration max_duration : Q) :
  Forall (compiles true) keywords ->
  returns (_generate_from_keywords chat_df keywords min_duration max_duration).
Proof.
  intros Hk. unfold _generate_from_keywords.
  destruct (get_keyword_frequency_over_time_returns chat_df keywords 10)
    as [freq ->]; [done|done|].
  cbn [mbind result_bind]. destruct freq as [|r freq]; [by eexists|].
  destruct (percentile_returns (map BinTotal.count (bin_totals (r :: freq))) (0.75 * 100))
    as [threshold ->]; [split; by apply Qleb_le|].
  cbn [mbind result_bind]. destruct (foldl _ _ _).2; by eexists.
Qed.

Lemma _generate_from_keywords_ok (chat_df : list CommentRecord.t)
    (keywords : list string) (min_duration max_duration : Q) (cs : list Candidate.t) :
  _generate_from_keywords chat_df keywords min_duration max_duration = Ok cs ->
  Forall (candidate_ok min_duration max_duration) cs.
Proof.
  unfold _generate_from_keywords. intros Hcs.
  apply bind_Ok in Hcs as (freq & Hfreq & Hcs).
  apply get_keyword_frequency_over_time_positive in Hfreq.
  destruct freq as [|r freq]; [by injection Hcs as <-|].
  apply bind_Ok in Hcs as (threshold & _ & Hcs).
  apply bin_totals_positive in Hfreq.
  match type of Hcs with context [foldl ?f ?st ?rows] =>
    destruct (keyword_step_ok min_duration max_duration rows st) as [Hcands Hgroup];
      [done|done| |] end.
  { apply Forall_forall. intros x Hx%list_elem_of_In%filter_In.
    rewrite Forall_forall in Hfreq. apply Hfreq, list_elem_of_In, Hx. }
  destruct (foldl _ _ _).2 as [|t0 g] eqn:Hg; injection Hcs as <-; [done|].
  exact (append_candidate_ok min_duration max_duration _ (t0 :: g) _ Hcands Hgroup).
Qed.

Lemma segment_step_returns (df : list SubtitleRecord.t) (gaps : list Gap.t) (d : Q)
    (st : SubtitleAnalyzer.seg_state) (i : nat) (row : SubtitleRecord.t) :
  returns (SubtitleAnalyzer.segment_step df gaps d st i row).
Proof.
  unfold SubtitleAnalyzer.segment_step.
  destruct (_ || _); [|by eexists].
  destruct (Nat.ltb_spec i (length df - 1)); [|by eexists].
  destruct (index_returns df (i + 1)) as [next ->]; [lia|]. by eexists.
Qed.

Lemma segment_loop_returns (df : list SubtitleRecord.t) (gaps : list Gap.t) (d : Q)
    (rows : list SubtitleRecord.t) (st : SubtitleAnalyzer.seg_state) (i : nat) :
  returns (SubtitleAnalyzer.segment_loop df gaps d st i rows).
Proof.
  revert st i. induction rows as [|row rows IH]; intros st i; cbn; [by eexists|].
  destruct (segment_step_returns df gaps d st i row) as [st' ->]. apply IH.
Qed.

Lemma segment_by_silence_returns (df : list SubtitleRecord.t) (g d : Q) :
  returns (SubtitleAnalyzer.segment_by_silence df g d).
Proof.
  unfold SubtitleAnalyzer.segment_by_silence. destruct df as [|first df']; [by eexists|].
  match goal with |- returns (SubtitleAnalyzer.segment_loop ?df ?gaps ?d ?st ?i ?rows ≫= _) =>
    destruct (segment_loop_returns df gaps d rows st i) as [st' ->] end.
  by eexists.
Qed.

Lemma candidate_of_segment_ok (min_duration max_duration : Q) (segment : Segment.t) :
  Forall (candidate_ok min_duration max_duration)
         (candidate_of_segment min_duration max_duration segment).
Proof.
  unfold candidate_of_segment. destruct (within _ _ _) eqn:Hw; [|done].
  repeat constructor; cbn. by eapply within_le.
Qed.

Lemma _generate_from_subtitle_segments_returns (df : list SubtitleRecord.t)
    (min_duration max_duration : Q) :
  returns (_generate_from_subtitle_segments df min_duration max_duration).
Proof.
  unfold _generate_from_subtitle_segments.
  destruct (segment_by_silence_returns df 2.0 min_duration) as [segments ->].
  by eexists.
Qed.

Lemma _generate_from_subtitle_segments_ok (df : list SubtitleRecord.t)
    (min_duration max_duration : Q) (cs : list Candidate.t) :
  _generate_from_subtitle_segments df min_duration max_duration = Ok cs ->
  Forall (candidate_ok min_duration max_duration) cs.
Proof.
  unfold _generate_from_subtitle_segments. intros Hcs.
  apply bind_Ok in Hcs as (segments & _ & [= <-]).
  apply Forall_concat, Forall_map, Forall_forall. intros s _.
  apply candidate_of_segment_ok.
Qed.

Lemma first_match_returns (keywords : list string) (text : string) :
  Forall (compiles false) keywords ->
  returns (SubtitleAnalyzer.first_match keywords text).
Proof.
  induction 1 as [|k keywords Hk _ IH]; cbn; [by eexists|].
  destruct (compile_returns _ _ Hk) as [search ->]. cbn.
  destruct (search text); [by eexists|done].
Qed.

Lemma detect_topic_changes_returns (df : list SubtitleRecord.t)
    (keywords : option (list string)) :
  Forall (compiles false) (default SubtitleAnalyzer.default_topic_keywords keywords) ->
  returns (SubtitleAnalyzer.detect_topic_changes df keywords).
Proof.
  intros Hk. unfold SubtitleAnalyzer.detect_topic_changes.
  match goal with |- returns (for_each ?f ?l ≫= _) =>
    destruct (for_each_returns f l) as [changes ->]; [|by eexists] end.
  apply Forall_forall. intros row _. unfold SubtitleAnalyzer.topic_of_row.
  destruct (first_match_returns _ (SubtitleRecord.text row) Hk) as [[k|] ->];
    by eexists.
Qed.

Lemma topic_candidates_ok (min_duration max_duration : Q)
    (changes : list TopicChange.t) :
  Forall (candidate_ok min_duration max_duration)
         (topic_candidates min_duration max_duration changes).
Proof.
  induction changes as [|change rest IH]; [done|]. cbn [topic_candidates].
  apply Forall_app. split; [|done].
  destruct (within _ _ _) eqn:Hw; [|done].
  repeat constructor; cbn. by eapply within_le.
Qed.
End producers.

(** ** Merging and scoring *)

Section merging.
Context `{FloatArith}.
Import ClipGenerator.

(** Where two intervals overlap, both have a positive length: the division
    of [_calculate_overlap] is defined. *)
Lemma _calculate_overlap_returns (c1_start c1_end c2_start c2_end : Q) :
  returns (_calculate_overlap c1_start c1_end c2_start c2_end).
Proof.
  unfold _calculate_overlap.
  destruct (Qleb _ _) eqn:Hov; [by eexists|].
  destruct (Qeq_bool _ _) eqn:Hzero; [|by eexists].
  exfalso. Qcases.
  destruct (min_spec c1_end c2_end) as [[? Hmin]|[? Hmin]];
    destruct (max_spec c1_start c2_start) as [[? Hmax]|[? Hmax]];
    destruct (min_spec (c1_end - c1_start) (c2_end - c2_start)) as [[? Hd]|[? Hd]];
    rewrite Hmin, Hmax in Hov; rewrite Hd in Hzero; lra.
Qed.

Lemma inject_Z_nonneg (z : Z) : (0 <= z)%Z -> (0 <= inject_Z z)%Q.
Proof. intros Hz. rewrite Zle_Qle in Hz. exact Hz. Qed.

Lemma detail_score_nonneg (details : Details) :
  details_ok details -> (0 <= detail_score details)%Q.
Proof.
  destruct details as [c t|c| |]; cbn; intros Hc; try lra.
  - apply inject_Z_nonneg in Hc.
    assert (0 <= inject_Z c / 100)%Q by (apply Qle_shift_div_l; lra).
    destruct (min_spec (inject_Z c / 100) 0.3) as [[_ ->]|[_ ->]]; lra.
  - apply inject_Z_nonneg in Hc.
    assert (0 <= inject_Z c / 50)%Q by (apply Qle_shift_div_l; lra).
    destruct (min_spec (inject_Z c / 50) 0.2) as [[_ ->]|[_ ->]]; lra.
Qed.

Lemma foldl_detail_score_nonneg (all_details : list Details) (score : Q) :
  (0 <= score)%Q -> Forall details_ok all_details ->
  (0 <= foldl (fun score details => score + detail_score details) score all_details)%Q.
Proof.
  intros Hscore Hall. revert score Hscore.
  induction Hall as [|d ds Hd _ IH]; intros score Hscore; cbn; [done|].
  apply IH. apply detail_score_nonneg in Hd. lra.
Qed.

Lemma _calculate_score_bounds (candidate : Merged.t) :
  Forall details_ok (Merged.all_details candidate) ->
  (0 <= _calculate_score candidate <= 1)%Q.
Proof.
  intros Hall. unfold _calculate_score.
  set (n := inject_Z (Z.of_nat (length (Merged.reasons candidate)))).
  assert (0 <= n)%Q by (apply inject_Z_nonneg; lia).
  assert (0 <= 0 + Py.min (n * 0.3) 0.6)%Q as Hbase
    by (destruct (min_spec (n * 0.3) 0.6) as [[_ ->]|[_ ->]]; lra).
  pose proof (foldl_detail_score_nonneg _ _ Hbase Hall) as Hsum.
  match goal with |- (0 <= Py.min ?s 1.0 <= 1)%Q =>
    destruct (min_spec s 1.0) as [[? ->]|[? ->]]; lra end.
Qed.

Lemma set_score_ok (current : Merged.t) :
  Forall details_ok (Merged.all_details current) -> score_ok (set_score current).
Proof. intros Hall. by apply _calculate_score_bounds. Qed.

Lemma merge_step_returns (st : list Merged.t * Merged.t) (candidate : Candidate.t) :
  returns (merge_step st candidate).
Proof.
  destruct st as [merged current]. unfold merge_step.
  destruct (_calculate_overlap_returns (Merged.start current) (Merged.end_ current)
              (Candidate.start candidate) (Candidate.end_ candidate)) as [overlap ->].
  cbn. destruct (Qltb 0.5 overlap); by eexists.
Qed.

Lemma merge_step_ok (st st' : list Merged.t * Merged.t) (candidate : Candidate.t) :
  merge_state_ok st ->
  details_ok (Candidate.details candidate) ->
  merge_step st candidate = Ok st' ->
  merge_state_ok st'.
Proof.
  destruct st as [merged current]. intros [Hmerged Hcurrent] Hcand. unfold merge_step.
  destruct (_calculate_overlap _ _ _ _) as [overlap|e]; [|done]. cbn.
  destruct (Qltb 0.5 overlap); intros [= <-]; split; cbn.
  - done.
  - apply Forall_app. split; [done|]. by constructor.
  - apply Forall_app. split; [done|]. constructor; [|done]. by apply set_score_ok.
  - by constructor.
Qed.

Lemma merge_loop_returns (rest : list Candidate.t) (st : list Merged.t * Merged.t) :
  returns (for_loop merge_step st rest).
Proof.
  revert st. induction rest as [|c rest IH]; intros st; cbn; [by eexists|].
  destruct (merge_step_returns st c) as [st' ->]. apply IH.
Qed.

Lemma merge_loop_ok (rest : list Candidate.t) (st st' : list Merged.t * Merged.t) :
  merge_state_ok st ->
  Forall (fun c => details_ok (Candidate.details c)) rest ->
  for_loop merge_step st rest = Ok st' ->
  merge_state_ok st'.
Proof.
  intros Hst Hrest. revert st Hst.
  induction Hrest as [|c rest Hc _ IH]; intros st Hst; cbn; [by intros [= <-]|].
  intros Hloop. apply bind_Ok in Hloop as (st1 & Hstep & Hloop).
  eapply IH; [|exact Hloop]. by eapply merge_step_ok.
Qed.

Lemma _merge_and_score_candidates_returns (candidates : list Candidate.t)
    (min_duration max_duration : Q) :
  returns (_merge_and_score_candidates candidates min_duration max_duration).
Proof.
  unfold _merge_and_score_candidates.
  destruct (sort_by _ candidates) as [|first rest]; [by eexists|].
  destruct (merge_loop_returns rest ([], open_candidate first)) as [st ->].
  by eexists.
Qed.

Lemma _merge_and_score_candidates_ok (candidates : list Candidate.t)
    (min_duration max_duration : Q) (out : list Merged.t) :
  Forall (fun c => details_ok (Candidate.details c)) candidates ->
  _merge_and_score_candidates candidates min_duration max_duration = Ok out ->
  Forall score_ok out.
Proof.
  intros Hcs. unfold _merge_and_score_candidates.
  apply (sort_by_Forall _ (fun a b => Qleb (Candidate.start a) (Candidate.start b)))
    in Hcs.
  destruct (sort_by _ candidates) as [|first rest]; [by intros [= <-]|].
  inversion Hcs; subst. intros Hout.
  apply bind_Ok in Hout as (st & Hloop & [= <-]).
  apply merge_loop_ok in Hloop as [Hmerged Hcurrent]; [|split; cbn; by constructor|done].
  apply Forall_map. apply Forall_forall. intros m Hm%list_elem_of_In%filter_In.
  destruct Hm as [Hm _].
  change (score_ok m). apply in_app_or in Hm as [Hm|[<-|[]]].
  - rewrite Forall_forall in Hmerged. apply Hmerged, list_elem_of_In, Hm.
  - by apply set_score_ok.
Qed.
End merging.

(** ** [generate_candidates] *)

Section generate_facts.
Context `{RegexEngine} `{FloatArith}.
Import ClipGenerator.

Lemma _generate_from_topic_changes_returns (df : list SubtitleRecord.t)
    (min_duration max_duration : Q) :
  Forall (compiles false) SubtitleAnalyzer.default_topic_keywords ->
  returns (_generate_from_topic_changes df min_duration max_duration).
Proof.
  intros Hk. unfold _generate_from_topic_changes.
  destruct (detect_topic_changes_returns df None Hk) as [changes ->]. by eexists.
Qed.

Lemma _generate_from_topic_changes_ok (df : list SubtitleRecord.t)
    (min_duration max_duration : Q) (cs : list Candidate.t) :
  _generate_from_topic_changes df min_duration max_duration = Ok cs ->
  Forall (candidate_ok min_duration max_duration) cs.
Proof.
  unfold _generate_from_topic_changes. intros Hcs.
  apply bind_Ok in Hcs as (changes & _ & [= <-]). apply topic_candidates_ok.
Qed.

Lemma when_present_ok {A} (analyzer : option A)
    (producer : A -> result (list Candidate.t)) (P : Candidate.t -> Prop)
    (cs : list Candidate.t) :
  (forall a cs, producer a = Ok cs -> Forall P cs) ->
  when_present analyzer producer = Ok cs -> Forall P cs.
Proof.
  intros Hp. destruct analyzer as [a|]; cbn; [apply Hp|by intros [= <-]].
Qed.

Lemma when_present_returns {A} (analyzer : option A)
    (producer : A -> result (list Candidate.t)) :
  (forall a, analyzer = Some a -> returns (producer a)) ->
  returns (when_present analyzer producer).
Proof. intros Hp. destruct analyzer as [a|]; cbn; [by apply Hp|by eexists]. Qed.

(** What [generate_candidates] returns is the sorted result of the merge
    pass on candidates that passed the producers' filters. *)
Lemma generate_candidates_inv (self : t) (min_duration max_duration : Q)
    (reaction_keywords : option (list string)) (out : list Merged.t) :
  generate_candidates self min_duration max_duration reaction_keywords = Ok out ->
  exists candidates merged,
    Forall (candidate_ok min_duration max_duration) candidates /\
    _merge_and_score_candidates candidates min_duration max_duration = Ok merged /\
    out = sort_by (fun a b => Qleb (Merged.score b) (Merged.score a)) merged.
Proof.
  unfold generate_candidates. intros Hout.
  apply bind_Ok in Hout as (c1 & H1 & Hout).
  apply bind_Ok in Hout as (c2 & H2 & Hout).
  apply bind_Ok in Hout as (c3 & H3 & Hout).
  apply bind_Ok in Hout as (c4 & H4 & Hout).
  apply bind_Ok in Hout as (merged & Hmerged & [= <-]).
  exists (c1 ++ c2 ++ c3 ++ c4), merged. split; [|done].
  apply (when_present_ok _ _ (candidate_ok min_duration max_duration)) in H1, H2, H3, H4.
  - by repeat (apply Forall_app; split).
  - intros. by eapply _generate_from_topic_changes_ok.
  - intros. by eapply _generate_from_subtitle_segments_ok.
  - intros. by eapply _generate_from_keywords_ok.
  - intros. by eapply _generate_from_comment_peaks_ok.
Qed.

Lemma generate_candidates_returns (self : t) (min_duration max_duration : Q)
    (reaction_keywords : option (list string)) :
  patterns_compile self reaction_keywords ->
  returns (generate_candidates self min_duration max_duration reaction_keywords).
Proof.
  intros [Hreaction Htopic]. unfold generate_candidates.
  match goal with |- returns (when_present ?a ?p ≫= _) =>
    destruct (when_present_returns a p) as [c1 ->] end.
  { intros. apply _generate_from_comment_peaks_returns. }
  cbn [mbind result_bind].
  match goal with |- returns (when_present ?a ?p ≫= _) =>
    destruct (when_present_returns a p) as [c2 ->] end.
  { intros a Ha. apply _generate_from_keywords_returns, Hreaction. by rewrite Ha. }
  cbn [mbind result_bind].
  match goal with |- returns (when_present ?a ?p ≫= _) =>
    destruct (when_present_returns a p) as [c3 ->] end.
  { intros. apply _generate_from_subtitle_segments_returns. }
  cbn [mbind result_bind].
  match goal with |- returns (when_present ?a ?p ≫= _) =>
    destruct (when_present_returns a p) as [c4 ->] end.
  { intros a Ha. apply _generate_from_topic_changes_returns, Htopic. by rewrite Ha. }
  cbn [mbind result_bind].
  destruct (_merge_and_score_candidates_returns (c1 ++ c2 ++ c3 ++ c4)
              min_duration max_duration) as [merged ->].
  by eexists.
Qed.

End generate_facts.

(** C8, as the code has it.  [generate_candidates] catches no exception.
    With patterns that compile and a comment source whose message column
    holds a text (or is empty), the [.str] accessor accepts the column, so
    that the keyword count is the one the producer runs, and the call
    returns a list whatever the sources hold: a producer without signals
    adds nothing.  Without a comment source and a subtitle source, and
    likewise with two empty ones, the list is empty. *)
Theorem generate_candidates_never_raises `{RegexEngine} `{FloatArith}
    (self : ClipGenerator.t) (min_duration max_duration : Q)
    (reaction_keywords : option (list string)) :
  patterns_compile self reaction_keywords ->
  text_messages self ->
  (forall chat_df keywords case_sensitive,
     ClipGenerator.comment_analyzer self = Some chat_df ->
     CommentAnalyzer.count_keywords_on (CommentAnalyzer.message_dtype chat_df)
       chat_df keywords case_sensitive
     = CommentAnalyzer.count_keywords chat_df keywords case_sensitive) /\
  returns (ClipGenerator.generate_candidates self min_duration max_duration
             reaction_keywords) /\
  ClipGenerator.generate_candidates
    {| ClipGenerator.comment_analyzer := None; ClipGenerator.subtitle_analyzer := None |}
    min_duration max_duration reaction_keywords = Ok [] /\
  ClipGenerator.generate_candidates
    {| ClipGenerator.comment_analyzer := Some [];
       ClipGenerator.subtitle_analyzer := Some [] |}
    min_duration max_duration reaction_keywords = Ok [].
Proof.
  intros Hk Hcol. split; [|split; [by apply generate_candidates_returns|by split]].
  intros chat_df keywords case_sensitive Hdf.
  rewrite (Hcol chat_df Hdf). apply count_keywords_on_object.
Qed.

(** C4.  Every candidate that [generate_candidates] returns has a score
    between 0 and 1, whatever the records, the parameters and the number of
    details merged into it. *)
Theorem generate_candidates_score_bounds `{RegexEngine} `{FloatArith}
    (self : ClipGenerator.t)
    (min_duration max_duration : Q) (reaction_keywords : option (list string))
    (out : list Merged.t) :
  ClipGenerator.generate_candidates self min_duration max_duration reaction_keywords
    = Ok out ->
  Forall score_ok out.
Proof.
  intros Hout.
  apply generate_candidates_inv in Hout as (candidates & merged & Hcs & Hmerged & ->).
  apply sort_by_Forall. eapply _merge_and_score_candidates_ok; [|exact Hmerged].
  eapply Forall_impl; [exact Hcs|]. by intros c [_ Hc].
Qed.


(** ** Where [pd.cut] puts a timestamp *)

Section edges.
Import CommentAnalyzer.

Lemma min_time_le (chat_df : list CommentRecord.t) (r : CommentRecord.t) :
  In r chat_df -> (min_time chat_df <= CommentRecord.timestamp_sec r)%Q.
Proof.
  unfold min_time. destruct chat_df as [|r0 chat_df]; [done|]. cbn [map].
  destruct (foldl_min_le (map CommentRecord.timestamp_sec chat_df)
              (CommentRecord.timestamp_sec r0)) as [H0 Hts].
  intros [<-|Hr]; [done|]. by apply Hts, in_map.
Qed.

Lemma max_time_ge (chat_df : list CommentRecord.t) (r : CommentRecord.t) :
  In r chat_df -> (CommentRecord.timestamp_sec r <= max_time chat_df)%Q.
Proof.
  unfold max_time. destruct chat_df as [|r0 chat_df]; [done|]. cbn [map].
  destruct (foldl_max_ge (map CommentRecord.timestamp_sec chat_df)
              (CommentRecord.timestamp_sec r0)) as [H0 Hts].
  intros [<-|Hr]; [done|]. by apply Hts, in_map.
Qed.

Lemma arange_edges (start stop step : Z) :
  Np.arange start stop step =
  map (edge start step) (seq 0 (Z.to_nat (- ((start - stop) / step)))).
Proof. done. Qed.

(** The number of edges for [hi >= lo], and the place of the last one. *)
Lemma edge_count (lo hi bs : Z) :
  (0 < bs)%Z -> (lo <= hi)%Z ->
  exists n : nat,
    Z.to_nat (- ((lo - (hi + bs)) / bs)) = S n /\
    (hi <= edge lo bs n)%Z /\
    ((lo < hi)%Z -> (0 < n)%nat).
Proof.
  intros Hbs Hle.
  pose proof (Z.div_mod (lo - (hi + bs)) bs ltac:(lia)) as Hdiv.
  pose proof (Z.mod_pos_bound (lo - (hi + bs)) bs Hbs) as Hmod.
  set (q := ((lo - (hi + bs)) / bs)%Z) in *.
  assert (q <= -1)%Z by nia.
  exists (Z.to_nat (- q - 1)). unfold edge. split; [lia|].
  rewrite Z2Nat.id by lia. split; [nia|]. intros Hlt.
  assert (q <= -2)%Z by nia. lia.
Qed.

Lemma edge_lt (lo bs : Z) (i j : nat) :
  (0 < bs)%Z -> (i < j)%nat -> (edge lo bs i < edge lo bs j)%Z.
Proof. unfold edge. nia. Qed.

Lemma edge_S (lo bs : Z) (i : nat) :
  edge lo bs (S i) = (edge lo bs i + bs)%Z.
Proof. unfold edge. lia. Qed.

(** On ascending edges the edges below [t] are the first ones. *)
Lemma searchsorted_left_edges (lo bs : Z) (t : Q) (n s : nat) :
  (0 < bs)%Z ->
  let c := Pd.searchsorted_left (map (edge lo bs) (seq s n)) t in
  (c <= n)%nat /\
  (forall j, (j < c)%nat -> (inject_Z (edge lo bs (s + j)) < t)%Q) /\
  (forall j, (c <= j < n)%nat -> (t <= inject_Z (edge lo bs (s + j)))%Q).
Proof.
  intros Hbs. cbn. revert s. induction n as [|n IH]; intros s.
  - cbn. split; [lia|]. split; intros; lia.
  - cbn [seq map]. unfold Pd.searchsorted_left. cbn [List.filter].
    destruct (IH (S s)) as (Hc & Hbelow & Habove).
    fold (Pd.searchsorted_left (map (edge lo bs) (seq (S s) n)) t) in *.
    set (c := Pd.searchsorted_left (map (edge lo bs) (seq (S s) n)) t) in *.
    destruct (Qltb (inject_Z (edge lo bs s)) t) eqn:Hs; Qcases; cbn [length];
      change (length (List.filter (fun b => Qltb (inject_Z b) t)
                        (map (edge lo bs) (seq (S s) n)))) with c.
    + split; [lia|]. split.
      * intros [|j] Hj; [by rewrite Nat.add_0_r|].
        replace (s + S j)%nat with (S s + j)%nat by lia. apply Hbelow. lia.
      * intros [|j] Hj; [lia|].
        replace (s + S j)%nat with (S s + j)%nat by lia. apply Habove. lia.
    + assert (c = 0)%nat as ->.
      { destruct c as [|c']; [done|]. exfalso.
        specialize (Hbelow 0%nat ltac:(lia)).
        pose proof (edge_lt lo bs s (S s + 0) Hbs ltac:(lia)) as Hlt.
        rewrite Zlt_Qlt in Hlt. lra. }
      split; [lia|]. split; [intros; lia|].
      intros j Hj. destruct (decide (j = 0%nat)) as [->|Hne];
        [by rewrite Nat.add_0_r|].
      pose proof (edge_lt lo bs s (s + j) Hbs ltac:(lia)) as Hlt.
      rewrite Zlt_Qlt in Hlt. lra.
Qed.

(** With two edges or more, a value within the edges gets the bin whose
    right-closed interval holds it. *)
Lemma cut_edges (lo bs : Z) (n : nat) (t : Q) :
  (0 < bs)%Z -> (0 < n)%nat ->
  (inject_Z lo <= t)%Q -> (t <= inject_Z (edge lo bs n))%Q ->
  exists k,
    Pd.cut (map (edge lo bs) (seq 0 (S n))) t = Some k /\
    (k < n)%nat /\
    ((inject_Z (edge lo bs k) < t)%Q /\ (t <= inject_Z (edge lo bs (S k)))%Q \/
     k = 0%nat /\ (t == inject_Z lo)%Q).
Proof.
  intros Hbs Hn Hlo Hhi.
  destruct (searchsorted_left_edges lo bs t (S n) 0 Hbs) as (Hc & Hbelow & Habove).
  unfold Pd.cut. cbn [seq map length].
  assert (edge lo bs 0 = lo) as Hedge0 by (unfold edge; lia).
  destruct (Qeq_bool t (inject_Z (edge lo bs 0))) eqn:Heq; Qcases;
    rewrite Hedge0 in Heq.
  - exists 0%nat. rewrite length_map, length_seq.
    replace (1 =? S n)%nat with false by (symmetry; apply Nat.eqb_neq; lia).
    cbn. split; [done|]. split; [lia|]. by right.
  - change (edge lo bs 0 :: map (edge lo bs) (seq 1 n))
      with (map (edge lo bs) (seq 0 (S n))).
    set (c := Pd.searchsorted_left (map (edge lo bs) (seq 0 (S n))) t) in *.
    rewrite length_map, length_seq.
    assert (c <> 0)%nat as Hc0.
    { intros Hc0. specialize (Habove 0%nat ltac:(lia)). cbn in Habove.
      rewrite Hedge0 in Habove. apply Heq. lra. }
    assert (c <> S n) as HcS.
    { intros HcS. specialize (Hbelow n ltac:(lia)). cbn in Hbelow. lra. }
    replace (c =? S n)%nat with false by (symmetry; by apply Nat.eqb_neq).
    replace (c =? 0)%nat with false by (symmetry; by apply Nat.eqb_neq).
    cbn [orb]. exists (c - 1)%nat. split; [done|]. split; [lia|]. left. split.
    + apply (Hbelow (c - 1)%nat). lia.
    + replace (S (c - 1)) with c by lia. apply (Habove c). lia.
Qed.
End edges.

(** ** The table of [groupby('bin').size()] *)

Section group_table.
Local Open Scope Z_scope.

Lemma bump_cons (k : nat) (v : Z) (k0 : nat) (c : Z) (acc : list (nat * Z)) :
  Pd.bump Nat.ltb Nat.eqb k v ((k0, c) :: acc) =
  if (k <? k0)%nat then (k, v) :: (k0, c) :: acc
  else if (k =? k0)%nat then (k0, c + v) :: acc
       else (k0, c) :: Pd.bump Nat.ltb Nat.eqb k v acc.
Proof. done. Qed.

Lemma bump_total (k k' : nat) (v : Z) (acc : list (nat * Z)) :
  total k' (Pd.bump Nat.ltb Nat.eqb k v acc) =
  total k' acc + (if (k' =? k)%nat then v else 0).
Proof.
  induction acc as [|[k0 c] acc IH].
  - cbn. lia.
  - rewrite bump_cons.
    destruct (Nat.ltb_spec k k0); [|destruct (Nat.eqb_spec k k0) as [->|Hne]];
      cbn [total].
    + lia.
    + destruct (k' =? k0)%nat; lia.
    + rewrite IH. lia.
Qed.

Lemma groupby_size_total (k : nat) (keys : list (option nat)) :
  total k (Pd.groupby_size Nat.ltb Nat.eqb keys) = Z.of_nat (count_key k keys).
Proof.
  unfold Pd.groupby_size, count_key.
  assert (forall acc,
            total k (foldl (fun acc key =>
               match key with Some k => Pd.bump Nat.ltb Nat.eqb k 1 acc | None => acc end)
               acc keys) =
            total k acc + Z.of_nat (length (List.filter (is_key k) keys))) as Hgen.
  { induction keys as [|[k0|] keys IH]; intros acc; cbn [foldl List.filter is_key].
    - cbn. lia.
    - rewrite IH, bump_total. destruct (k =? k0)%nat; cbn [length]; lia.
    - by rewrite IH. }
  by rewrite Hgen.
Qed.

Lemma bump_sorted (k : nat) (v : Z) (acc : list (nat * Z)) :
  StronglySorted key_lt acc -> StronglySorted key_lt (Pd.bump Nat.ltb Nat.eqb k v acc).
Proof.
  induction 1 as [|[k0 c] acc Hacc IH Hhd].
  - repeat constructor.
  - rewrite bump_cons.
    destruct (Nat.ltb_spec k k0); [|destruct (Nat.eqb_spec k k0) as [->|Hne]].
    + constructor; [by constructor|]. constructor; [done|].
      eapply Forall_impl; [exact Hhd|]. unfold key_lt. cbn. intros; lia.
    + constructor; [done|]. exact Hhd.
    + constructor; [done|]. apply Forall_forall. intros kc Hkc%list_elem_of_In.
      destruct (bump_keys _ _ _ _ _ _ Hkc) as [Hk|Hin].
      * unfold key_lt. cbn. lia.
      * apply in_map_iff in Hin as (kc' & Hfst & Hin).
        rewrite Forall_forall in Hhd. apply list_elem_of_In, Hhd in Hin.
        unfold key_lt in *. cbn in *. lia.
Qed.

Lemma groupby_size_sorted (keys : list (option nat)) :
  StronglySorted key_lt (Pd.groupby_size Nat.ltb Nat.eqb keys).
Proof.
  unfold Pd.groupby_size.
  assert (forall acc, StronglySorted key_lt acc ->
            StronglySorted key_lt
              (foldl (fun acc key =>
                 match key with Some k => Pd.bump Nat.ltb Nat.eqb k 1 acc | None => acc end)
                 acc keys)) as Hgen.
  { induction keys as [|[k|] keys IH]; intros acc Hacc; cbn; [done| |by apply IH].
    by apply IH, bump_sorted. }
  apply Hgen. constructor.
Qed.

Lemma total_above (k : nat) (acc : list (nat * Z)) :
  Forall (fun kc => (k < kc.1)%nat) acc -> total k acc = 0.
Proof.
  induction 1 as [|[k0 c] acc Hk _ IH]; cbn in *; [done|].
  destruct (Nat.eqb_spec k k0); [lia|]. by rewrite IH.
Qed.

Lemma sorted_total_In (k : nat) (c : Z) (acc : list (nat * Z)) :
  StronglySorted key_lt acc -> In (k, c) acc -> total k acc = c.
Proof.
  induction 1 as [|[k0 c0] acc Hacc IH Hhd]; [done|]. cbn.
  intros [[= -> ->]|Hin].
  - rewrite Nat.eqb_refl, total_above; [lia|]. exact Hhd.
  - rewrite IH by done.
    rewrite Forall_forall in Hhd. apply list_elem_of_In, Hhd in Hin.
    unfold key_lt in Hin. cbn in Hin.
    destruct (Nat.eqb_spec k k0); lia.
Qed.

Lemma total_nonzero_In (k : nat) (acc : list (nat * Z)) :
  total k acc <> 0 -> exists c, In (k, c) acc.
Proof.
  induction acc as [|[k0 c0] acc IH]; cbn; [done|].
  destruct (Nat.eqb_spec k k0) as [->|Hne].
  - intros _. exists c0. by left.
  - intros Hacc. destruct IH as [c Hc]; [lia|]. exists c. by right.
Qed.

(** A key of the column has its row in the table, with the number of its
    occurrences. *)
Lemma groupby_size_row (k : nat) (keys : list (option nat)) :
  In (Some k) keys ->
  In (k, Z.of_nat (count_key k keys)) (Pd.groupby_size Nat.ltb Nat.eqb keys).
Proof.
  intros Hk.
  assert (0 < count_key k keys)%nat as Hpos.
  { unfold count_key. induction keys as [|key keys IH]; [done|].
    cbn. destruct Hk as [->|Hk]; cbn.
    - rewrite Nat.eqb_refl. cbn. lia.
    - specialize (IH Hk). destruct (is_key k key); cbn; lia. }
  destruct (total_nonzero_In k (Pd.groupby_size Nat.ltb Nat.eqb keys)) as [c Hc].
  { rewrite groupby_size_total. lia. }
  pose proof (sorted_total_In k c _ (groupby_size_sorted keys) Hc) as Htotal.
  rewrite groupby_size_total in Htotal. by rewrite Htotal.
Qed.
End group_table.

Section intervals.
Context (lo bs : Z) (Hbs : (0 < bs)%Z).

Lemma edge_ge (k : nat) : (lo <= edge lo bs k)%Z.
Proof. unfold edge. nia. Qed.

Lemma edge_lo (k : nat) : edge lo bs k = lo <-> k = 0%nat.
Proof. unfold edge. split; [nia|intros ->; lia]. Qed.

Lemma interval_unique (k k' : nat) (t : Q) :
  interval lo bs k t -> interval lo bs k' t -> k = k'.
Proof.
  pose proof (edge_ge k) as Hk. pose proof (edge_ge k') as Hk'.
  rewrite Zle_Qle in Hk, Hk'.
  intros [[H1 H2]|[-> H1]] [[H3 H4]|[-> H3]]; [|lra|lra|done].
  assert (inject_Z (edge lo bs k) < inject_Z (edge lo bs (S k')))%Q as Ha by lra.
  assert (inject_Z (edge lo bs k') < inject_Z (edge lo bs (S k)))%Q as Hb by lra.
  rewrite <- Zlt_Qlt in Ha, Hb. unfold edge in Ha, Hb. nia.
Qed.

Lemma interval_in_bin (chat_df : list CommentRecord.t) (row : TimeBin.t)
    (k : nat) (t : Q) :
  lo = Qfloor (CommentAnalyzer.min_time chat_df) ->
  TimeBin.bin_start row = edge lo bs k ->
  TimeBin.bin_end row = edge lo bs (S k) ->
  in_bin chat_df row t = true <-> interval lo bs k t.
Proof.
  intros Hlo Hstart Hend. unfold in_bin, interval.
  rewrite Hstart, Hend, <- Hlo.
  rewrite orb_true_iff, !andb_true_iff, Qltb_lt, Qleb_le, Qeq_bool_iff, Z.eqb_eq,
    edge_lo.
  split; (intros [H|[H1 H2]]; [by left|right]).
  - subst k. split; [done|]. rewrite H1. unfold edge.
    replace (lo + Z.of_nat 0 * bs)%Z with lo by lia. reflexivity.
  - subst k. split; [|done]. rewrite H2. unfold edge.
    replace (lo + Z.of_nat 0 * bs)%Z with lo by lia. reflexivity.
Qed.
End intervals.

(** ** Where [bin_comments_by_time] counts a record *)

Section placement.
Import CommentAnalyzer.

Lemma bin_comments_by_time_eq (chat_df : list CommentRecord.t) (bs : Z) :
  chat_df <> [] -> (0 < bs)%Z ->
  bin_comments_by_time chat_df bs =
  rows ← for_each (bin_row (bin_edges chat_df bs) bs)
                  (Pd.groupby_size Nat.ltb Nat.eqb (bin_column chat_df bs));
  mret (sort_by (fun a b => (TimeBin.bin_start a <=? TimeBin.bin_start b)%Z) rows).
Proof.
  intros Hne Hbs. unfold bin_comments_by_time.
  rewrite binning_error_positive by done. by destruct chat_df.
Qed.

Lemma edges_lookup (lo bs : Z) (m i : nat) :
  (i < m)%nat -> map (edge lo bs) (seq 0 m) !! i = Some (edge lo bs i).
Proof.
  intros Hi. change (map (edge lo bs) (seq 0 m)) with (edge lo bs <$> seq 0 m).
  by rewrite list_lookup_fmap, lookup_seq_lt.
Qed.

Lemma Forall2_In_l {A B} (P : A -> B -> Prop) (l : list A) (l' : list B) (x : A) :
  Forall2 P l l' -> In x l -> exists y, In y l' /\ P x y.
Proof.
  induction 1 as [|a b l l' Hab _ IH]; [done|].
  intros [<-|Hx]; [exists b; by split; [left|]|].
  destruct (IH Hx) as (y & Hy & Hxy). exists y. by split; [right|].
Qed.

(** With timestamps that do not all sit on one whole second there are at
    least two edges, and the last one is not below the greatest
    timestamp. *)
Lemma bin_edges_shape (chat_df : list CommentRecord.t) (bs : Z) :
  (0 < bs)%Z ->
  (Qfloor (min_time chat_df) < Qceiling (max_time chat_df))%Z ->
  exists n : nat,
    (0 < n)%nat /\
    bin_edges chat_df bs = map (edge (Qfloor (min_time chat_df)) bs) (seq 0 (S n)) /\
    (Qceiling (max_time chat_df) <= edge (Qfloor (min_time chat_df)) bs n)%Z.
Proof.
  intros Hbs Hlt.
  destruct (edge_count (Qfloor (min_time chat_df)) (Qceiling (max_time chat_df)) bs)
    as (n & Hn & Hlast & Hpos); [done|lia|].
  exists n. split; [by apply Hpos|]. split; [|done].
  unfold bin_edges. by rewrite arange_edges, Hn.
Qed.

Lemma cut_bin_edges (chat_df : list CommentRecord.t) (bs : Z) (n : nat)
    (r : CommentRecord.t) :
  let lo := Qfloor (min_time chat_df) in
  (0 < bs)%Z -> (0 < n)%nat ->
  (Qceiling (max_time chat_df) <= edge lo bs n)%Z ->
  In r chat_df ->
  exists k,
    Pd.cut (map (edge lo bs) (seq 0 (S n))) (CommentRecord.timestamp_sec r) = Some k /\
    (k < n)%nat /\
    interval lo bs k (CommentRecord.timestamp_sec r).
Proof.
  intros lo Hbs Hn Hlast Hr. apply cut_edges; [done|done| |].
  - pose proof (Qfloor_le (min_time chat_df)). pose proof (min_time_le _ _ Hr).
    subst lo. lra.
  - pose proof (Qle_ceiling (max_time chat_df)). pose proof (max_time_ge _ _ Hr).
    rewrite Zle_Qle in Hlast. lra.
Qed.
End placement.

(** C1, as the code has it.  For a non-empty frame whose timestamps do not
    all sit on one whole second and a positive bin size,
    [bin_comments_by_time] counts each record, of timestamp [t], in the
    returned bin of start [b = floor(min) + k * bin_size] and end
    [b + bin_size] with [b < t <= b + bin_size], or with [t = b] when the
    bin is the first one: the bins are closed on the right and open on the
    left, [(start, end]], the first closed on both sides, so that a record on
    an interior edge is counted in the bin that ends there.  The bin's count
    is the number of records in that interval. *)
Theorem bin_comments_by_time_placement (chat_df : list CommentRecord.t)
    (bin_size_seconds : Z) :
  chat_df <> [] ->
  (0 < bin_size_seconds)%Z ->
  (Qfloor (CommentAnalyzer.min_time chat_df)
   < Qceiling (CommentAnalyzer.max_time chat_df))%Z ->
  exists binned_df,
    CommentAnalyzer.bin_comments_by_time chat_df bin_size_seconds = Ok binned_df /\
    forall r, In r chat_df ->
      let t := CommentRecord.timestamp_sec r in
      exists (k : nat) (row : TimeBin.t),
        In row binned_df /\
        TimeBin.bin_start row =
          (Qfloor (CommentAnalyzer.min_time chat_df) + Z.of_nat k * bin_size_seconds)%Z /\
        TimeBin.bin_end row = (TimeBin.bin_start row + bin_size_seconds)%Z /\
        ((inject_Z (TimeBin.bin_start row) < t)%Q \/
         k = 0%nat /\ (t == inject_Z (TimeBin.bin_start row))%Q) /\
        (t <= inject_Z (TimeBin.bin_end row))%Q /\
        TimeBin.count row =
          Z.of_nat (length (List.filter
                              (fun r' => in_bin chat_df row (CommentRecord.timestamp_sec r'))
                              chat_df)).
Proof.
  intros Hne Hbs Hlt.
  destruct (bin_comments_by_time_returns chat_df bin_size_seconds Hbs) as [binned Hbinned].
  exists binned. split; [done|]. intros r Hr t.
  rewrite bin_comments_by_time_eq in Hbinned by done.
  apply bind_Ok in Hbinned as (rows & Hrows & [= <-]).
  apply for_each_Ok in Hrows.
  destruct (bin_edges_shape chat_df bin_size_seconds Hbs Hlt) as (n & Hn & Hbins & Hlast).
  set (lo := Qfloor (CommentAnalyzer.min_time chat_df)) in *.
  destruct (cut_bin_edges chat_df bin_size_seconds n r Hbs Hn Hlast Hr)
    as (k & Hcut & Hk & Hint).
  fold lo in Hcut, Hint.
  assert (In (Some k) (CommentAnalyzer.bin_column chat_df bin_size_seconds)) as Hkey.
  { unfold CommentAnalyzer.bin_column. rewrite Hbins.
    apply in_map_iff. exists r. by split. }
  apply groupby_size_row in Hkey.
  destruct (Forall2_In_l _ _ _ _ Hrows Hkey) as (row & Hrow & Hbin).
  unfold CommentAnalyzer.bin_row, Py.index in Hbin. cbn [fst snd] in Hbin.
  rewrite Hbins, !edges_lookup in Hbin by lia. cbn in Hbin. injection Hbin as <-.
  eexists k, _. split; [apply sort_by_In; exact Hrow|].
  cbn [TimeBin.bin_start TimeBin.bin_end TimeBin.count fst snd].
  rewrite Nat.add_1_r, edge_S.
  split; [done|]. split; [done|].
  assert (t <= inject_Z (edge lo bin_size_seconds k + bin_size_seconds))%Q as Hend.
  { rewrite <- edge_S. destruct Hint as [[_ Hle]|[-> Heq]]; [done|].
    subst t. rewrite Heq, <- Zle_Qle. unfold edge. lia. }
  split; [|split; [done|]].
  - destruct Hint as [[Hlo _]|[-> Heq]]; [by left|right]. split; [done|].
    subst t. rewrite Heq. unfold edge. by replace (lo + Z.of_nat 0 * bin_size_seconds)%Z
      with lo by lia.
  - f_equal. unfold count_key, CommentAnalyzer.bin_column.
    rewrite filter_map_swap, length_map. f_equal.
    apply filter_ext_in. intros r' Hr'.
    destruct (cut_bin_edges chat_df bin_size_seconds n r' Hbs Hn Hlast Hr')
      as (k' & Hcut' & _ & Hint').
    fold lo in Hcut', Hint'. rewrite Hbins, Hcut'. cbn [is_key].
    apply eq_true_iff_eq. rewrite Nat.eqb_eq.
    rewrite (interval_in_bin lo bin_size_seconds Hbs chat_df _ k);
      [|done|done|cbn; by rewrite edge_S].
    split; [by intros ->|]. intros Hint''. by eapply interval_unique.
Qed.

(** The record on the edge 10 is counted in the bin [0, 10], not in a bin
    that starts at 10: the placement of half-open bins fails for it. *)
Lemma boundary_comment_not_half_open :
  exists binned_df,
    CommentAnalyzer.bin_comments_by_time boundary_chat 10 = Ok binned_df /\
    bin_triples binned_df = [(0, 10, 2); (20, 30, 1)]%Z /\
    ~ placed_half_open binned_df 10.
Proof.
  eexists. split; [by vm_compute|]. split; [done|].
  intros (row & Hrow & Hstart & Hend).
  destruct Hrow as [<-|[<-|[]]]; cbn in Hstart, Hend.
  - destruct Hend as [Hend|[_ Hlast]]; [|done].
    revert Hend. by vm_compute.
  - revert Hstart. vm_compute. by intros Hc.
Qed.

Lemma bin_comments_by_time_placement_witness :
  boundary_chat <> [] /\
  (0 < 10)%Z /\
  (Qfloor (CommentAnalyzer.min_time boundary_chat)
   < Qceiling (CommentAnalyzer.max_time boundary_chat))%Z /\
  exists binned_df,
    CommentAnalyzer.bin_comments_by_time boundary_chat 10 = Ok binned_df /\
    forall r, In r boundary_chat ->
      let t := CommentRecord.timestamp_sec r in
      exists (k : nat) (row : TimeBin.t),
        In row binned_df /\
        TimeBin.bin_start row =
          (Qfloor (CommentAnalyzer.min_time boundary_chat) + Z.of_nat k * 10)%Z /\
        TimeBin.bin_end row = (TimeBin.bin_start row + 10)%Z /\
        ((inject_Z (TimeBin.bin_start row) < t)%Q \/
         k = 0%nat /\ (t == inject_Z (TimeBin.bin_start row))%Q) /\
        (t <= inject_Z (TimeBin.bin_end row))%Q /\
        TimeBin.count row =
          Z.of_nat (length (List.filter
                              (fun r' => in_bin boundary_chat row
                                           (CommentRecord.timestamp_sec r'))
                              boundary_chat)).
Proof.
  assert (boundary_chat <> []) as H1 by discriminate.
  assert (0 < 10)%Z as H2 by reflexivity.
  assert (Qfloor (CommentAnalyzer.min_time boundary_chat)
          < Qceiling (CommentAnalyzer.max_time boundary_chat))%Z as H3 by reflexivity.
  exact (conj H1 (conj H2 (conj H3
           (bin_comments_by_time_placement boundary_chat 10 H1 H2 H3)))).
Defined.

(** The scenario of spec section 8 does not come out as described: the
    bins of the test frame are not [0, 30) and [90, 120); the 75th
    percentile of the counts 3 and 4 is not 3.25; and [find_peaks] over the
    two bins does not return two peaks. *)
Lemma scenario_as_described_fails :
  (forall binned_df,
      CommentAnalyzer.bin_comments_by_time test_chat 30 = Ok binned_df ->
      bin_triples binned_df <> [(0, 30, 4); (90, 120, 3)]%Z) /\
  (forall threshold,
      Np.percentile [4; 3]%Z 75 = Ok threshold -> ~ (threshold == 3.25)%Q) /\
  (forall peaks,
      CommentAnalyzer.find_peaks scenario_bins 75 30 = Ok peaks ->
      length peaks <> 2%nat).
Proof.
  split; [|split].
  - intros binned_df. vm_compute. by intros [= <-].
  - intros threshold. vm_compute. by intros [= <-].
  - intros peaks. vm_compute. by intros [= <-].
Qed.

(** C2, as the code has it.  For comments at 10, 15, 20, 25, 100, 105 and
    110 and a bin size of 30, the edges start at floor(10) = 10 and
    [bin_comments_by_time] returns the bins 10-40 with count 4, 70-100 with
    count 1 and 100-130 with count 2.  Over the two bins 0-30 (count 4) and
    90-120 (count 3), with percentile 75 and gap 30, the threshold is 3.75,
    only the bin of count 4 reaches it, and [find_peaks] returns that one
    peak. *)
Theorem scenario_bins_and_peaks :
  CommentAnalyzer.bin_comments_by_time test_chat 30 =
    Ok [ time_bin 10 40 4 30; time_bin 70 100 1 30; time_bin 100 130 2 30 ] /\
  Np.percentile (map TimeBin.count scenario_bins) 75 = Ok 3.75%Q /\
  CommentAnalyzer.peak_rows scenario_bins 75 = Ok [ time_bin 0 30 4 30 ] /\
  CommentAnalyzer.find_peaks scenario_bins 75 30 = Ok [ peak_of (time_bin 0 30 4 30) ].
Proof. repeat split; by vm_compute. Qed.


Ltac compiles_all :=
  unfold ClipGenerator.default_reaction_keywords, SubtitleAnalyzer.default_topic_keywords;
  repeat first [ apply List.Forall_nil
               | apply List.Forall_cons; [eexists; by vm_compute|] ].

Lemma test_patterns_compile :
  @patterns_compile literal_engine test_generator None.
Proof. split; intros _; cbn [default]; compiles_all. Defined.


Lemma generate_candidates_score_bounds_witness :
  exists out,
    @ClipGenerator.generate_candidates literal_engine Binary64.arith
      test_generator 30 180 None = Ok out /\
    length out = 2%nat /\
    Forall score_ok out.
Proof.
  eexists. split; [by vm_compute|]. split; [done|].
  apply (@generate_candidates_score_bounds literal_engine Binary64.arith
           test_generator 30 180 None).
  by vm_compute.
Defined.

(** C5 on one comment at second 10 with 10-second bins: there is a single
    edge, [pd.cut] gives the record no bin, and the table returned is empty;
    its counts sum to 0 while the frame has one record. *)
Theorem single_comment_on_whole_second_dropped :
  CommentAnalyzer.bin_edges single_chat 10 = [10%Z] /\
  CommentAnalyzer.bin_column single_chat 10 = [None] /\
  CommentAnalyzer.bin_comments_by_time single_chat 10 = Ok [] /\
  length single_chat = 1%nat.
Proof. repeat split; by vm_compute. Qed.

Lemma find_peaks_representative_witness :
  peak_groups adjacent_bins 0 30 =
    Ok [ [ time_bin 0 10 5 10; time_bin 10 20 9 10; time_bin 20 30 7 10 ];
         [ time_bin 100 110 6 10 ] ] /\
  exists peaks,
    CommentAnalyzer.find_peaks adjacent_bins 0 30 = Ok peaks /\
    Forall2 representative
      [ [ time_bin 0 10 5 10; time_bin 10 20 9 10; time_bin 20 30 7 10 ];
        [ time_bin 100 110 6 10 ] ] peaks.
Proof.
  assert (peak_groups adjacent_bins 0 30 =
            Ok [ [ time_bin 0 10 5 10; time_bin 10 20 9 10; time_bin 20 30 7 10 ];
                 [ time_bin 100 110 6 10 ] ]) as Hgroups by (by vm_compute).
  exact (conj Hgroups (find_peaks_representative adjacent_bins 0 30 _ Hgroups)).
Defined.

Lemma test_subtitles_no_silence : @no_silence Binary64.arith 10 test_subtitles.
Proof.
  intros i current next Hcurrent Hnext.
  do 6 (destruct i as [|i];
        [cbn in Hcurrent, Hnext; try discriminate;
         injection Hcurrent as <-; injection Hnext as <-; by vm_compute|]).
  discriminate.
Defined.

Lemma segment_by_silence_no_silence_witness :
  head test_subtitles = Some (subtitle 0 4 "こんにちは") /\
  last test_subtitles = Some (subtitle 30 4 "ありがとうございました") /\
  @no_silence Binary64.arith 10 test_subtitles /\
  @SubtitleAnalyzer.segment_by_silence Binary64.arith test_subtitles 10 30 =
  Ok (if Qleb 30 (@fsub Binary64.arith
                    (SubtitleRecord.end_ (subtitle 30 4 "ありがとうございました"))
                    (SubtitleRecord.start (subtitle 0 4 "こんにちは")))
      then [ @whole_segment Binary64.arith test_subtitles (subtitle 0 4 "こんにちは")
                            (subtitle 30 4 "ありがとうございました") ]
      else []).
Proof.
  exact (conj eq_refl (conj eq_refl (conj test_subtitles_no_silence
           (@segment_by_silence_no_silence Binary64.arith test_subtitles 10 30 _ _
              eq_refl eq_refl test_subtitles_no_silence)))).
Defined.

Lemma test_text_messages : text_messages test_generator.
Proof. intros chat_df [= <-]. reflexivity. Defined.

Lemma generate_candidates_never_raises_witness :
  @patterns_compile literal_engine test_generator None /\
  text_messages test_generator /\
  (forall chat_df keywords case_sensitive,
     ClipGenerator.comment_analyzer test_generator = Some chat_df ->
     @CommentAnalyzer.count_keywords_on literal_engine
       (CommentAnalyzer.message_dtype chat_df) chat_df keywords case_sensitive
     = @CommentAnalyzer.count_keywords literal_engine chat_df keywords case_sensitive) /\
  returns (@ClipGenerator.generate_candidates literal_engine Binary64.arith
             test_generator 30 180 None) /\
  @ClipGenerator.generate_candidates literal_engine Binary64.arith
    {| ClipGenerator.comment_analyzer := None; ClipGenerator.subtitle_analyzer := None |}
    30 180 None = Ok [] /\
  @ClipGenerator.generate_candidates literal_engine Binary64.arith
    {| ClipGenerator.comment_analyzer := Some [];
       ClipGenerator.subtitle_analyzer := Some [] |}
    30 180 None = Ok [].
Proof.
  exact (conj test_patterns_compile (conj test_text_messages
           (@generate_candidates_never_raises literal_engine Binary64.arith
              test_generator 30 180 None test_patterns_compile test_text_messages))).
Defined.

(** A reaction keyword that is no regular expression makes the call raise
    [re.error]: the sources are those of the other tests, the keyword is an
    unbalanced parenthesis. *)
Lemma generate_candidates_raises_on_keyword :
  @ClipGenerator.generate_candidates literal_engine Binary64.arith
    test_generator 30 180 (Some ["("]) = Raise ReError /\
  ~ returns (@ClipGenerator.generate_candidates literal_engine Binary64.arith
               test_generator 30 180 (Some ["("])).
Proof.
  assert (@ClipGenerator.generate_candidates literal_engine Binary64.arith
            test_generator 30 180 (Some ["("]) = Raise ReError) as Hraise
    by (by vm_compute).
  split; [done|]. rewrite Hraise. by intros [out Hout].
Qed.

Lemma analyzers_leave_caller_frame_witness :
  let frame := Store.Chat {| Store.chat_rows := test_chat; Store.bin := None |} in
  test_heap !! 1%positive = Some frame /\
  (exists h1 analyzer,
      Store.CommentAnalyzer_init test_heap 1%positive = Some (h1, analyzer) /\
      forall calls, Store.comment_run analyzer calls h1 !! 1%positive = Some frame) /\
  (exists h1 analyzer,
      Store.SubtitleAnalyzer_init test_heap 1%positive = Some (h1, analyzer) /\
      forall calls, Store.subtitle_run analyzer calls h1 !! 1%positive = Some frame).
Proof.
  intros frame.
  assert (test_heap !! 1%positive = Some frame) as Hframe by reflexivity.
  exact (conj Hframe (analyzers_leave_caller_frame test_heap 1%positive frame Hframe)).
Defined.

Lemma count_keywords_skips_missing_messages_witness :
  text_column missing_message_chat /\
  @CommentAnalyzer.count_keywords_on literal_engine
    (CommentAnalyzer.message_dtype missing_message_chat) missing_message_chat
    ["草"; "w"] false
  = @CommentAnalyzer.count_keywords literal_engine
      (List.filter has_message missing_message_chat) ["草"; "w"] false /\
  (forall hits,
     @CommentAnalyzer.count_keywords_on literal_engine
       (CommentAnalyzer.message_dtype missing_message_chat) missing_message_chat
       ["草"; "w"] false = Ok hits ->
     Forall (fun h => KeywordHit.message h <> None) hits) /\
  (Forall (@compiles literal_engine (negb false)) ["草"; "w"] ->
   returns (@CommentAnalyzer.count_keywords_on literal_engine
              (CommentAnalyzer.message_dtype missing_message_chat) missing_message_chat
              ["草"; "w"] false)).
Proof.
  assert (text_column missing_message_chat) as Hcol by reflexivity.
  exact (conj Hcol (@count_keywords_skips_missing_messages literal_engine
                      missing_message_chat ["草"; "w"] false Hcol)).
Defined.

(** C10 on a batch of one record whose message is missing.  The column is
    a [float64] column, the [.str] accessor refuses it, and [count_keywords]
    raises [AttributeError]: the record aborts the call, although
    [na=False] is there to pass over it.  With one text in the column the
    same record is passed over. *)
Theorem all_missing_messages_abort :
  CommentAnalyzer.message_dtype nan_chat = CommentAnalyzer.float64 /\
  @CommentAnalyzer.count_keywords_on literal_engine
    (CommentAnalyzer.message_dtype nan_chat) nan_chat ["草"] false
  = Raise AttributeError /\
  @CommentAnalyzer.count_keywords_on literal_engine
    (CommentAnalyzer.message_dtype (comment 10 "User1" "草" :: nan_chat))
    (comment 10 "User1" "草" :: nan_chat) ["草"] false
  = Ok [ {| KeywordHit.keyword := "草"; KeywordHit.timestamp_sec := 10;
            KeywordHit.message := Some "草" |} ].
Proof. repeat split; by vm_compute. Qed.

(** ** The table of bins, away from the single-edge case *)

Section table.
Import CommentAnalyzer.
Local Open Scope Z_scope.

Lemma bump_sum {K} (ltb eqb : K -> K -> bool) (k : K) (v : Z) (acc : list (K * Z)) :
  sum_counts (map snd (Pd.bump ltb eqb k v acc)) = sum_counts (map snd acc) + v.
Proof.
  induction acc as [|[k0 c] acc IH]; cbn; [lia|].
  destruct (ltb k k0); [|destruct (eqb k k0)]; cbn; [lia|lia|].
  unfold sum_counts in IH. rewrite IH. lia.
Qed.

Lemma groupby_size_sum {K} (ltb eqb : K -> K -> bool) (keys : list (option K)) :
  Forall is_Some keys ->
  sum_counts (map snd (Pd.groupby_size ltb eqb keys)) = Z.of_nat (length keys).
Proof.
  intros Hkeys. unfold Pd.groupby_size.
  assert (forall acc,
            sum_counts (map snd (foldl (fun acc key =>
               match key with Some k => Pd.bump ltb eqb k 1 acc | None => acc end)
               acc keys)) =
            sum_counts (map snd acc) + Z.of_nat (length keys)) as Hgen.
  { induction Hkeys as [|key keys [k ->] _ IH]; intros acc; cbn [foldl length].
    - lia.
    - rewrite IH, bump_sum. lia. }
  by rewrite Hgen.
Qed.

Lemma StronglySorted_weaken {A} (R S : A -> A -> Prop) (l : list A) :
  (forall a b, R a b -> S a b) -> StronglySorted R l -> StronglySorted S l.
Proof.
  intros HRS. induction 1 as [|x l _ IH Hx]; constructor; [done|].
  eapply Forall_impl; [exact Hx|]. auto.
Qed.

Lemma sort_by_sorted {A} (leb : A -> A -> bool) (l : list A) :
  StronglySorted (fun a b => leb a b = true) l -> sort_by leb l = l.
Proof.
  induction 1 as [|x l Hl IH Hx]; [done|].
  change (sort_by leb (x :: l)) with (insert_by leb x (sort_by leb l)).
  rewrite IH. destruct l as [|y l]; [done|]. cbn.
  inversion Hx as [|? ? Hxy _]; subst. by rewrite Hxy.
Qed.

(** The rows built from a table with ascending keys are in time order. *)
Lemma bin_rows_sorted (lo bs : Z) (n : nat) (groups : list (nat * Z))
    (rows : list TimeBin.t) :
  0 < bs ->
  StronglySorted key_lt groups ->
  Forall2 (fun g row => bin_row (map (edge lo bs) (seq 0 (S n))) bs g = Ok row)
          groups rows ->
  StronglySorted (fun a b => TimeBin.bin_start a <= TimeBin.bin_start b /\ bin_before a b)
                 rows /\
  Forall2 (fun g row =>
             TimeBin.bin_start row = edge lo bs g.1 /\
             TimeBin.bin_end row = TimeBin.bin_start row + bs /\
             TimeBin.count row = g.2) groups rows.
Proof.
  intros Hbs Hsorted Hrows.
  assert (Forall2 (fun (g : nat * Z) row =>
             TimeBin.bin_start row = edge lo bs g.1 /\
             TimeBin.bin_end row = TimeBin.bin_start row + bs /\
             TimeBin.count row = g.2) groups rows) as Hfields.
  { eapply Forall2_impl; [exact Hrows|]. intros g row Hrow.
    unfold bin_row, Py.index in Hrow.
    destruct (decide (g.1 + 1 < S n)%nat) as [Hlt|Hge].
    - rewrite !edges_lookup in Hrow by lia. cbn in Hrow. injection Hrow as <-.
      cbn. by rewrite Nat.add_1_r, edge_S.
    - destruct (_ !! g.1); [|done]. cbn in Hrow.
      rewrite (lookup_ge_None_2 _ (g.1 + 1)) in Hrow; [done|].
      cbn [length]. rewrite length_map, length_seq. lia. }
  split; [|done]. clear Hrows.
  induction Hfields as [|g row groups rows (Hs & He & _) Hfields IH]; [constructor|].
  inversion Hsorted as [|? ? Hsorted' Hg]; subst.
  constructor; [by apply IH|].
  clear IH Hsorted Hsorted'.
  induction Hfields as [|g' row' groups rows (Hs' & _ & _) _ IH']; [done|].
  inversion Hg as [|? ? Hlt Hg']; subst.
  constructor; [|by apply IH'].
  unfold bin_before. rewrite He, Hs, Hs'. unfold key_lt in Hlt.
  rewrite <- edge_S. unfold edge. nia.
Qed.

(** For a non-empty frame whose timestamps do not all sit on one whole
    second and a positive bin size: the bins come in time order without
    overlap, each is [bin_size_seconds] wide and counts at least one record,
    and the counts add up to the number of records. *)
Lemma bin_comments_by_time_table (chat_df : list CommentRecord.t) (bs : Z) :
  chat_df <> [] -> 0 < bs ->
  Qfloor (min_time chat_df) < Qceiling (max_time chat_df) ->
  exists binned_df,
    bin_comments_by_time chat_df bs = Ok binned_df /\
    StronglySorted bin_before binned_df /\
    Forall (fun b => TimeBin.bin_end b = TimeBin.bin_start b + bs /\ 0 < TimeBin.count b)
           binned_df /\
    sum_counts (map TimeBin.count binned_df) = Z.of_nat (length chat_df).
Proof.
  intros Hne Hbs Hlt.
  destruct (bin_comments_by_time_returns chat_df bs Hbs) as [binned Hbinned].
  exists binned. split; [done|].
  pose proof (bin_comments_by_time_positive _ _ _ Hbinned) as Hpos.
  rewrite bin_comments_by_time_eq in Hbinned by done.
  apply bind_Ok in Hbinned as (rows & Hrows & [= <-]).
  apply for_each_Ok in Hrows.
  destruct (bin_edges_shape chat_df bs Hbs Hlt) as (n & Hn & Hbins & Hlast).
  rewrite Hbins in Hrows.
  destruct (bin_rows_sorted _ bs n _ _ Hbs (groupby_size_sorted _) Hrows)
    as [Hsorted Hfields].
  rewrite sort_by_sorted in Hpos |- *;
    try (eapply StronglySorted_weaken; [|exact Hsorted];
         intros a b [Hab _]; by apply Z.leb_le).
  split; [eapply StronglySorted_weaken; [|exact Hsorted]; by intros a b [_ Hab]|].
  split.
  - apply Forall_forall. intros b Hb. split.
    + apply list_elem_of_In in Hb.
      clear -Hfields Hb. induction Hfields as [|g row gs rows (_ & He & _) _ IH]; [done|].
      destruct Hb as [<-|Hb]; auto.
    + rewrite Forall_forall in Hpos. by apply Hpos.
  - replace (map TimeBin.count rows)
      with (map snd (Pd.groupby_size Nat.ltb Nat.eqb (bin_column chat_df bs))).
    + rewrite groupby_size_sum; [by unfold bin_column; rewrite length_map|].
      unfold bin_column. apply Forall_forall. intros key Hkey%list_elem_of_In.
      apply in_map_iff in Hkey as (r & <- & Hr). rewrite Hbins.
      destruct (cut_bin_edges chat_df bs n r Hbs Hn Hlast Hr) as (k & -> & _). by eexists.
    + clear -Hfields. induction Hfields as [|g row gs rows (_ & _ & Hc) _ IH]; [done|].
      cbn. by rewrite IH, Hc.
Qed.
End table.

(** ** Video ids *)

Section video_ids.
Import ChatFetcher.

Lemma append_cons (c : Ascii.ascii) (s1 s2 : string) :
  String c s1 +:+ s2 = String c (s1 +:+ s2).
Proof. done. Qed.

Lemma append_nil (s : string) : EmptyString +:+ s = s.
Proof. done. Qed.

Lemma append_nil_r (s : string) : s +:+ EmptyString = s.
Proof. induction s as [|c s IH]; [done|]. by rewrite append_cons, IH. Qed.

Lemma strip_prefix_app (literal s : string) :
  strip_prefix literal (literal +:+ s) = Some s.
Proof.
  induction literal as [|c literal IH]; [done|].
  rewrite append_cons. cbn [strip_prefix]. by rewrite Ascii.eqb_refl.
Qed.

Lemma strip_prefix_Some (literal s rest : string) :
  strip_prefix literal s = Some rest -> s = literal +:+ rest.
Proof.
  revert s. induction literal as [|c literal IH]; intros s; cbn [strip_prefix].
  - by intros [= ->].
  - destruct s as [|d s]; [done|].
    destruct (Ascii.eqb_spec c d) as [->|]; [|done].
    intros Hs. by rewrite append_cons, (IH _ Hs).
Qed.

Lemma id_chars_app (n : nat) (matched rest s : string) :
  id_chars n matched = Some (matched, EmptyString) ->
  id_chars n (matched +:+ s) = Some (matched, s).
Proof.
  revert matched. induction n as [|n IH]; intros matched; cbn.
  - by intros [= <-].
  - destruct matched as [|c matched]; [done|]. rewrite append_cons. cbn [id_chars].
    destruct (is_id_char c); [|done].
    destruct (id_chars n matched) as [[m r]|] eqn:Hm; [|done].
    intros [= -> ->]. by rewrite (IH _ Hm).
Qed.

Lemma id_chars_matched (n : nat) (s matched rest : string) :
  id_chars n s = Some (matched, rest) ->
  s = matched +:+ rest /\
  id_chars n matched = Some (matched, EmptyString) /\
  id_text matched = true.
Proof.
  revert s matched rest. induction n as [|n IH]; intros s matched rest; cbn.
  - by intros [= <- <-].
  - destruct s as [|c s]; [done|].
    destruct (is_id_char c) eqn:Hc; [|done].
    destruct (id_chars n s) as [[m r]|] eqn:Hs; [|done].
    intros [= <- <-]. destruct (IH _ _ _ Hs) as (-> & Hm & Htext).
    rewrite append_cons. cbn [id_chars id_text]. by rewrite Hc, Hm, Htext.
Qed.

Lemma group_after_valid (literal s video_id : string) :
  group_after literal s = Some video_id -> valid_id video_id.
Proof.
  unfold group_after. destruct (strip_prefix literal s) as [rest|]; [|done].
  destruct (id_chars 11 rest) as [[m r]|] eqn:Hm; [|done].
  intros [= <-]. by destruct (id_chars_matched _ _ _ _ Hm) as (_ & ? & _).
Qed.

Lemma group_after_Some (literal s video_id : string) :
  group_after literal s = Some video_id ->
  valid_id video_id /\ exists rest, s = literal +:+ video_id +:+ rest.
Proof.
  unfold group_after. destruct (strip_prefix literal s) as [rest|] eqn:Hrest; [|done].
  destruct (id_chars 11 rest) as [[m r]|] eqn:Hm; [|done].
  intros [= <-]. destruct (id_chars_matched _ _ _ _ Hm) as (-> & Hvalid & _).
  split; [done|]. exists r. by apply strip_prefix_Some.
Qed.

Lemma group_after_app (literal video_id s : string) :
  valid_id video_id ->
  group_after literal (literal +:+ video_id +:+ s) = Some video_id.
Proof.
  intros Hid. unfold group_after.
  by rewrite strip_prefix_app, (id_chars_app 11 video_id EmptyString s Hid).
Qed.

Lemma search_found (pattern : string -> option string) (s group : string) :
  search pattern s = Some group ->
  exists before after, s = before +:+ after /\ pattern after = Some group.
Proof.
  induction s as [|c s IH]; cbn.
  - destruct (pattern EmptyString) eqn:Hp; [|done].
    intros [= <-]. by exists EmptyString, EmptyString.
  - destruct (pattern (String c s)) eqn:Hp.
    + intros [= <-]. by exists EmptyString, (String c s).
    + intros Hs. destruct (IH Hs) as (before & after & -> & Hafter).
      by exists (String c before), after.
Qed.

(** A text of id characters and newlines holds none of the three
    literals: each has a dot or a slash. *)
Lemma id_text_app (s1 s2 : string) :
  id_text (s1 +:+ s2) = id_text s1 && id_text s2.
Proof.
  induction s1 as [|c s1 IH]; [done|].
  rewrite append_cons. cbn [id_text]. rewrite IH. by rewrite andb_assoc.
Qed.

Lemma group_after_id_text (literal s : string) :
  id_text literal = false -> id_text s = true -> group_after literal s = None.
Proof.
  intros Hliteral Hs. unfold group_after.
  destruct (strip_prefix literal s) as [rest|] eqn:Hrest; [|done].
  apply strip_prefix_Some in Hrest. subst s.
  rewrite id_text_app, Hliteral in Hs. done.
Qed.

Lemma search_id_text (pattern : string -> option string) (s : string) :
  (forall s', id_text s' = true -> pattern s' = None) ->
  id_text s = true -> search pattern s = None.
Proof.
  intros Hp. induction s as [|c s IH]; intros Hs; cbn.
  - by rewrite Hp.
  - rewrite (Hp _ Hs). cbn in Hs. apply andb_true_iff in Hs as [_ Hs]. by apply IH.
Qed.

Lemma watch_pattern_id_text (s : string) :
  id_text s = true -> watch_pattern s = None.
Proof.
  intros Hs. unfold watch_pattern. by rewrite !group_after_id_text.
Qed.

Lemma live_pattern_id_text (s : string) :
  id_text s = true -> live_pattern s = None.
Proof. intros Hs. unfold live_pattern. by rewrite group_after_id_text. Qed.

Lemma valid_id_text (video_id : string) :
  valid_id video_id -> id_text video_id = true.
Proof. intros Hid. by destruct (id_chars_matched _ _ _ _ Hid) as (_ & _ & ?). Qed.

Lemma extract_video_id_id_text (url : string) :
  id_text url = true ->
  extract_video_id url = if is_bare_id url then Some url else None.
Proof.
  intros Hurl. unfold extract_video_id.
  rewrite (search_id_text watch_pattern), (search_id_text live_pattern);
    auto using watch_pattern_id_text, live_pattern_id_text.
Qed.

Lemma is_bare_id_spec (url : string) :
  is_bare_id url = true <->
  exists video_id, valid_id video_id /\ (url = video_id \/ url = video_id +:+ newline).
Proof.
  unfold is_bare_id. split.
  - destruct (id_chars 11 url) as [[m r]|] eqn:Hm; [|done].
    destruct (id_chars_matched _ _ _ _ Hm) as (-> & Hvalid & _).
    intros [Hr|Hr]%orb_true_iff; apply String.eqb_eq in Hr; subst r;
      exists m; (split; [done|]).
    + left. by rewrite append_nil_r.
    + by right.
  - intros (video_id & Hid & [->| ->]).
    + unfold valid_id in Hid. by rewrite Hid.
    + by rewrite (id_chars_app 11 video_id EmptyString newline Hid).
Qed.

Lemma search_cons (pattern : string -> option string) (c : Ascii.ascii) (s : string) :
  pattern (String c s) = None -> search pattern (String c s) = search pattern s.
Proof. intros Hp. cbn. by rewrite Hp. Qed.

Lemma search_here (pattern : string -> option string) (s group : string) :
  pattern s = Some group -> search pattern s = Some group.
Proof. intros Hp. destruct s; cbn; by rewrite Hp. Qed.

Lemma extract_video_id_bare (url : string) :
  (exists video_id, valid_id video_id /\ (url = video_id \/ url = video_id +:+ newline)) ->
  extract_video_id url = Some url.
Proof.
  intros Hurl. rewrite extract_video_id_id_text.
  - apply is_bare_id_spec in Hurl. by rewrite Hurl.
  - destruct Hurl as (video_id & Hid%valid_id_text & [->| ->]); [done|].
    by rewrite id_text_app, Hid.
Qed.
End video_ids.

Ltac norm_append := repeat first [rewrite append_cons | rewrite append_nil].
Ltac norm_append_in H := repeat first [rewrite append_cons in H | rewrite append_nil in H].
Ltac skip_chars := repeat (rewrite search_cons by reflexivity).

(** X1.  [extract_video_id] gives back the id from the addresses that carry
    one: the watch address that [fetch_chat] builds, with whatever follows
    the id, the short [youtu.be] address, the live address, and the bare id
    itself. *)
Theorem extract_video_id_round_trip (video_id rest : string) :
  valid_id video_id ->
  ChatFetcher.extract_video_id (ChatFetcher.watch_url video_id +:+ rest) = Some video_id /\
  ChatFetcher.extract_video_id ("https://youtu.be/" +:+ video_id +:+ rest) = Some video_id /\
  ChatFetcher.extract_video_id ("https://www.youtube.com/live/" +:+ video_id)
    = Some video_id /\
  ChatFetcher.extract_video_id video_id = Some video_id.
Proof.
  intros Hid.
  pose proof (group_after_app "youtube.com/watch?v=" video_id rest Hid) as Hwatch.
  pose proof (group_after_app "youtu.be/" video_id rest Hid) as Hshort.
  pose proof (group_after_app "youtube.com/live/" video_id EmptyString Hid) as Hlive.
  norm_append_in Hwatch. norm_append_in Hshort. norm_append_in Hlive.
  repeat split.
  - unfold ChatFetcher.extract_video_id, ChatFetcher.watch_url.
    norm_append. skip_chars.
    rewrite (search_here _ _ video_id); [done|].
    unfold ChatFetcher.watch_pattern. by rewrite Hwatch.
  - unfold ChatFetcher.extract_video_id. norm_append. skip_chars.
    rewrite (search_here _ _ video_id); [done|].
    unfold ChatFetcher.watch_pattern. by rewrite Hshort.
  - rewrite append_nil_r in Hlive.
    unfold ChatFetcher.extract_video_id. norm_append. skip_chars.
    rewrite (search_id_text ChatFetcher.watch_pattern)
      by auto using watch_pattern_id_text, valid_id_text.
    skip_chars.
    rewrite (search_here _ _ video_id); [done|].
    unfold ChatFetcher.live_pattern. by rewrite Hlive.
  - apply extract_video_id_bare. exists video_id. auto.
Qed.

Lemma test_video_id_valid : valid_id "dQw4w9WgXcQ".
Proof. reflexivity. Defined.

Lemma extract_video_id_round_trip_witness :
  valid_id "dQw4w9WgXcQ" /\
  ChatFetcher.extract_video_id
    (ChatFetcher.watch_url "dQw4w9WgXcQ" +:+ "&t=30s") = Some "dQw4w9WgXcQ" /\
  ChatFetcher.extract_video_id ("https://youtu.be/" +:+ "dQw4w9WgXcQ" +:+ "&t=30s")
    = Some "dQw4w9WgXcQ" /\
  ChatFetcher.extract_video_id ("https://www.youtube.com/live/" +:+ "dQw4w9WgXcQ")
    = Some "dQw4w9WgXcQ" /\
  ChatFetcher.extract_video_id "dQw4w9WgXcQ" = Some "dQw4w9WgXcQ".
Proof.
  exact (conj test_video_id_valid
           (extract_video_id_round_trip "dQw4w9WgXcQ" "&t=30s" test_video_id_valid)).
Defined.

(** X2.  What [extract_video_id] returns is eleven characters of
    [[a-zA-Z0-9_-]] that stand in the address: they are the whole address,
    or they follow one of the literals [youtube.com/watch?v=], [youtu.be/]
    and [youtube.com/live/] in it.  The one other case is an address that is
    such an id followed by one newline, which is returned with its
    newline. *)
Theorem extract_video_id_sound (url video_id : string) :
  ChatFetcher.extract_video_id url = Some video_id ->
  (valid_id video_id /\
   (url = video_id \/
    exists before literal after,
      In literal id_literals /\
      url = before +:+ literal +:+ video_id +:+ after)) \/
  (exists bare, valid_id bare /\ video_id = bare +:+ ChatFetcher.newline /\ url = video_id).
Proof.
  unfold ChatFetcher.extract_video_id.
  destruct (ChatFetcher.search ChatFetcher.watch_pattern url) as [g|] eqn:Hwatch.
  - intros [= <-]. left.
    apply search_found in Hwatch as (before & after & -> & Hafter).
    unfold ChatFetcher.watch_pattern in Hafter.
    destruct (ChatFetcher.group_after "youtube.com/watch?v=" after) as [g'|] eqn:Hg.
    + injection Hafter as <-. apply group_after_Some in Hg as (Hvalid & rest & ->).
      split; [done|]. right. exists before, "youtube.com/watch?v=", rest.
      split; [by left|done].
    + apply group_after_Some in Hafter as (Hvalid & rest & ->).
      split; [done|]. right. exists before, "youtu.be/", rest.
      split; [right; by left|done].
  - destruct (ChatFetcher.search ChatFetcher.live_pattern url) as [g|] eqn:Hlive.
    + intros [= <-]. left.
      apply search_found in Hlive as (before & after & -> & Hafter).
      apply group_after_Some in Hafter as (Hvalid & rest & ->).
      split; [done|]. right. exists before, "youtube.com/live/", rest.
      split; [right; right; by left|done].
    + destruct (ChatFetcher.is_bare_id url) eqn:Hbare; [|done].
      intros [= <-]. apply is_bare_id_spec in Hbare as (bare & Hvalid & [->| ->]).
      * left. split; [done|by left].
      * right. by exists bare.
Qed.

Lemma extract_video_id_sound_witness :
  ChatFetcher.extract_video_id "https://www.youtube.com/watch?v=dQw4w9WgXcQ&t=30s"
    = Some "dQw4w9WgXcQ" /\
  ((valid_id "dQw4w9WgXcQ" /\
    ("https://www.youtube.com/watch?v=dQw4w9WgXcQ&t=30s" = "dQw4w9WgXcQ" \/
     exists before literal after,
       In literal id_literals /\
       "https://www.youtube.com/watch?v=dQw4w9WgXcQ&t=30s"
       = before +:+ literal +:+ "dQw4w9WgXcQ" +:+ after)) \/
   (exists bare, valid_id bare /\ "dQw4w9WgXcQ" = bare +:+ ChatFetcher.newline /\
      "https://www.youtube.com/watch?v=dQw4w9WgXcQ&t=30s" = "dQw4w9WgXcQ")).
Proof.
  exact (conj eq_refl
           (extract_video_id_sound "https://www.youtube.com/watch?v=dQw4w9WgXcQ&t=30s"
              "dQw4w9WgXcQ" eq_refl)).
Defined.

(** An id followed by a newline is returned with the newline. *)
Lemma extract_video_id_newline :
  ChatFetcher.extract_video_id ("dQw4w9WgXcQ" +:+ ChatFetcher.newline)
  = Some ("dQw4w9WgXcQ" +:+ ChatFetcher.newline).
Proof. reflexivity. Qed.

(** X3.  [extract_video_id] is idempotent: what it returns for an address
    it returns for itself, so that [fetch_chat] may be given an id that an
    earlier call extracted. *)
Theorem extract_video_id_idempotent (url video_id : string) :
  ChatFetcher.extract_video_id url = Some video_id ->
  ChatFetcher.extract_video_id video_id = Some video_id.
Proof.
  intros Hurl. apply extract_video_id_bare.
  unfold ChatFetcher.extract_video_id in Hurl.
  destruct (ChatFetcher.search ChatFetcher.watch_pattern url) as [g|] eqn:Hwatch.
  - injection Hurl as <-. exists g. split; [|by left].
    apply search_found in Hwatch as (before & after & _ & Hafter).
    unfold ChatFetcher.watch_pattern in Hafter.
    destruct (ChatFetcher.group_after "youtube.com/watch?v=" after) as [g'|] eqn:Hg.
    + injection Hafter as <-. by eapply group_after_valid.
    + by eapply group_after_valid.
  - destruct (ChatFetcher.search ChatFetcher.live_pattern url) as [g|] eqn:Hlive.
    + injection Hurl as <-. exists g. split; [|by left].
      apply search_found in Hlive as (before & after & _ & Hafter).
      by eapply group_after_valid.
    + destruct (ChatFetcher.is_bare_id url) eqn:Hbare; [|done].
      injection Hurl as <-. by apply is_bare_id_spec.
Qed.

Lemma extract_video_id_idempotent_witness :
  ChatFetcher.extract_video_id "https://youtu.be/dQw4w9WgXcQ" = Some "dQw4w9WgXcQ" /\
  ChatFetcher.extract_video_id "dQw4w9WgXcQ" = Some "dQw4w9WgXcQ".
Proof.
  exact (conj eq_refl
           (extract_video_id_idempotent "https://youtu.be/dQw4w9WgXcQ" "dQw4w9WgXcQ"
              eq_refl)).
Defined.

(** ** Double precision *)

Section binary64.
Import Binary64.
Local Open Scope Q_scope.

Lemma pow2_Qpower (e : Z) : pow2 e == 2 ^ e.
Proof.
  unfold pow2. destruct (Z.leb_spec 0 e) as [He|He].
  - rewrite Zpower_Qpower by done. reflexivity.
  - rewrite <- (Z.opp_involutive e) at 2. rewrite Qpower_opp.
    rewrite Zpower_Qpower by lia. reflexivity.
Qed.

Lemma pow2_pos (e : Z) : 0 < pow2 e.
Proof. rewrite pow2_Qpower. apply Qpower_0_lt. lra. Qed.

Lemma pow2_add (a b : Z) : pow2 (a + b) == pow2 a * pow2 b.
Proof. rewrite !pow2_Qpower. apply Qpower_plus. lra. Qed.

Lemma pow2_succ (e : Z) : pow2 (e + 1) == 2 * pow2 e.
Proof. rewrite pow2_add. change (pow2 1) with 2. lra. Qed.

Lemma pow2_le (a b : Z) : (a <= b)%Z -> pow2 a <= pow2 b.
Proof.
  intros Hab. replace b with (a + (b - a))%Z by lia. rewrite pow2_add.
  assert (1 <= pow2 (b - a)) as H1.
  { unfold pow2. destruct (Z.leb_spec 0 (b - a)); [|lia].
    change 1 with (inject_Z 1). rewrite <- Zle_Qle.
    pose proof (Z.pow_pos_nonneg 2 (b - a)). lia. }
  pose proof (pow2_pos a). nra.
Qed.

(** The exponent of a positive number. *)
Lemma exponent_spec (x : Q) :
  0 < x -> pow2 (exponent x) <= x /\ x < pow2 (exponent x + 1).
Proof.
  intros Hx. destruct x as [n d]. unfold exponent. cbn [Qnum Qden].
  assert (0 < n)%Z as Hn by (unfold Qlt in Hx; cbn in Hx; lia).
  destruct (Z.log2_spec n Hn) as [Hn1 Hn2].
  destruct (Z.log2_spec (Zpos d) ltac:(lia)) as [Hd1 Hd2].
  pose proof (Z.log2_nonneg n) as Hln. pose proof (Z.log2_nonneg (Zpos d)) as Hld.
  set (ln := Z.log2 n) in *. set (ld := Z.log2 (Zpos d)) in *.
  assert (n # d == inject_Z n / inject_Z (Zpos d)) as Hq by apply Qmake_Qdiv.
  assert (0 < inject_Z (Zpos d)) as Hdpos by (change 0 with (inject_Z 0); rewrite <- Zlt_Qlt; lia).
  assert (pow2 ln <= inject_Z n /\ inject_Z n < pow2 (ln + 1)) as [Hn1' Hn2'].
  { unfold pow2. destruct (Z.leb_spec 0 ln); [|lia]. destruct (Z.leb_spec 0 (ln + 1)); [|lia].
    rewrite <- Zle_Qle, <- Zlt_Qlt. replace (ln + 1)%Z with (Z.succ ln) by lia. done. }
  assert (pow2 ld <= inject_Z (Zpos d) /\ inject_Z (Zpos d) < pow2 (ld + 1)) as [Hd1' Hd2'].
  { unfold pow2. destruct (Z.leb_spec 0 ld); [|lia]. destruct (Z.leb_spec 0 (ld + 1)); [|lia].
    rewrite <- Zle_Qle, <- Zlt_Qlt. replace (ld + 1)%Z with (Z.succ ld) by lia. done. }
  assert (pow2 ln == pow2 (ln - ld) * pow2 ld) as Hsplit
    by (rewrite <- pow2_add; by replace (ln - ld + ld)%Z with ln by lia).
  pose proof (pow2_pos (ln - ld)) as Hp. pose proof (pow2_pos ld) as Hpd.
  pose proof (pow2_pos ln) as Hpn.
  pose proof (pow2_succ ln) as Hsn. pose proof (pow2_succ ld) as Hsd.
  pose proof (pow2_succ (ln - ld)) as Hse.
  pose proof (pow2_pos (ln - ld - 1)) as Hp1.
  assert (pow2 (ln - ld) == 2 * pow2 (ln - ld - 1)) as Hhalf
    by (rewrite <- pow2_succ; by replace (ln - ld - 1 + 1)%Z with (ln - ld)%Z by lia).
  set (X := inject_Z n) in *. set (D := inject_Z (Zpos d)) in *.
  destruct (Qle_bool (pow2 (ln - ld)) (n # d)) eqn:Hle.
  - apply Qle_bool_iff in Hle. split; [done|]. rewrite Hq.
    apply Qlt_shift_div_r; [done|]. nra.
  - assert (~ pow2 (ln - ld) <= (n # d)) as Hlt by (rewrite <- Qle_bool_iff; congruence).
    apply Qnot_le_lt in Hlt.
    replace (ln - ld - 1 + 1)%Z with (ln - ld)%Z by lia. split; [|done].
    rewrite Hq. apply Qle_shift_div_l; [done|]. nra.
Qed.

Lemma nearest_even_whole (x : Q) (z : Z) : x == inject_Z z -> nearest_even x = z.
Proof.
  intros Hx. unfold nearest_even.
  assert (Qfloor x = z) as -> by (rewrite Hx; apply Qfloor_Z).
  assert (x - inject_Z z < 1 # 2) as Hlt by lra.
  by rewrite (proj1 (Qlt_alt _ _) Hlt).
Qed.

(** Rounding leaves the whole numbers up to [2^53] as they are. *)
Lemma round_whole (q : Q) (z : Z) :
  (Z.abs z <= 2 ^ 53)%Z -> q == inject_Z z -> round q == inject_Z z.
Proof.
  intros Hz Hq. unfold round.
  destruct (Qeq_bool q 0) eqn:H0.
  { apply Qeq_bool_iff in H0. lra. }
  apply Qeq_bool_neq in H0.
  assert (z <> 0%Z) as Hz0 by (intros ->; by apply H0).
  set (a := Qabs q).
  assert (a == inject_Z (Z.abs z)) as Ha by (unfold a; rewrite Hq; reflexivity).
  assert (1 <= a) as Ha1.
  { rewrite Ha. change 1 with (inject_Z 1). rewrite <- Zle_Qle. lia. }
  assert (a <= pow2 53) as Ha53.
  { rewrite Ha. change (pow2 53) with (inject_Z (2 ^ 53)). rewrite <- Zle_Qle. lia. }
  destruct (exponent_spec a ltac:(lra)) as [He1 He2].
  set (e := exponent a) in *.
  assert (0 <= e <= 53)%Z as He.
  { split.
    - destruct (Z.le_gt_cases 0 e) as [|Hneg]; [done|].
      pose proof (pow2_le (e + 1) 0 ltac:(lia)) as Hle. change (pow2 0) with 1 in Hle. lra.
    - destruct (Z.le_gt_cases e 53) as [|Hbig]; [done|].
      pose proof (pow2_le 54 e ltac:(lia)) as Hle.
      assert (pow2 53 < pow2 54) by (by vm_compute). lra. }
  rewrite Z.max_l by lia.
  pose proof (pow2_pos (e - 52)) as Hulp.
  assert (exists N : Z, a / pow2 (e - 52) == inject_Z N) as [N HN].
  { destruct (Z.le_gt_cases e 52) as [Hsmall|Hbig].
    - exists (Z.abs z * 2 ^ (52 - e))%Z.
      rewrite inject_Z_mult, <- Ha.
      assert (pow2 (e - 52) * pow2 (52 - e) == 1) as Hinv
        by (rewrite <- pow2_add; by replace (e - 52 + (52 - e))%Z with 0%Z by lia).
      assert (inject_Z (2 ^ (52 - e)) = pow2 (52 - e)) as ->
        by (unfold pow2; destruct (Z.leb_spec 0 (52 - e)); [done|lia]).
      apply Qmult_inj_r with (z := pow2 (e - 52)); [lra|].
      rewrite <- Qmult_assoc, (Qmult_comm (pow2 (52 - e))), Hinv.
      field. lra.
    - assert (e = 53%Z) as He53 by lia. rewrite He53 in *.
      exists (2 ^ 52)%Z. change (pow2 (53 - 52)) with 2.
      assert (a == pow2 53) as -> by lra. by vm_compute. }
  rewrite (nearest_even_whole _ N HN), Qred_correct.
  assert (inject_Z N * pow2 (e - 52) == a) as Hm by (rewrite <- HN; field; lra).
  destruct (Qle_bool 0 q) eqn:Hsign; rewrite Hm; unfold a.
  - apply Qle_bool_iff in Hsign. rewrite Qabs_pos by done. by rewrite Hq.
  - assert (~ 0 <= q) as Hneg by (rewrite <- Qle_bool_iff; congruence).
    apply Qnot_le_lt in Hneg. rewrite Qabs_neg by lra. lra.
Qed.

Lemma binary64_whole_exact : @whole_exact Binary64.arith.
Proof. intros q z Hz Hq. by apply round_whole. Qed.
End binary64.

(** ** Time formatting *)

Section formatting.
Local Open Scope Q_scope.

Lemma Qfloor_unique (z : Z) (x : Q) :
  inject_Z z <= x -> x < inject_Z (z + 1) -> Qfloor x = z.
Proof.
  intros Hle Hlt.
  pose proof (Qfloor_le x) as H1. pose proof (Qlt_floor x) as H2.
  assert (inject_Z z < inject_Z (Qfloor x + 1)) as Ha by lra.
  assert (inject_Z (Qfloor x) < inject_Z (z + 1)) as Hb by lra.
  rewrite <- Zlt_Qlt in Ha, Hb. lia.
Qed.

Lemma Qfloor_sub_Z (x : Q) (k : Z) : Qfloor (x - inject_Z k) = (Qfloor x - k)%Z.
Proof.
  pose proof (Qfloor_le x) as H1. pose proof (Qlt_floor x) as H2.
  rewrite inject_Z_plus in H2. change (inject_Z 1) with 1 in H2.
  apply Qfloor_unique; unfold Z.sub; rewrite !inject_Z_plus, inject_Z_opp;
    change (inject_Z 1) with 1; lra.
Qed.

(** [floor(x / n) = floor(x) div n] for a positive whole [n]. *)
Lemma Qfloor_div_Z (x : Q) (n : Z) :
  (0 < n)%Z -> Qfloor (x / inject_Z n) = (Qfloor x / n)%Z.
Proof.
  intros Hn.
  pose proof (Qfloor_le x) as H1. pose proof (Qlt_floor x) as H2.
  pose proof (Z.div_mod (Qfloor x) n ltac:(lia)) as Hdiv.
  pose proof (Z.mod_pos_bound (Qfloor x) n Hn) as Hmod.
  set (q := (Qfloor x / n)%Z) in *. set (r := (Qfloor x mod n)%Z) in *.
  assert (0 < inject_Z n) as Hn' by (by rewrite Zlt_Qlt in Hn).
  assert (inject_Z (Qfloor x) == inject_Z n * inject_Z q + inject_Z r) as Heq.
  { rewrite Hdiv, inject_Z_plus, inject_Z_mult. reflexivity. }
  assert (0 <= inject_Z r /\ inject_Z r + 1 <= inject_Z n) as [Hr0 Hr1].
  { split; [rewrite Zle_Qle in Hmod; apply Hmod|].
    assert (r + 1 <= n)%Z as Hr by lia. rewrite Zle_Qle, inject_Z_plus in Hr. exact Hr. }
  change (inject_Z 1) with 1 in Hr1.
  rewrite inject_Z_plus in H2. change (inject_Z 1) with 1 in *.
  apply Qfloor_unique.
  - apply Qle_shift_div_l; [done|]. lra.
  - apply Qlt_shift_div_r; [done|]. rewrite inject_Z_plus.
    change (inject_Z 1) with 1. lra.
Qed.

Lemma int_inject_Z (z : Z) : PyFloat.int (inject_Z z) = z.
Proof. unfold PyFloat.int. destruct (Qleb 0 (inject_Z z)); [apply Qfloor_Z|apply Qceiling_Z]. Qed.

Lemma int_nonneg (x : Q) : 0 <= x -> PyFloat.int x = Qfloor x.
Proof. intros Hx%Qleb_le. unfold PyFloat.int. by rewrite Hx. Qed.

(** The remainder of a number that is not below zero. *)
Lemma fmod_nonneg (x : Q) (n : Z) :
  (0 < n)%Z -> 0 <= x ->
  PyFloat.fmod x (inject_Z n) == x - inject_Z (n * (Qfloor x / n)) /\
  0 <= PyFloat.fmod x (inject_Z n) /\
  Qfloor (PyFloat.fmod x (inject_Z n)) = (Qfloor x mod n)%Z.
Proof.
  intros Hn Hx. unfold PyFloat.fmod.
  assert (0 < inject_Z n) as Hn' by (by rewrite Zlt_Qlt in Hn).
  assert (0 <= x / inject_Z n) as Hq by (apply Qle_shift_div_l; [done|lra]).
  rewrite (int_nonneg _ Hq), Qfloor_div_Z by done.
  pose proof (Z.div_mod (Qfloor x) n ltac:(lia)) as Hdiv.
  pose proof (Z.mod_pos_bound (Qfloor x) n Hn) as Hmod.
  assert (Qfloor (x - inject_Z n * inject_Z (Qfloor x / n)) = (Qfloor x mod n)%Z) as Hfloor.
  { rewrite <- inject_Z_mult, Qfloor_sub_Z. lia. }
  split; [by rewrite inject_Z_mult|]. split; [|done].
  pose proof (Qfloor_le (x - inject_Z n * inject_Z (Qfloor x / n))) as Hle.
  rewrite Hfloor in Hle.
  assert (0 <= inject_Z (Qfloor x mod n)) by (rewrite Zle_Qle in Hmod; apply Hmod).
  lra.
Qed.

Context `{FloatArith} (Hwhole : whole_exact).

Lemma mod_nonneg (x : Q) (n : Z) :
  (0 < n)%Z -> 0 <= x -> PyFloat.mod_ x (inject_Z n) = PyFloat.fmod x (inject_Z n).
Proof.
  intros Hn Hx. unfold PyFloat.mod_.
  destruct (fmod_nonneg x n Hn Hx) as (_ & Hm & _).
  apply Qltb_ge in Hm. by rewrite Hm, andb_false_r.
Qed.

(** The quotient of a number between 0 and [2^53]: every step is on whole
    numbers, which the rounding leaves as they are. *)
Lemma floordiv_nonneg (x : Q) (n : Z) :
  (0 < n)%Z -> 0 <= x <= inject_Z (2 ^ 53) ->
  PyFloat.floordiv x (inject_Z n) = inject_Z (Qfloor x / n).
Proof.
  intros Hn [Hx Hmax]. unfold PyFloat.floordiv.
  destruct (fmod_nonneg x n Hn Hx) as (Hmod & Hm & _).
  apply Qltb_ge in Hm. rewrite Hm, andb_false_r.
  set (k := (Qfloor x / n)%Z) in *.
  assert (0 < inject_Z n) as Hn' by (by rewrite Zlt_Qlt in Hn).
  pose proof (Qfloor_le x) as Hfloor.
  assert (0 <= Qfloor x)%Z as Hfloor0.
  { assert (inject_Z (-1 + 1) <= x) as H0 by done.
    pose proof (Qlt_floor x) as Hlt.
    assert (inject_Z (-1 + 1) < inject_Z (Qfloor x + 1)) as Hc by lra.
    rewrite <- Zlt_Qlt in Hc. lia. }
  assert (Qfloor x <= 2 ^ 53)%Z as Hfloor53
    by (rewrite Zle_Qle; lra).
  assert (0 <= k /\ n * k <= Qfloor x)%Z as [Hk0 Hk].
  { pose proof (Z.div_mod (Qfloor x) n ltac:(lia)).
    pose proof (Z.mod_pos_bound (Qfloor x) n Hn).
    split; [apply Z.div_pos; lia|unfold k; lia]. }
  assert (k <= n * k)%Z as Hkn by nia.
  assert (PyFloat.fmod x (inject_Z n) == x - inject_Z (n * k)) as Hmod' by done.
  assert (fsub x (PyFloat.fmod x (inject_Z n)) == inject_Z (n * k)) as Hsub.
  { unfold fsub. apply Hwhole; [lia|]. rewrite Hmod'. lra. }
  assert (fdiv (fsub x (PyFloat.fmod x (inject_Z n))) (inject_Z n) == inject_Z k) as Hdiv.
  { unfold fdiv. apply Hwhole; [lia|]. rewrite Hsub, inject_Z_mult. field. lra. }
  set (div := fdiv _ _) in *.
  destruct (Qeq_bool div 0) eqn:Hzero.
  - apply Qeq_bool_iff in Hzero. rewrite Hdiv in Hzero.
    assert (k = 0%Z) as -> by (unfold Qeq in Hzero; cbn in Hzero; lia). done.
  - assert (Qfloor div = k) as -> by (rewrite Hdiv; apply Qfloor_Z).
    assert (fsub div (inject_Z k) == inject_Z 0) as Hsnap.
    { unfold fsub. apply Hwhole; [lia|]. rewrite Hdiv. change (inject_Z 0) with 0. lra. }
    change (inject_Z 0) with 0 in Hsnap.
    assert (Qltb 0.5 (fsub div (inject_Z k)) = false) as ->; [|done].
    apply Qltb_ge. rewrite Hsnap. lra.
Qed.

Lemma hours_floor (seconds : Q) :
  0 <= seconds <= inject_Z (2 ^ 53) ->
  DataParser.hours seconds = (Qfloor seconds / 3600)%Z.
Proof.
  intros Hs. unfold DataParser.hours.
  change 3600 with (inject_Z 3600). rewrite floordiv_nonneg by done.
  apply int_inject_Z.
Qed.

Lemma minutes_floor (seconds : Q) :
  0 <= seconds <= inject_Z (2 ^ 53) ->
  DataParser.minutes seconds = (Qfloor seconds mod 3600 / 60)%Z.
Proof.
  intros [Hs Hmax]. unfold DataParser.minutes.
  change 3600 with (inject_Z 3600). change 60 with (inject_Z 60).
  rewrite mod_nonneg by done.
  destruct (fmod_nonneg seconds 3600 ltac:(done) Hs) as (Hmod & Hm & Hfloor).
  rewrite floordiv_nonneg, int_inject_Z, Hfloor; [done|done|].
  split; [done|]. rewrite Hmod.
  assert (0 <= inject_Z (3600 * (Qfloor seconds / 3600))); [|lra].
  change 0 with (inject_Z 0). rewrite <- Zle_Qle.
  assert (0 <= Qfloor seconds)%Z.
  { pose proof (Qlt_floor seconds) as Hlt.
    assert (inject_Z (-1 + 1) < inject_Z (Qfloor seconds + 1)) as Hc
      by (change (inject_Z (-1 + 1)) with 0; lra).
    rewrite <- Zlt_Qlt in Hc. lia. }
  pose proof (Z.div_pos (Qfloor seconds) 3600). lia.
Qed.

Lemma secs_floor (seconds : Q) :
  0 <= seconds -> DataParser.secs seconds = (Qfloor seconds mod 60)%Z.
Proof.
  intros Hs. unfold DataParser.secs. change 60 with (inject_Z 60).
  rewrite mod_nonneg by done.
  destruct (fmod_nonneg seconds 60 ltac:(done) Hs) as (_ & Hm & Hfloor).
  by rewrite int_nonneg.
Qed.
End formatting.

(** X4.  For every number of seconds from 0 to [2^53] the three fields that
    [format_timestamp] computes are the whole seconds split by the clock:
    minutes and seconds lie in 0..59 and
    [3600 * hours + 60 * minutes + secs = floor(seconds)].  The float
    operations of [//] and [%] are then all on whole numbers, which the
    rounding leaves as they are. *)
Theorem format_timestamp_fields `{FloatArith} (seconds : Q) :
  whole_exact ->
  (0 <= seconds <= inject_Z (2 ^ 53))%Q ->
  (0 <= DataParser.minutes seconds < 60)%Z /\
  (0 <= DataParser.secs seconds < 60)%Z /\
  (3600 * DataParser.hours seconds + 60 * DataParser.minutes seconds
   + DataParser.secs seconds = Qfloor seconds)%Z.
Proof.
  intros Hwhole Hs.
  rewrite hours_floor, minutes_floor, secs_floor by (done || apply Hs).
  set (t := Qfloor seconds).
  pose proof (Z.div_mod t 3600 ltac:(lia)).
  pose proof (Z.mod_pos_bound t 3600 ltac:(lia)).
  pose proof (Z.div_mod (t mod 3600) 60 ltac:(lia)).
  pose proof (Z.mod_pos_bound (t mod 3600) 60 ltac:(lia)).
  pose proof (Z.mod_pos_bound t 60 ltac:(lia)).
  assert (t mod 60 = (t mod 3600) mod 60)%Z as Hmod.
  { rewrite (Z.mod_eq t 3600) by lia.
    replace (t - 3600 * (t / 3600))%Z with (t + (- 60 * (t / 3600)) * 60)%Z by lia.
    by rewrite Z.mod_add by lia. }
  lia.
Qed.

Lemma test_seconds_range : (0 <= 3725.5 <= inject_Z (2 ^ 53))%Q.
Proof. split; by vm_compute. Defined.

Lemma format_timestamp_fields_witness :
  @whole_exact Binary64.arith /\
  (0 <= 3725.5 <= inject_Z (2 ^ 53))%Q /\
  (0 <= @DataParser.minutes Binary64.arith 3725.5 < 60)%Z /\
  (0 <= @DataParser.secs Binary64.arith 3725.5 < 60)%Z /\
  (3600 * @DataParser.hours Binary64.arith 3725.5
   + 60 * @DataParser.minutes Binary64.arith 3725.5
   + @DataParser.secs Binary64.arith 3725.5 = Qfloor 3725.5)%Z.
Proof.
  exact (conj binary64_whole_exact (conj test_seconds_range
           (@format_timestamp_fields Binary64.arith 3725.5
              binary64_whole_exact test_seconds_range))).
Defined.

(** X5.  For every number of seconds from 0 to [2^53], [format_timestamp],
    and [format_time] of the charts, read the clock of the whole seconds: a
    fraction is dropped, the hours are shown from 3600 seconds on, and below
    that the text is minutes and seconds. *)
Theorem format_timestamp_clock `{FloatArith} (seconds : Q) :
  whole_exact ->
  (0 <= seconds <= inject_Z (2 ^ 53))%Q ->
  DataParser.format_timestamp seconds = clock (Qfloor seconds) /\
  ChartGenerator.format_time seconds = clock (Qfloor seconds).
Proof.
  intros Hwhole Hs.
  assert (DataParser.format_timestamp seconds = clock (Qfloor seconds)) as Hclock.
  { unfold DataParser.format_timestamp, clock.
    rewrite hours_floor, minutes_floor, secs_floor by (done || apply Hs).
    set (t := Qfloor seconds).
    replace (0 <? t / 3600)%Z with (3600 <=? t)%Z; [done|].
    pose proof (Z.div_mod t 3600 ltac:(lia)).
    pose proof (Z.mod_pos_bound t 3600 ltac:(lia)).
    destruct (Z.leb_spec 3600 t), (Z.ltb_spec 0 (t / 3600)); lia. }
  split; [done|]. by rewrite <- Hclock.
Qed.

Lemma format_timestamp_clock_witness :
  @whole_exact Binary64.arith /\
  (0 <= 3725.5 <= inject_Z (2 ^ 53))%Q /\
  @DataParser.format_timestamp Binary64.arith 3725.5 = "1:02:05" /\
  @DataParser.format_timestamp Binary64.arith 3725.5 = clock (Qfloor 3725.5) /\
  @ChartGenerator.format_time Binary64.arith 3725.5 = clock (Qfloor 3725.5).
Proof.
  exact (conj binary64_whole_exact (conj test_seconds_range (conj eq_refl
           (@format_timestamp_clock Binary64.arith 3725.5
              binary64_whole_exact test_seconds_range)))).
Defined.

(** X29.  Below zero the text is not that of the whole seconds.  In double
    precision [-1] reads [59:59], and [-1e-20], whose floor is [-1] too,
    reads [60:60]: its remainders [3600 - 1e-20] and [60 - 1e-20] round to
    3600 and 60, so that the fields are -1 hours, 60 minutes and 60
    seconds. *)
Theorem format_timestamp_below_zero :
  let tiny := Binary64.round (- (1 # 10 ^ 20)) in
  Qfloor tiny = Qfloor (-1) /\
  @DataParser.format_timestamp Binary64.arith (-1) = "59:59" /\
  @DataParser.format_timestamp Binary64.arith tiny = "60:60" /\
  @ChartGenerator.format_time Binary64.arith tiny = "60:60" /\
  (@DataParser.hours Binary64.arith tiny,
   @DataParser.minutes Binary64.arith tiny,
   @DataParser.secs Binary64.arith tiny) = ((-1)%Z, 60%Z, 60%Z).
Proof. repeat split; by vm_compute. Qed.

(** ** Subtitle files: parsing and lookups *)

Lemma insert_by_StronglySorted {A} (leb : A -> A -> bool) (x : A) (l : list A) :
  (forall a b, leb a b = false -> leb b a = true) ->
  (forall a b c, leb a b = true -> leb b c = true -> leb a c = true) ->
  StronglySorted (fun a b => leb a b = true) l ->
  StronglySorted (fun a b => leb a b = true) (insert_by leb x l).
Proof.
  intros Htotal Htrans. induction 1 as [|y l Hl IH Hy]; cbn.
  - constructor; [constructor|done].
  - destruct (leb x y) eqn:Hxy.
    + constructor; [by constructor|]. constructor; [done|].
      eapply Forall_impl; [exact Hy|]. intros z Hyz. by eapply Htrans.
    + constructor; [done|]. rewrite insert_by_Permutation.
      constructor; [by apply Htotal|done].
Qed.

Lemma sort_by_StronglySorted {A} (leb : A -> A -> bool) (l : list A) :
  (forall a b, leb a b = false -> leb b a = true) ->
  (forall a b c, leb a b = true -> leb b c = true -> leb a c = true) ->
  StronglySorted (fun a b => leb a b = true) (sort_by leb l).
Proof.
  intros Htotal Htrans. induction l as [|x l IH]; [constructor|].
  by apply insert_by_StronglySorted.
Qed.

Lemma parse_subtitle_Ok (sub : RawSubtitle.t) (row : SubtitleRecord.t) :
  DataParser.parse_subtitle sub = Ok row <->
  sub = entry_of row /\
  SubtitleRecord.end_ row = (SubtitleRecord.start row + SubtitleRecord.duration row)%Q.
Proof.
  unfold DataParser.parse_subtitle, entry_of.
  destruct sub as [[start|] [duration|] [text|]]; cbn; split;
    try done; try (by intros [[=] _]).
  - by intros [= <-].
  - destruct row as [s d e t]; cbn. by intros [[= -> -> ->] ->].
Qed.

Lemma parse_subtitle_complete (sub : RawSubtitle.t) :
  if complete sub then returns (DataParser.parse_subtitle sub)
  else DataParser.parse_subtitle sub = Raise KeyError.
Proof.
  unfold DataParser.parse_subtitle, complete.
  destruct sub as [[start|] [duration|] [text|]]; cbn; try done. by eexists.
Qed.

Lemma for_each_length {A B} (f : A -> result B) (l : list A) (out : list B) :
  for_each f l = Ok out -> length out = length l.
Proof. rewrite for_each_Ok. intros H. symmetry. by eapply Forall2_length. Qed.

Lemma for_each_parse_subtitle (subtitles : list RawSubtitle.t) :
  if forallb complete subtitles
  then returns (for_each DataParser.parse_subtitle subtitles)
  else for_each DataParser.parse_subtitle subtitles = Raise KeyError.
Proof.
  induction subtitles as [|sub subtitles IH]; cbn; [by eexists|].
  pose proof (parse_subtitle_complete sub) as Hsub.
  destruct (complete sub); cbn.
  - destruct Hsub as [row ->]; cbn.
    destruct (forallb complete subtitles).
    + destruct IH as [rows ->]. by eexists.
    + by rewrite IH.
  - by rewrite Hsub.
Qed.

Lemma parse_subtitle_to_dataframe_Ok (subtitle_data : SubtitleData.t)
    (df : list SubtitleRecord.t) :
  DataParser.parse_subtitle_to_dataframe subtitle_data = Ok df ->
  exists rows,
    entries subtitle_data = map entry_of rows /\
    Forall (fun row => SubtitleRecord.end_ row
                       = (SubtitleRecord.start row + SubtitleRecord.duration row)%Q) rows /\
    df = sort_by (fun a b => Qleb (SubtitleRecord.start a) (SubtitleRecord.start b)) rows.
Proof.
  unfold DataParser.parse_subtitle_to_dataframe. fold (entries subtitle_data).
  intros H. apply bind_Ok in H as (rows & Hrows & Hdf). exists rows.
  apply for_each_Ok in Hrows. generalize dependent (entries subtitle_data).
  intros subtitles Hrows.
  assert (df = sort_by (fun a b => Qleb (SubtitleRecord.start a) (SubtitleRecord.start b))
                       rows) as ->.
  { destruct rows; by injection Hdf as <-. }
  clear Hdf. split; [|split; [|done]].
  - induction Hrows as [|sub row subs rows Hrow _ IH]; [done|].
    apply parse_subtitle_Ok in Hrow as [-> _]. cbn. by rewrite IH.
  - induction Hrows as [|sub row subs rows Hrow _ IH]; constructor; [|done].
    by apply parse_subtitle_Ok in Hrow as [_ ?].
Qed.

(** X6. [parse_subtitle_to_dataframe] is all or nothing: when every entry of
    the file has the keys ['start'], ['duration'] and ['text'] it returns a
    frame with one row per entry, and a single entry that lacks one of them
    makes the whole call raise [KeyError]. *)
Theorem parse_subtitle_to_dataframe_all_or_nothing (subtitle_data : SubtitleData.t) :
  (forallb complete (entries subtitle_data) = true /\
   exists df, DataParser.parse_subtitle_to_dataframe subtitle_data = Ok df /\
              length df = length (entries subtitle_data)) \/
  (forallb complete (entries subtitle_data) = false /\
   DataParser.parse_subtitle_to_dataframe subtitle_data = Raise KeyError).
Proof.
  pose proof (for_each_parse_subtitle (entries subtitle_data)) as H.
  unfold DataParser.parse_subtitle_to_dataframe. fold (entries subtitle_data).
  destruct (forallb complete (entries subtitle_data)); [left|right]; split; try done.
  - destruct H as [rows Hrows]. rewrite Hrows; cbn.
    apply for_each_length in Hrows. rewrite <- Hrows.
    destruct rows as [|row rows]; [by eexists|].
    eexists. split; [done|]. by rewrite sort_by_Permutation.
  - by rewrite H.
Qed.

(** X7. The frame [parse_subtitle_to_dataframe] returns is in ascending
    order of ['start'], each of its rows has [end = start + duration], and
    its rows are the entries of the file, none lost, added or changed. *)
Theorem parse_subtitle_to_dataframe_sorted (subtitle_data : SubtitleData.t)
    (df : list SubtitleRecord.t) :
  DataParser.parse_subtitle_to_dataframe subtitle_data = Ok df ->
  StronglySorted (fun a b => (SubtitleRecord.start a <= SubtitleRecord.start b)%Q) df /\
  Forall (fun row => SubtitleRecord.end_ row
                     = (SubtitleRecord.start row + SubtitleRecord.duration row)%Q) df /\
  map entry_of df ≡ₚ entries subtitle_data.
Proof.
  intros H. apply parse_subtitle_to_dataframe_Ok in H as (rows & -> & Hend & ->).
  split; [|split].
  - eapply StronglySorted_weaken; [|apply sort_by_StronglySorted].
    + intros a b Hab. cbn in Hab. by apply Qleb_le.
    + intros a b Hab. Qcases. apply Qleb_le. lra.
    + intros a b c Hab Hbc. Qcases. apply Qleb_le. lra.
  - by apply sort_by_Forall.
  - by rewrite sort_by_Permutation.
Qed.

Lemma parse_subtitle_to_dataframe_sorted_witness :
  DataParser.parse_subtitle_to_dataframe test_subtitle_data = Ok test_subtitle_frame /\
  StronglySorted (fun a b => (SubtitleRecord.start a <= SubtitleRecord.start b)%Q)
                 test_subtitle_frame /\
  Forall (fun row => SubtitleRecord.end_ row
                     = (SubtitleRecord.start row + SubtitleRecord.duration row)%Q)
         test_subtitle_frame /\
  map entry_of test_subtitle_frame ≡ₚ entries test_subtitle_data.
Proof.
  split; [reflexivity|].
  apply (parse_subtitle_to_dataframe_sorted test_subtitle_data). reflexivity.
Defined.

Lemma in_range_entry_of (start_time end_time : Q) (row : SubtitleRecord.t) :
  SubtitleRecord.end_ row = (SubtitleRecord.start row + SubtitleRecord.duration row)%Q ->
  SubtitleFetcher.in_range start_time end_time (entry_of row) =
  Ok (map entry_of (List.filter (SubtitleLookup.overlaps start_time end_time) [row])).
Proof.
  intros Hend. unfold SubtitleFetcher.in_range, SubtitleLookup.overlaps; cbn.
  rewrite Hend.
  by destruct (Qltb (SubtitleRecord.start row) end_time
               && Qltb start_time (SubtitleRecord.start row + SubtitleRecord.duration row)).
Qed.

Lemma fetcher_range_entry_of (start_time end_time : Q) (rows : list SubtitleRecord.t) :
  Forall (fun row => SubtitleRecord.end_ row
                     = (SubtitleRecord.start row + SubtitleRecord.duration row)%Q) rows ->
  (kept ← for_each (SubtitleFetcher.in_range start_time end_time) (map entry_of rows);
   Ok (concat kept))
  = Ok (map entry_of (List.filter (SubtitleLookup.overlaps start_time end_time) rows)).
Proof.
  induction 1 as [|row rows Hrow _ IH]; [done|]. cbn [map for_each].
  rewrite (in_range_entry_of _ _ _ Hrow). cbn [mbind result_bind].
  destruct (for_each (SubtitleFetcher.in_range start_time end_time) (map entry_of rows))
    as [kept|e]; cbn in IH |- *; [|done].
  injection IH as ->. cbn [List.filter].
  by destruct (SubtitleLookup.overlaps start_time end_time row).
Qed.

Lemma filter_Permutation {A} (f : A -> bool) (l1 l2 : list A) :
  l1 ≡ₚ l2 -> List.filter f l1 ≡ₚ List.filter f l2.
Proof.
  induction 1 as [|x l1 l2 _ IH|x y l|l1 l2 l3 _ IH1 _ IH2]; cbn.
  - done.
  - destruct (f x); [by constructor|done].
  - destruct (f x), (f y); try done. apply Permutation_swap.
  - by etrans.
Qed.

Lemma filter_StronglySorted {A} (R : A -> A -> Prop) (f : A -> bool) (l : list A) :
  StronglySorted R l -> StronglySorted R (List.filter f l).
Proof.
  induction 1 as [|x l _ IH Hx]; cbn; [constructor|].
  destruct (f x); [|done]. constructor; [done|].
  apply List.Forall_forall. intros y Hy. apply List.filter_In in Hy as [Hy _].
  by eapply List.Forall_forall in Hx.
Qed.

(** X8. The two range lookups agree: on a file [parse_subtitle_to_dataframe]
    accepts, [SubtitleFetcher.get_subtitle_range] returns, in file order,
    the entries of exactly the rows that
    [SubtitleAnalyzer.get_subtitle_range] selects from the parsed frame,
    and the latter come in ascending order of ['start']. *)
Theorem get_subtitle_range_agree (subtitle_data : SubtitleData.t)
    (df : list SubtitleRecord.t) (start_time end_time : Q) :
  DataParser.parse_subtitle_to_dataframe subtitle_data = Ok df ->
  exists kept,
    SubtitleFetcher.get_subtitle_range subtitle_data start_time end_time = Ok kept /\
    map entry_of (SubtitleLookup.get_subtitle_range df start_time end_time) ≡ₚ kept /\
    StronglySorted (fun a b => (SubtitleRecord.start a <= SubtitleRecord.start b)%Q)
                   (SubtitleLookup.get_subtitle_range df start_time end_time).
Proof.
  intros H. pose proof (parse_subtitle_to_dataframe_sorted _ _ H) as (Hsorted & _ & _).
  apply parse_subtitle_to_dataframe_Ok in H as (rows & Hentries & Hend & ->).
  unfold SubtitleFetcher.get_subtitle_range. fold (entries subtitle_data).
  rewrite Hentries, (fetcher_range_entry_of _ _ _ Hend).
  eexists. split; [done|]. split.
  - unfold SubtitleLookup.get_subtitle_range.
    apply Permutation_map, filter_Permutation, sort_by_Permutation.
  - by apply filter_StronglySorted.
Qed.

Lemma get_subtitle_range_agree_witness :
  DataParser.parse_subtitle_to_dataframe test_subtitle_data = Ok test_subtitle_frame /\
  exists kept,
    SubtitleFetcher.get_subtitle_range test_subtitle_data 3 13 = Ok kept /\
    map entry_of (SubtitleLookup.get_subtitle_range test_subtitle_frame 3 13) ≡ₚ kept /\
    StronglySorted (fun a b => (SubtitleRecord.start a <= SubtitleRecord.start b)%Q)
                   (SubtitleLookup.get_subtitle_range test_subtitle_frame 3 13).
Proof.
  split; [reflexivity|].
  apply (get_subtitle_range_agree test_subtitle_data). reflexivity.
Defined.

Lemma fetcher_at_time_entry_of (timestamp : Q) (rows : list SubtitleRecord.t) :
  Forall (fun row => SubtitleRecord.end_ row
                     = (SubtitleRecord.start row + SubtitleRecord.duration row)%Q) rows ->
  SubtitleFetcher.at_time (map entry_of rows) timestamp
  = Ok (SubtitleLookup.get_subtitle_at_time rows timestamp).
Proof.
  unfold SubtitleLookup.get_subtitle_at_time.
  induction 1 as [|row rows Hrow _ IH]; [done|]. cbn [map SubtitleFetcher.at_time].
  cbn [entry_of RawSubtitle.start RawSubtitle.duration RawSubtitle.text getitem
       mbind result_bind List.filter].
  unfold SubtitleLookup.covers at 1. rewrite Hrow.
  by destruct (Qleb (SubtitleRecord.start row) timestamp
               && Qltb timestamp (SubtitleRecord.start row + SubtitleRecord.duration row)).
Qed.

Lemma lookup_at_time_Some (rows : list SubtitleRecord.t) (timestamp : Q) (text : string) :
  SubtitleLookup.get_subtitle_at_time rows timestamp = Some text ->
  exists row, In row rows /\ SubtitleLookup.covers timestamp row = true /\
              SubtitleRecord.text row = text.
Proof.
  unfold SubtitleLookup.get_subtitle_at_time.
  destruct (List.filter (SubtitleLookup.covers timestamp) rows) as [|row kept] eqn:E;
    [done|].
  intros [= <-]. exists row.
  assert (In row (List.filter (SubtitleLookup.covers timestamp) rows)) as Hin
    by (rewrite E; by left).
  apply List.filter_In in Hin as [? ?]. done.
Qed.

Lemma lookup_at_time_None (rows : list SubtitleRecord.t) (timestamp : Q) :
  SubtitleLookup.get_subtitle_at_time rows timestamp = None <->
  List.filter (SubtitleLookup.covers timestamp) rows = [].
Proof.
  unfold SubtitleLookup.get_subtitle_at_time.
  by destruct (List.filter (SubtitleLookup.covers timestamp) rows).
Qed.

(** X9. The two point lookups agree on whether a subtitle is shown: on a
    file [parse_subtitle_to_dataframe] accepts,
    [SubtitleFetcher.get_subtitle_at_time] returns without an exception,
    it finds a text exactly when [SubtitleAnalyzer.get_subtitle_at_time]
    finds one in the parsed frame, and a text either of them returns is
    that of a row with [start <= timestamp < end]. *)
Theorem get_subtitle_at_time_agree (subtitle_data : SubtitleData.t)
    (df : list SubtitleRecord.t) (timestamp : Q) :
  DataParser.parse_subtitle_to_dataframe subtitle_data = Ok df ->
  exists found,
    SubtitleFetcher.get_subtitle_at_time subtitle_data timestamp = Ok found /\
    (found = None <-> SubtitleLookup.get_subtitle_at_time df timestamp = None) /\
    forall text,
      found = Some text \/ SubtitleLookup.get_subtitle_at_time df timestamp = Some text ->
      exists row, In row df /\
        (SubtitleRecord.start row <= timestamp < SubtitleRecord.end_ row)%Q /\
        SubtitleRecord.text row = text.
Proof.
  intros H. apply parse_subtitle_to_dataframe_Ok in H as (rows & Hentries & Hend & ->).
  unfold SubtitleFetcher.get_subtitle_at_time. fold (entries subtitle_data).
  rewrite Hentries, (fetcher_at_time_entry_of _ _ Hend).
  eexists. split; [done|].
  set (leb := fun a b => Qleb (SubtitleRecord.start a) (SubtitleRecord.start b)).
  split.
  - rewrite !lookup_at_time_None. split; intros Hnil.
    + apply Permutation_nil_r. rewrite <- Hnil.
      apply filter_Permutation, sort_by_Permutation.
    + apply Permutation_nil_r. rewrite <- Hnil.
      apply filter_Permutation. symmetry. apply sort_by_Permutation.
  - intros text [Hfound|Hfound];
      apply lookup_at_time_Some in Hfound as (row & Hin & Hcov & Htext);
      exists row; (split; [|split; [|done]]).
    + by apply sort_by_In.
    + unfold SubtitleLookup.covers in Hcov.
      apply andb_true_iff in Hcov as [? ?]. Qcases. done.
    + done.
    + unfold SubtitleLookup.covers in Hcov.
      apply andb_true_iff in Hcov as [? ?]. Qcases. done.
Qed.

Lemma get_subtitle_at_time_agree_witness :
  DataParser.parse_subtitle_to_dataframe test_subtitle_data = Ok test_subtitle_frame /\
  exists found,
    SubtitleFetcher.get_subtitle_at_time test_subtitle_data 13 = Ok found /\
    (found = None <-> SubtitleLookup.get_subtitle_at_time test_subtitle_frame 13 = None) /\
    forall text,
      found = Some text \/
      SubtitleLookup.get_subtitle_at_time test_subtitle_frame 13 = Some text ->
      exists row, In row test_subtitle_frame /\
        (SubtitleRecord.start row <= 13 < SubtitleRecord.end_ row)%Q /\
        SubtitleRecord.text row = text.
Proof.
  split; [reflexivity|].
  apply (get_subtitle_at_time_agree test_subtitle_data). reflexivity.
Defined.

(** ** Normalised timestamps and the length of the video *)

Lemma foldl_min_In (ts : list Q) (acc : Q) :
  In (foldl Py.min acc ts) (acc :: ts).
Proof.
  revert acc. induction ts as [|t ts IH]; intros acc; cbn; [by left|].
  destruct (IH (Py.min acc t)) as [<-|Hin]; [|by right; right].
  destruct (min_spec acc t) as [[_ ->]|[_ ->]]; [right; by left|by left].
Qed.

Lemma foldl_max_In (ts : list Q) (acc : Q) :
  In (foldl Py.max acc ts) (acc :: ts).
Proof.
  revert acc. induction ts as [|t ts IH]; intros acc; cbn; [by left|].
  destruct (IH (Py.max acc t)) as [<-|Hin]; [|by right; right].
  destruct (max_spec acc t) as [[_ ->]|[_ ->]]; [right; by left|by left].
Qed.

Lemma min_time_In (chat_df : list CommentRecord.t) :
  chat_df <> [] ->
  exists r, In r chat_df /\ CommentRecord.timestamp_sec r = CommentAnalyzer.min_time chat_df.
Proof.
  unfold CommentAnalyzer.min_time. destruct chat_df as [|r0 chat_df]; [done|].
  intros _. cbn [map].
  pose proof (foldl_min_In (map CommentRecord.timestamp_sec chat_df)
                (CommentRecord.timestamp_sec r0)) as Hin.
  change (In (foldl Py.min (CommentRecord.timestamp_sec r0)
                (map CommentRecord.timestamp_sec chat_df))
             (map CommentRecord.timestamp_sec (r0 :: chat_df))) in Hin.
  apply in_map_iff in Hin as (r & Hr & Hin). by exists r.
Qed.

Lemma max_time_In (chat_df : list CommentRecord.t) :
  chat_df <> [] ->
  exists r, In r chat_df /\ CommentRecord.timestamp_sec r = CommentAnalyzer.max_time chat_df.
Proof.
  unfold CommentAnalyzer.max_time. destruct chat_df as [|r0 chat_df]; [done|].
  intros _. cbn [map].
  pose proof (foldl_max_In (map CommentRecord.timestamp_sec chat_df)
                (CommentRecord.timestamp_sec r0)) as Hin.
  change (In (foldl Py.max (CommentRecord.timestamp_sec r0)
                (map CommentRecord.timestamp_sec chat_df))
             (map CommentRecord.timestamp_sec (r0 :: chat_df))) in Hin.
  apply in_map_iff in Hin as (r & Hr & Hin). by exists r.
Qed.

(** X10. [normalize_timestamps] keeps the rows and their order; every
    normalised timestamp lies between 0 and [get_video_duration], and on a
    non-empty frame both ends are reached: some row is normalised to 0 and
    some row to the duration. *)
Theorem normalize_timestamps_range (df : list CommentRecord.t) :
  df <> [] ->
  map fst (DataParser.normalize_timestamps df) = df /\
  Forall (fun row => row.2 == CommentRecord.timestamp_sec row.1
                             - CommentAnalyzer.min_time df /\
                     0 <= row.2 <= DataParser.get_video_duration df)%Q
         (DataParser.normalize_timestamps df) /\
  Exists (fun row => row.2 == 0)%Q (DataParser.normalize_timestamps df) /\
  Exists (fun row => row.2 == DataParser.get_video_duration df)%Q
         (DataParser.normalize_timestamps df).
Proof.
  intros Hne.
  destruct (min_time_In df Hne) as (rmin & Hrmin & Hmin).
  destruct (max_time_In df Hne) as (rmax & Hrmax & Hmax).
  unfold DataParser.normalize_timestamps, DataParser.get_video_duration.
  destruct df as [|r0 df]; [done|]. set (frame := r0 :: df) in *.
  split; [|split; [|split]].
  - rewrite map_map. cbn [fst]. apply map_id.
  - apply List.Forall_forall. intros row Hrow.
    apply in_map_iff in Hrow as (r & <- & Hr). cbn [fst snd].
    pose proof (min_time_le frame r Hr). pose proof (max_time_ge frame r Hr).
    split; [reflexivity|]. split; lra.
  - apply List.Exists_exists. eexists. split; [apply in_map; exact Hrmin|].
    cbn [snd]. rewrite Hmin. lra.
  - apply List.Exists_exists. eexists. split; [apply in_map; exact Hrmax|].
    cbn [snd]. rewrite Hmax. lra.
Qed.

Lemma normalize_timestamps_range_witness :
  test_chat <> [] /\
  map fst (DataParser.normalize_timestamps test_chat) = test_chat /\
  Forall (fun row => row.2 == CommentRecord.timestamp_sec row.1
                             - CommentAnalyzer.min_time test_chat /\
                     0 <= row.2 <= DataParser.get_video_duration test_chat)%Q
         (DataParser.normalize_timestamps test_chat) /\
  Exists (fun row => row.2 == 0)%Q (DataParser.normalize_timestamps test_chat) /\
  Exists (fun row => row.2 == DataParser.get_video_duration test_chat)%Q
         (DataParser.normalize_timestamps test_chat).
Proof.
  split; [done|]. apply (normalize_timestamps_range test_chat). done.
Defined.

(** ** The table of bins *)

(** X11. For a non-empty frame whose timestamps do not all sit on one whole
    second and a positive bin size, [bin_comments_by_time] returns bins in
    time order that do not overlap, each [bin_size_seconds] wide and holding
    at least one comment, and the counts add up to the number of comments:
    empty bins are left out and no comment is lost or counted twice. *)
Theorem bin_comments_by_time_conserves (chat_df : list CommentRecord.t)
    (bin_size_seconds : Z) :
  chat_df <> [] ->
  (0 < bin_size_seconds)%Z ->
  (Qfloor (CommentAnalyzer.min_time chat_df)
   < Qceiling (CommentAnalyzer.max_time chat_df))%Z ->
  exists binned_df,
    CommentAnalyzer.bin_comments_by_time chat_df bin_size_seconds = Ok binned_df /\
    StronglySorted bin_before binned_df /\
    Forall (fun b => TimeBin.bin_end b = (TimeBin.bin_start b + bin_size_seconds)%Z /\
                     (0 < TimeBin.count b)%Z /\
                     TimeBin.comment_rate b
                     = (inject_Z (TimeBin.count b) / inject_Z bin_size_seconds)%Q)
           binned_df /\
    sum_counts (map TimeBin.count binned_df) = Z.of_nat (length chat_df).
Proof.
  intros Hne Hbs Hlt.
  destruct (bin_comments_by_time_table chat_df bin_size_seconds Hne Hbs Hlt)
    as (binned_df & Hbinned & Hsorted & Hrows & Hsum).
  exists binned_df. split; [done|]. split; [done|]. split; [|done].
  rewrite bin_comments_by_time_eq in Hbinned by done.
  apply bind_Ok in Hbinned as (rows & Hrows' & [= <-]).
  apply for_each_Ok in Hrows'.
  assert (Forall (fun b => TimeBin.comment_rate b
                    = (inject_Z (TimeBin.count b) / inject_Z bin_size_seconds)%Q) rows)
    as Hrate.
  { clear -Hrows'. induction Hrows' as [|g row gs rows Hrow _ IH]; constructor; [|done].
    unfold CommentAnalyzer.bin_row in Hrow.
    apply bind_Ok in Hrow as (b_start & _ & Hrow).
    apply bind_Ok in Hrow as (b_end & _ & [= <-]). done. }
  apply (sort_by_Forall _ (fun a b => (TimeBin.bin_start a <=? TimeBin.bin_start b)%Z))
    in Hrate.
  rewrite List.Forall_forall in Hrows, Hrate |- *. intros b Hb.
  destruct (Hrows b Hb) as [? ?]. specialize (Hrate b Hb). done.
Qed.

Lemma bin_comments_by_time_conserves_witness :
  exists binned_df,
    CommentAnalyzer.bin_comments_by_time test_chat 30 = Ok binned_df /\
    StronglySorted bin_before binned_df /\
    Forall (fun b => TimeBin.bin_end b = (TimeBin.bin_start b + 30)%Z /\
                     (0 < TimeBin.count b)%Z /\
                     TimeBin.comment_rate b = (inject_Z (TimeBin.count b) / inject_Z 30)%Q)
           binned_df /\
    sum_counts (map TimeBin.count binned_df) = Z.of_nat (length test_chat).
Proof.
  apply (bin_comments_by_time_conserves test_chat 30); [done|lia|reflexivity].
Defined.

(** ** Peaks: threshold, busiest bin and distance *)

Lemma consecutive_cons {A} (R : A -> A -> Prop) (a b : A) (l : list A) :
  consecutive R (a :: b :: l) <-> R a b /\ consecutive R (b :: l).
Proof.
  unfold consecutive. split.
  - intros H. split; [by apply (H 0%nat)|]. intros i x y Hx Hy. by apply (H (S i)).
  - intros [Hab H] [|i] x y Hx Hy.
    + cbn in Hx, Hy. by injection Hx as <-; injection Hy as <-.
    + by apply (H i).
Qed.

Lemma consecutive_short {A} (R : A -> A -> Prop) (l : list A) :
  (length l <= 1)%nat -> consecutive R l.
Proof.
  intros Hl i a b _ Hb. apply lookup_lt_Some in Hb. lia.
Qed.

Lemma consecutive_snoc {A} (R : A -> A -> Prop) (l : list A) (a b : A) :
  consecutive R (l ++ [a]) -> R a b -> consecutive R ((l ++ [a]) ++ [b]).
Proof.
  intros H Hab i x y Hx Hy.
  pose proof (lookup_lt_Some _ _ _ Hy) as Hlen. rewrite !length_app in Hlen. cbn in Hlen.
  destruct (decide (S i < length (l ++ [a]))%nat) as [Hlt|Hge].
  - rewrite lookup_app_l in Hx, Hy by lia. by eapply H.
  - rewrite length_app in Hge. cbn in Hge.
    assert (i = length l) as -> by lia.
    rewrite lookup_app_l in Hx by (rewrite length_app; cbn; lia).
    rewrite lookup_app_r in Hx by lia. rewrite Nat.sub_diag in Hx.
    rewrite lookup_app_r in Hy by (rewrite length_app; cbn; lia).
    rewrite length_app in Hy. cbn in Hy.
    replace (S (length l) - (length l + 1))%nat with 0%nat in Hy by lia.
    cbn in Hx, Hy. by injection Hx as <-; injection Hy as <-.
Qed.

Lemma consecutive_replace_last {A} (R : A -> A -> Prop) (l : list A) (a b : A) :
  consecutive R (l ++ [a]) -> (forall x, R x a -> R x b) -> consecutive R (l ++ [b]).
Proof.
  intros H Hab i x y Hx Hy.
  pose proof (lookup_lt_Some _ _ _ Hy) as Hlen. rewrite length_app in Hlen. cbn in Hlen.
  rewrite lookup_app_l in Hx by lia.
  destruct (decide (S i < length l)%nat) as [Hlt|Hge].
  - rewrite lookup_app_l in Hy by lia.
    apply (H i); by rewrite lookup_app_l by lia.
  - assert (S i = length l) as Hi by lia.
    rewrite lookup_app_r in Hy by lia. rewrite Hi, Nat.sub_diag in Hy.
    cbn in Hy. injection Hy as <-. apply Hab. apply (H i).
    + by rewrite lookup_app_l by lia.
    + rewrite lookup_app_r by lia. by rewrite Hi, Nat.sub_diag.
Qed.

Section peak_partition.
Import CommentAnalyzer.
Context (min_gap_seconds : Z).

(** The groups closed by the loop are the rows it was given, cut into
    pieces. *)
Lemma peak_step_concat (rows : list TimeBin.t) (gs : list (list TimeBin.t))
    (g : list TimeBin.t) (out : list (list TimeBin.t)) :
  for_loop (peak_step Ok min_gap_seconds) (gs, g) rows ≫= finish Ok = Ok out ->
  concat out = concat gs ++ g ++ rows.
Proof.
  revert gs g. induction rows as [|row rows IH]; intros gs g; cbn.
  - unfold finish; cbn. destruct g; cbn; intros [= <-].
    + by rewrite app_nil_r.
    + rewrite concat_app. cbn. by rewrite !app_nil_r.
  - destruct (last g) as [prev|] eqn:Hlast.
    + destruct (_ <=? _)%Z; cbn; intros Hout%IH; rewrite Hout.
      * by rewrite <- app_assoc.
      * rewrite concat_app. cbn. by rewrite app_nil_r, <- app_assoc.
    + intros Hout%IH. rewrite Hout. by rewrite <- app_assoc.
Qed.

(** A group is closed only when the next row starts more than
    [min_gap_seconds] after its last row ends. *)
Lemma peak_step_apart (rows : list TimeBin.t) (gs : list (list TimeBin.t))
    (g : list TimeBin.t) (out : list (list TimeBin.t)) :
  (g = [] -> gs = []) ->
  consecutive (apart min_gap_seconds) (gs ++ [g]) ->
  for_loop (peak_step Ok min_gap_seconds) (gs, g) rows ≫= finish Ok = Ok out ->
  consecutive (apart min_gap_seconds) out.
Proof.
  revert gs g. induction rows as [|row rows IH]; intros gs g Hnil Hgs; cbn.
  - unfold finish; cbn. destruct g; cbn; intros [= <-]; [|done].
    rewrite Hnil by done. apply consecutive_short; cbn; lia.
  - destruct (last g) as [prev|] eqn:Hlast.
    + assert (g <> []) as Hg by (intros ->; done).
      destruct (_ <=? _)%Z eqn:Hgap; cbn.
      * apply IH; [by destruct g|].
        apply (consecutive_replace_last _ _ g); [done|].
        intros x Hx l f Hl Hf. apply Hx; [done|].
        destruct g; [done|]. exact Hf.
      * apply IH; [done|]. apply consecutive_snoc; [done|].
        intros l f Hl Hf. rewrite Hlast in Hl. injection Hl as <-.
        cbn in Hf. injection Hf as <-. apply Z.leb_gt in Hgap. lia.
    + assert (g = []) as -> by (by destruct g using rev_ind; [|rewrite last_snoc in Hlast]).
      rewrite Hnil by done. apply IH; [done|]. apply consecutive_short; cbn; lia.
Qed.
End peak_partition.

(** The groups of [find_peaks] cut the rows that reach the threshold into
    pieces, in order, and a new group opens only more than
    [min_gap_seconds] after the last one ended. *)
Lemma peak_groups_rows (binned_df : list TimeBin.t) (q : Q) (min_gap_seconds : Z)
    (groups : list (list TimeBin.t)) :
  binned_df <> [] ->
  peak_groups binned_df q min_gap_seconds = Ok groups ->
  exists rows,
    CommentAnalyzer.peak_rows binned_df q = Ok rows /\
    concat groups = rows /\
    consecutive (apart min_gap_seconds) groups.
Proof.
  intros Hne. unfold peak_groups. destruct binned_df as [|b binned_df]; [done|].
  destruct (CommentAnalyzer.peak_rows _ _) as [rows|e]; [|done].
  cbn [mbind result_bind].
  destruct rows as [|r rows].
  - intros [= <-]. exists []. split; [done|]. split; [done|]. apply consecutive_short; cbn; lia.
  - intros Hloop. exists (r :: rows). split; [done|]. split.
    + by apply (peak_step_concat min_gap_seconds (r :: rows) [] []) in Hloop.
    + apply (peak_step_apart min_gap_seconds (r :: rows) [] []) in Hloop; [done|done|].
      apply consecutive_short; cbn; lia.
Qed.

Lemma _merge_peak_group_Ok (group : list TimeBin.t) (peak : Peak.t) :
  CommentAnalyzer._merge_peak_group group = Ok peak ->
  exists max_row,
    In max_row group /\ peak = peak_of max_row /\
    forall x, In x group -> (TimeBin.count x <= TimeBin.count max_row)%Z.
Proof.
  destruct group as [|r rest]; [done|].
  unfold CommentAnalyzer._merge_peak_group, CommentAnalyzer.max_by_count. cbn.
  intros [= <-].
  destruct (max_by_count_foldl rest r) as (Hin & Hr & Hrest).
  eexists. split; [|split; [done|]].
  - destruct Hin as [->|Hin]; [by left|by right].
  - intros x [<-|Hx]; auto.
Qed.

Lemma peak_rows_Ok (binned_df : list TimeBin.t) (q : Q) (rows : list TimeBin.t) :
  CommentAnalyzer.peak_rows binned_df q = Ok rows ->
  exists threshold,
    Np.percentile (map TimeBin.count binned_df) q = Ok threshold /\
    rows = List.filter (fun r => Qleb threshold (inject_Z (TimeBin.count r))) binned_df.
Proof.
  intros H. apply bind_Ok in H as (threshold & Ht & [= <-]). by exists threshold.
Qed.



Lemma StronglySorted_nth {A} (R : A -> A -> Prop) (l : list A) (d : A) (i j : nat) :
  StronglySorted R l -> (i < j < length l)%nat -> R (nth i l d) (nth j l d).
Proof.
  intros Hl. revert i j. induction Hl as [|x l _ IH Hx]; intros i j Hij; cbn in Hij; [lia|].
  destruct j as [|j]; [lia|]. destruct i as [|i]; cbn.
  - rewrite List.Forall_forall in Hx. apply Hx, nth_In. lia.
  - apply IH. lia.
Qed.

(** The percentile of a non-empty column is not above its greatest
    value. *)
Lemma percentile_le_member (a : list Z) (q threshold : Q) :
  a <> [] ->
  Np.percentile a q = Ok threshold ->
  exists x, In x a /\ (threshold <= inject_Z x)%Q.
Proof.
  intros Hne. unfold Np.percentile.
  destruct (Qleb 0 q && Qleb q 100) eqn:Hq; [|done].
  apply andb_true_iff in Hq as [H0 H100]. Qcases.
  set (sorted := sort_by Z.leb a).
  set (n := Z.of_nat (length a)).
  assert (1 <= n)%Z as Hn by (destruct a; [done|cbn in n; lia]).
  set (vi := (q / 100 * inject_Z (n - 1))%Q).
  set (lo := Qfloor vi).
  set (hi := Z.min (lo + 1) (n - 1)).
  intros [= <-].
  assert (0 <= q / 100 <= 1)%Q as [Hu0 Hu1].
  { split; [apply Qle_shift_div_l; lra|apply Qle_shift_div_r; lra]. }
  assert (0 <= inject_Z (n - 1))%Q as HL by (apply inject_Z_nonneg; lia).
  assert (0 <= vi <= inject_Z (n - 1))%Q as [Hvi0 Hvi1].
  { unfold vi. split; [by apply Qmult_le_0_compat|].
    rewrite <- (Qmult_1_l (inject_Z (n - 1))) at 2. by apply Qmult_le_compat_r. }
  assert (0 <= lo <= n - 1)%Z as [Hlo0 Hlo1].
  { unfold lo. split.
    - change 0%Z with (Qfloor 0). by apply Qfloor_resp_le.
    - rewrite <- (Qfloor_Z (n - 1)). by apply Qfloor_resp_le. }
  assert (lo <= hi <= n - 1)%Z as [Hhi0 Hhi1] by (unfold hi; lia).
  assert (0 <= vi - inject_Z lo <= 1)%Q as [Hg0 Hg1].
  { pose proof (Qfloor_le vi). pose proof (Qlt_floor vi) as Hlt. fold lo in H, Hlt.
    rewrite inject_Z_plus in Hlt. change (inject_Z 1) with 1%Q in Hlt. split; lra. }
  assert (length sorted = length a) as Hlen
    by (unfold sorted; by rewrite sort_by_Permutation).
  assert (StronglySorted Z.le sorted) as Hsorted.
  { eapply StronglySorted_weaken; [|apply sort_by_StronglySorted].
    - intros x y Hxy. cbn in Hxy. by apply Z.leb_le.
    - intros x y Hxy. apply Z.leb_gt in Hxy. apply Z.leb_le. lia.
    - intros x y z Hxy Hyz. apply Z.leb_le in Hxy, Hyz. apply Z.leb_le. lia. }
  set (a_lo := nth (Z.to_nat lo) sorted 0%Z).
  set (a_hi := nth (Z.to_nat hi) sorted 0%Z).
  assert (a_lo <= a_hi)%Z as Hle.
  { destruct (decide (lo = hi)) as [Heq|Hneq]; [unfold a_lo, a_hi; rewrite Heq; lia|].
    apply StronglySorted_nth; [done|]. lia. }
  exists a_hi. split.
  - apply (sort_by_In Z.leb). apply nth_In. fold sorted. lia.
  - unfold Z.sub. rewrite inject_Z_plus, inject_Z_opp.
    assert (0 <= inject_Z a_hi - inject_Z a_lo)%Q as Hd.
    { rewrite Zle_Qle in Hle. lra. }
    assert ((inject_Z a_hi + - inject_Z a_lo) * (vi - inject_Z lo)
            <= (inject_Z a_hi + - inject_Z a_lo) * 1)%Q as Hmul.
    { rewrite !(Qmult_comm (inject_Z a_hi + - inject_Z a_lo)).
      apply Qmult_le_compat_r; [done|]. lra. }
    lra.
Qed.

Lemma max_count_row (binned_df : list TimeBin.t) :
  binned_df <> [] ->
  exists busiest,
    In busiest binned_df /\
    forall row, In row binned_df -> (TimeBin.count row <= TimeBin.count busiest)%Z.
Proof.
  destruct binned_df as [|r rest]; [done|]. intros _.
  destruct (max_by_count_foldl rest r) as (Hin & Hr & Hrest).
  set (busiest := foldl _ r rest) in *. exists busiest. split.
  - destruct Hin as [Heq|Hin]; [left; by symmetry|by right].
  - intros x [<-|Hx]; auto.
Qed.

(** X13. On a non-empty binned frame and a percentile between 0 and 100,
    [find_peaks] returns at least one peak, and the greatest count of the
    frame is among the peaks' counts: the busiest bin is never missed. *)
Theorem find_peaks_busiest (binned_df : list TimeBin.t) (threshold_percentile : Q)
    (min_gap_seconds : Z) :
  binned_df <> [] ->
  (0 <= threshold_percentile <= 100)%Q ->
  exists peaks,
    CommentAnalyzer.find_peaks binned_df threshold_percentile min_gap_seconds = Ok peaks /\
    Exists (fun peak =>
              Forall (fun row => (TimeBin.count row <= Peak.count peak)%Z) binned_df)
           peaks.
Proof.
  intros Hne Hq.
  destruct (find_peaks_returns binned_df threshold_percentile min_gap_seconds Hq)
    as [peaks Hpeaks].
  exists peaks. split; [done|].
  rewrite find_peaks_factor in Hpeaks.
  apply bind_Ok in Hpeaks as (groups & Hgroups & Hpeaks). apply for_each_Ok in Hpeaks.
  apply peak_groups_rows in Hgroups as (rows & Hrows & Hconcat & _); [|done].
  apply peak_rows_Ok in Hrows as (threshold & Ht & ->).
  apply percentile_le_member in Ht as (x & Hx & Hle); [|by destruct binned_df].
  apply in_map_iff in Hx as (r & <- & Hr).
  destruct (max_count_row binned_df Hne) as (busiest & Hbusiest & Hmax).
  assert (In busiest (concat groups)) as Hin.
  { rewrite Hconcat. apply List.filter_In. split; [done|]. apply Qleb_le.
    specialize (Hmax r Hr). rewrite Zle_Qle in Hmax. lra. }
  apply in_concat in Hin as (g & Hg & Hin).
  destruct (Forall2_In_l _ _ _ _ Hpeaks Hg) as (peak & Hpeak & Hmerge).
  apply _merge_peak_group_Ok in Hmerge as (max_row & _ & -> & Hgmax).
  apply List.Exists_exists. eexists. split; [exact Hpeak|].
  apply List.Forall_forall. intros row Hrow. cbn.
  specialize (Hmax row Hrow). specialize (Hgmax busiest Hin). lia.
Qed.

Lemma find_peaks_busiest_witness :
  exists peaks,
    CommentAnalyzer.find_peaks scenario_bins 75 30 = Ok peaks /\
    Exists (fun peak =>
              Forall (fun row => (TimeBin.count row <= Peak.count peak)%Z) scenario_bins)
           peaks.
Proof.
  apply (find_peaks_busiest scenario_bins 75 30); [done|]. split; by vm_compute.
Defined.

Lemma consecutive_Forall2 {A B} (P : A -> B -> Prop) (R : A -> A -> Prop)
    (R' : B -> B -> Prop) (l : list A) (l' : list B) :
  Forall2 P l l' ->
  consecutive R l ->
  (forall a b a' b', In a l -> In b l -> P a a' -> P b b' -> R a b -> R' a' b') ->
  consecutive R' l'.
Proof.
  intros HP HR Himp i a' b' Ha' Hb'.
  destruct (Forall2_lookup_r _ _ _ _ _ HP Ha') as (a & Ha & HPa).
  destruct (Forall2_lookup_r _ _ _ _ _ HP Hb') as (b & Hb & HPb).
  apply (Himp a b); try done.
  - apply list_elem_of_In. by eapply list_elem_of_lookup_2.
  - apply list_elem_of_In. by eapply list_elem_of_lookup_2.
  - by apply (HR i).
Qed.

Lemma StronglySorted_app_inv {A} (R : A -> A -> Prop) (l1 l2 : list A) :
  StronglySorted R (l1 ++ l2) -> StronglySorted R l1 /\ StronglySorted R l2.
Proof.
  induction l1 as [|x l1 IH]; cbn; [by split; [constructor|]|].
  intros H. apply StronglySorted_inv in H as [Hl Hx]. destruct (IH Hl) as [H1 H2].
  split; [|done]. constructor; [done|]. by apply Forall_app in Hx as [? _].
Qed.

Lemma StronglySorted_concat {A} (R : A -> A -> Prop) (gs : list (list A)) :
  StronglySorted R (concat gs) -> Forall (StronglySorted R) gs.
Proof.
  induction gs as [|g gs IH]; cbn; [constructor|].
  intros [Hg Hgs]%StronglySorted_app_inv. constructor; auto.
Qed.

Lemma bins_in_order_last (g : list TimeBin.t) (x l : TimeBin.t) :
  bins_in_order g -> In x g -> last g = Some l ->
  (TimeBin.bin_end x <= TimeBin.bin_end l)%Z.
Proof.
  intros [Hsorted Hwf]. induction Hsorted as [|y g Hg IH Hy]; [done|].
  apply Forall_cons in Hwf as [Hwfy Hwf]. intros Hx Hl.
  destruct g as [|z g]; cbn in Hl.
  - injection Hl as <-. destruct Hx as [<-|[]]. lia.
  - destruct Hx as [<-|Hx]; [|by apply IH].
    assert (In l (z :: g)) as Hin.
    { apply last_Some in Hl as [g' Hg']. rewrite Hg'. apply in_or_app. right. by left. }
    rewrite List.Forall_forall in Hy, Hwf.
    specialize (Hy l Hin). specialize (Hwf l Hin). unfold bin_before in Hy. lia.
Qed.

Lemma bins_in_order_head (g : list TimeBin.t) (x f : TimeBin.t) :
  bins_in_order g -> In x g -> head g = Some f ->
  (TimeBin.bin_start f <= TimeBin.bin_start x)%Z.
Proof.
  intros [Hsorted Hwf]. destruct g as [|y g]; [done|]. cbn. intros Hx [= <-].
  apply StronglySorted_inv in Hsorted as [_ Hy].
  apply Forall_cons in Hwf as [Hwfy _].
  destruct Hx as [<-|Hx]; [lia|].
  rewrite List.Forall_forall in Hy. specialize (Hy x Hx). unfold bin_before in Hy. lia.
Qed.

(** X14. On bins in time order that do not overlap, as
    [bin_comments_by_time] returns them, two neighbouring peaks of
    [find_peaks] are more than [min_gap_seconds] apart: the later one
    starts more than [min_gap_seconds] after the earlier one ends. *)
Theorem find_peaks_separated (binned_df : list TimeBin.t) (threshold_percentile : Q)
    (min_gap_seconds : Z) (peaks : list Peak.t) :
  bins_in_order binned_df ->
  CommentAnalyzer.find_peaks binned_df threshold_percentile min_gap_seconds = Ok peaks ->
  consecutive (fun earlier later =>
                 (min_gap_seconds < Peak.time later - Peak.time_end earlier)%Z) peaks.
Proof.
  intros [Hsorted Hwf]. rewrite find_peaks_factor. intros H.
  apply bind_Ok in H as (groups & Hgroups & Hpeaks). apply for_each_Ok in Hpeaks.
  destruct binned_df as [|b binned_df].
  { injection Hgroups as <-. inversion Hpeaks. apply consecutive_short; cbn; lia. }
  apply peak_groups_rows in Hgroups as (rows & Hrows & Hconcat & Hapart); [|done].
  apply peak_rows_Ok in Hrows as (threshold & _ & ->).
  set (keep := fun r => Qleb threshold (inject_Z (TimeBin.count r))) in *.
  assert (Forall bins_in_order groups) as Hgs.
  { apply (filter_StronglySorted _ keep) in Hsorted. rewrite <- Hconcat in Hsorted.
    apply StronglySorted_concat in Hsorted.
    rewrite List.Forall_forall in Hsorted |- *. intros g Hg. split; [by apply Hsorted|].
    rewrite List.Forall_forall in Hwf |- *. intros x Hx. apply Hwf.
    assert (In x (concat groups)) as Hin by (apply in_concat; eauto).
    rewrite Hconcat in Hin. by apply List.filter_In in Hin as [? _]. }
  eapply consecutive_Forall2; [exact Hpeaks|exact Hapart|].
  intros g1 g2 p1 p2 Hg1 Hg2 Hp1 Hp2 Hg.
  rewrite List.Forall_forall in Hgs.
  apply _merge_peak_group_Ok in Hp1 as (m1 & Hm1 & -> & _).
  apply _merge_peak_group_Ok in Hp2 as (m2 & Hm2 & -> & _).
  destruct (last g1) as [l1|] eqn:Hl1;
    [|by destruct g1 using rev_ind; [|rewrite last_snoc in Hl1]].
  destruct (head g2) as [f2|] eqn:Hf2; [|by destruct g2].
  specialize (Hg l1 f2 Hl1 Hf2).
  pose proof (bins_in_order_last g1 m1 l1 (Hgs g1 Hg1) Hm1 Hl1).
  pose proof (bins_in_order_head g2 m2 f2 (Hgs g2 Hg2) Hm2 Hf2).
  cbn. lia.
Qed.

Lemma scenario_bins_in_order : bins_in_order scenario_bins.
Proof.
  split.
  - repeat (constructor; [|repeat constructor; unfold bin_before; cbn; lia]). constructor.
  - repeat (constructor; [cbn; lia|]). constructor.
Qed.

Lemma find_peaks_separated_witness :
  CommentAnalyzer.find_peaks scenario_bins 0 30
    = Ok [ peak_of (time_bin 0 30 4 30); peak_of (time_bin 90 120 3 30) ] /\
  consecutive (fun earlier later => (30 < Peak.time later - Peak.time_end earlier)%Z)
              [ peak_of (time_bin 0 30 4 30); peak_of (time_bin 90 120 3 30) ].
Proof.
  split; [reflexivity|].
  apply (find_peaks_separated scenario_bins 0 30); [|reflexivity].
  apply scenario_bins_in_order.
Defined.

(** ** Keyword searches *)


Lemma Forall2_In_r {A B} (P : A -> B -> Prop) (l : list A) (l' : list B) (y : B) :
  Forall2 P l l' -> In y l' -> exists x, In x l /\ P x y.
Proof.
  induction 1 as [|a b l l' Hab _ IH]; [done|].
  intros [<-|Hy]; [exists a; by split; [left|]|].
  destruct (IH Hy) as (x & Hx & Hxy). exists x. by split; [right|].
Qed.

Section keyword_hits.
Context `{RegexEngine}.
Import CommentAnalyzer.



Lemma keyword_matches_In (chat_df : list CommentRecord.t) (case_sensitive : bool)
    (keyword : string) (hits : list KeywordHit.t) (hit : KeywordHit.t) :
  keyword_matches chat_df case_sensitive keyword = Ok hits ->
  In hit hits <->
  exists r search text,
    KeywordHit.keyword hit = keyword /\
    re_compile (negb case_sensitive) keyword = Some search /\
    In r chat_df /\ CommentRecord.message r = Some text /\ search text = true /\
    KeywordHit.timestamp_sec hit = CommentRecord.timestamp_sec r /\
    KeywordHit.message hit = Some text.
Proof.
  unfold keyword_matches, Py.compile.
  destruct (re_compile (negb case_sensitive) keyword) as [search|] eqn:Hc; [|done].
  cbn. intros [= <-]. rewrite in_map_iff. split.
  - intros (r & <- & Hr). apply List.filter_In in Hr as [Hr Hm].
    destruct (CommentRecord.message r) as [text|] eqn:Htext; [|done].
    exists r, search, text. cbn. by rewrite Htext.
  - intros (r & search' & text & Hk & [= <-] & Hr & Htext & Hs & Hts & Hmsg).
    exists r. split.
    + destruct hit as [k t m]; cbn in *. by rewrite Hk, Hts, Hmsg, Htext.
    + apply List.filter_In. split; [done|]. by rewrite Htext.
Qed.
End keyword_hits.



Lemma count_keywords_In `{RegexEngine} (chat_df : list CommentRecord.t)
    (keywords : list string) (case_sensitive : bool) (hits : list KeywordHit.t) :
  CommentAnalyzer.count_keywords chat_df keywords case_sensitive = Ok hits ->
  forall hit,
    In hit hits <->
    exists r search text,
      In (KeywordHit.keyword hit) keywords /\
      re_compile (negb case_sensitive) (KeywordHit.keyword hit) = Some search /\
      In r chat_df /\ CommentRecord.message r = Some text /\ search text = true /\
      KeywordHit.timestamp_sec hit = CommentRecord.timestamp_sec r /\
      KeywordHit.message hit = Some text.
Proof.
  intros Hhits hit. destruct chat_df as [|r0 chat_df].
  { injection Hhits as <-. split; [done|]. by intros (r & ? & ? & _ & _ & [] & _). }
  unfold CommentAnalyzer.count_keywords in Hhits.
  apply bind_Ok in Hhits as (results & Hresults & [= <-]).
  apply for_each_Ok in Hresults. rewrite in_concat. split.
  - intros (hs & Hhs & Hhit).
    destruct (Forall2_In_r _ _ _ _ Hresults Hhs) as (k & Hk & Hmatch).
    destruct (proj1 (keyword_matches_In _ _ _ _ hit Hmatch) Hhit)
      as (r & search & text & Hkw & Hc & Hrest).
    exists r, search, text. by rewrite Hkw.
  - intros (r & search & text & Hk & Hc & Hrest).
    destruct (Forall2_In_l _ _ _ _ Hresults Hk) as (hs & Hhs & Hmatch).
    exists hs. split; [done|].
    apply (keyword_matches_In _ _ _ _ hit Hmatch). by exists r, search, text.
Qed.


(** X16. The table of [count_keywords] is sound and complete: it holds a
    row (keyword, timestamp, message) exactly when the keyword is one of
    those asked for and some comment with that timestamp has that message,
    which the keyword's pattern finds.  A comment found by two keywords is
    listed under both. *)
Theorem count_keywords_hits `{RegexEngine} (chat_df : list CommentRecord.t)
    (keywords : list string) (case_sensitive : bool) (hits : list KeywordHit.t) :
  CommentAnalyzer.count_keywords chat_df keywords case_sensitive = Ok hits ->
  forall hit,
    In hit hits <->
    exists r search text,
      In (KeywordHit.keyword hit) keywords /\
      re_compile (negb case_sensitive) (KeywordHit.keyword hit) = Some search /\
      In r chat_df /\ CommentRecord.message r = Some text /\ search text = true /\
      KeywordHit.timestamp_sec hit = CommentRecord.timestamp_sec r /\
      KeywordHit.message hit = Some text.
Proof. apply count_keywords_In. Qed.

Lemma count_keywords_hits_witness :
  exists hits,
    @CommentAnalyzer.count_keywords literal_engine test_chat ["草"; "w"] false = Ok hits /\
    length hits = 4%nat /\
    forall hit,
      In hit hits <->
      exists r search text,
        In (KeywordHit.keyword hit) ["草"; "w"] /\
        @re_compile literal_engine (negb false) (KeywordHit.keyword hit) = Some search /\
        In r test_chat /\ CommentRecord.message r = Some text /\ search text = true /\
        KeywordHit.timestamp_sec hit = CommentRecord.timestamp_sec r /\
        KeywordHit.message hit = Some text.
Proof.
  eexists. split; [by vm_compute|]. split; [done|].
  apply (@count_keywords_hits literal_engine test_chat ["草"; "w"] false).
  by vm_compute.
Defined.

(** ** Silences, segments and topic changes *)

Section silence_gaps.
Context `{FloatArith}.
Import SubtitleAnalyzer.

Lemma detect_silence_gaps_eq (df : list SubtitleRecord.t) (g : Q) :
  detect_silence_gaps df g = adjacent_gaps g df.
Proof.
  unfold detect_silence_gaps. destruct df as [|a [|b df]]; done.
Qed.

Lemma adjacent_gaps_In (g : Q) (df : list SubtitleRecord.t) (gap : Gap.t) :
  In gap (adjacent_gaps g df) <->
  exists i current next,
    df !! i = Some current /\ df !! S i = Some next /\
    (g <= fsub (SubtitleRecord.start next) (SubtitleRecord.end_ current))%Q /\
    gap = {| Gap.gap_start := SubtitleRecord.end_ current;
             Gap.gap_end := SubtitleRecord.start next;
             Gap.gap_duration :=
               fsub (SubtitleRecord.start next) (SubtitleRecord.end_ current) |}.
Proof.
  induction df as [|a df IH].
  { split; [done|]. by intros (i & ? & ? & ? & _). }
  destruct df as [|b df].
  { split; [done|]. by intros ([|i] & ? & ? & _ & ? & _). }
  rewrite adjacent_gaps_cons, in_app_iff, IH. split.
  - intros [Hhere|(i & current & next & Hc & Hn & Hrest)].
    + destruct (Qleb g _) eqn:Hg; [|done]. destruct Hhere as [<-|[]].
      exists 0%nat, a, b. repeat split; try done. by apply Qleb_le.
    + by exists (S i), current, next.
  - intros ([|i] & current & next & Hc & Hn & Hg & ->).
    + cbn in Hc, Hn. injection Hc as <-. injection Hn as <-. left.
      apply Qleb_le in Hg. rewrite Hg. by left.
    + right. by exists i, current, next.
Qed.
End silence_gaps.

(** X17. [detect_silence_gaps] reports exactly the adjacent pairs of
    subtitles whose distance, the float difference [next.start -
    current.end], is [min_gap_seconds] or more: a gap is in the result if
    and only if it runs from the end of a subtitle to the start of the next
    one, its duration is that float difference, and the difference is not
    below [min_gap_seconds].  Frames with fewer than two rows give no gap.
    This holds whatever the rounding of the floats. *)
Theorem detect_silence_gaps_spec `{FloatArith} (subtitle_df : list SubtitleRecord.t)
    (min_gap_seconds : Q) (gap : Gap.t) :
  In gap (SubtitleAnalyzer.detect_silence_gaps subtitle_df min_gap_seconds) <->
  exists i current next,
    subtitle_df !! i = Some current /\ subtitle_df !! S i = Some next /\
    (min_gap_seconds
     <= fsub (SubtitleRecord.start next) (SubtitleRecord.end_ current))%Q /\
    gap = {| Gap.gap_start := SubtitleRecord.end_ current;
             Gap.gap_end := SubtitleRecord.start next;
             Gap.gap_duration :=
               fsub (SubtitleRecord.start next) (SubtitleRecord.end_ current) |}.
Proof. rewrite detect_silence_gaps_eq. apply adjacent_gaps_In. Qed.

Section segments.
Import SubtitleAnalyzer.
Context `{FloatArith} (subtitle_df : list SubtitleRecord.t) (gaps : list Gap.t)
        (min_segment_duration : Q).

Lemma segments_ok_snoc (segs : list Segment.t) (s : Segment.t) :
  segments_ok subtitle_df min_segment_duration segs ->
  segment_ok subtitle_df min_segment_duration (length segs) s ->
  segments_ok subtitle_df min_segment_duration (segs ++ [s]).
Proof.
  intros Hsegs Hs i s' Hi.
  destruct (decide (i < length segs)%nat) as [Hlt|Hge].
  - rewrite lookup_app_l in Hi by done. by apply Hsegs.
  - pose proof (lookup_lt_Some _ _ _ Hi) as Hlen. rewrite length_app in Hlen. cbn in Hlen.
    assert (i = length segs) as -> by lia.
    rewrite lookup_app_r, Nat.sub_diag in Hi by lia. cbn in Hi. by injection Hi as <-.
Qed.

Lemma subtitles_counted_snoc (segs : list Segment.t) (s : Segment.t) :
  subtitles_counted (segs ++ [s]) = (subtitles_counted segs + Segment.subtitle_count s)%nat.
Proof.
  unfold subtitles_counted. rewrite sum_list_with_app. cbn. lia.
Qed.

Lemma segment_step_inv (st st' : seg_state) (i : nat) (row : SubtitleRecord.t) :
  subtitle_df !! i = Some row ->
  segment_inv subtitle_df min_segment_duration st i ->
  segment_step subtitle_df gaps min_segment_duration st i row = Ok st' ->
  segment_inv subtitle_df min_segment_duration st' (S i).
Proof.
  intros Hrow (Hsegs & (first & Hfirst & Hstart) & Hcount).
  pose proof (lookup_lt_Some _ _ _ Hrow) as Hi.
  assert (In row subtitle_df) as Hin
    by (apply list_elem_of_In; by eapply list_elem_of_lookup_2).
  replace (i <? length subtitle_df)%nat with true in Hcount
    by (symmetry; apply Nat.ltb_lt; lia).
  unfold segment_step.
  set (subs := current_segment_subs st ++ [row]).
  assert (length subs = S (length (current_segment_subs st))) as Hsubs
    by (unfold subs; rewrite length_app; cbn; lia).
  set (segs' := if Qleb min_segment_duration
                       (fsub (SubtitleRecord.end_ row) (segment_start st))
                then _ else segments st).
  assert (segments_ok subtitle_df min_segment_duration segs' /\
          (subtitles_counted segs' <= subtitles_counted (segments st) + length subs)%nat)
    as [Hsegs' Hcount'].
  { unfold segs'. destruct (Qleb min_segment_duration _) eqn:Hd; [|split; [done|lia]].
    split.
    - apply segments_ok_snoc; [done|]. repeat split; cbn; try done.
      + by apply Qleb_le.
      + lia.
      + by exists first, row.
    - rewrite subtitles_counted_snoc. cbn. lia. }
  destruct (_ || (i =? length subtitle_df - 1)%nat) eqn:Hclose.
  - destruct (Nat.ltb_spec i (length subtitle_df - 1)) as [Hlt|Hge].
    + unfold Py.index. destruct (subtitle_df !! (i + 1)%nat) as [next|] eqn:Hnext; [|done].
      cbn. intros [= <-]. split; [done|]. split.
      * exists next. split; [|done].
        apply list_elem_of_In. by eapply list_elem_of_lookup_2.
      * cbn [segments current_segment_subs length].
        destruct (S i <? length subtitle_df)%nat; lia.
    + intros [= <-]. split; [done|]. split; [by exists first|].
      cbn [segments current_segment_subs].
      replace (S i <? length subtitle_df)%nat with false
        by (symmetry; apply Nat.ltb_ge; lia).
      lia.
  - intros [= <-]. split; [done|]. split; [by exists first|].
    cbn [segments current_segment_subs].
    destruct (S i <? length subtitle_df)%nat; lia.
Qed.

Lemma segment_loop_inv (rows done_ : list SubtitleRecord.t) (st st' : seg_state) :
  subtitle_df = done_ ++ rows ->
  segment_inv subtitle_df min_segment_duration st (length done_) ->
  segment_loop subtitle_df gaps min_segment_duration st (length done_) rows = Ok st' ->
  segment_inv subtitle_df min_segment_duration st' (length subtitle_df).
Proof.
  revert done_ st. induction rows as [|row rows IH]; intros done_ st Hdf Hinv; cbn.
  - intros [= <-]. rewrite app_nil_r in Hdf. by rewrite <- Hdf in Hinv.
  - intros Hloop. apply bind_Ok in Hloop as (st1 & Hstep & Hloop).
    apply (IH (done_ ++ [row]) st1).
    + by rewrite <- app_assoc.
    + rewrite length_app. cbn. rewrite Nat.add_1_r.
      eapply segment_step_inv; [|done|done].
      rewrite Hdf. by rewrite lookup_app_r, Nat.sub_diag by lia.
    + rewrite length_app. cbn. by rewrite Nat.add_1_r.
Qed.
End segments.

(** X18. [segment_by_silence] always returns, and of the segments it
    returns the [i]-th has [segment_id = i], a duration that is the float
    difference [end - start], a duration of [min_segment_duration] or more
    and at least one subtitle; it starts where a subtitle of the frame
    starts and ends where one ends.  The segments together count no more
    subtitles than the frame has: no subtitle is counted twice, and those of
    segments that are too short are dropped.  This holds whatever the
    rounding of the floats. *)
Theorem segment_by_silence_shape `{FloatArith} (subtitle_df : list SubtitleRecord.t)
    (min_gap_seconds min_segment_duration : Q) :
  exists segments,
    SubtitleAnalyzer.segment_by_silence subtitle_df min_gap_seconds min_segment_duration
      = Ok segments /\
    segments_ok subtitle_df min_segment_duration segments /\
    (subtitles_counted segments <= length subtitle_df)%nat.
Proof.
  destruct (segment_by_silence_returns subtitle_df min_gap_seconds min_segment_duration)
    as [segs Hsegs].
  exists segs. split; [done|].
  unfold SubtitleAnalyzer.segment_by_silence in Hsegs.
  destruct subtitle_df as [|first df] eqn:Hdf.
  { injection Hsegs as <-. split; [by intros i s|cbn; lia]. }
  rewrite <- Hdf in *.
  apply bind_Ok in Hsegs as (st & Hloop & [= <-]).
  apply (segment_loop_inv subtitle_df _ min_segment_duration subtitle_df []) in Hloop.
  - destruct Hloop as (Hok & _ & Hcount). split; [done|].
    rewrite Nat.ltb_irrefl in Hcount. lia.
  - done.
  - split; [by intros i s|]. split.
    2:{ unfold subtitles_counted.
        cbn [length sum_list_with SubtitleAnalyzer.segments
             SubtitleAnalyzer.current_segment_subs].
        destruct (0 <? length subtitle_df)%nat; lia. }
    exists first. split; [rewrite Hdf; by left|done].
Qed.

Section topic_changes.
Context `{RegexEngine}.
Import SubtitleAnalyzer.

Lemma first_match_Some (keywords : list string) (text keyword : string) :
  first_match keywords text = Ok (Some keyword) <-> first_found keywords text keyword.
Proof.
  induction keywords as [|k keywords IH]; cbn.
  { split; [done|]. intros (pre & post & ? & Hk & _). by destruct pre. }
  unfold Py.compile. destruct (re_compile false k) as [search|] eqn:Hc; cbn.
  - destruct (search text) eqn:Hs.
    + split.
      * intros [= <-]. exists [], keywords, search. by repeat split.
      * intros ([|k' pre] & post & search' & Hk & Hc' & Hs' & Hpre).
        -- by injection Hk as <- _.
        -- injection Hk as <- _. apply Forall_cons in Hpre as [(s & Hcs & Hfalse) _].
           congruence.
    + rewrite IH. split.
      * intros (pre & post & search' & -> & Hc' & Hs' & Hpre).
        exists (k :: pre), post, search'. repeat split; try done.
        constructor; [by exists search|done].
      * intros ([|k' pre] & post & search' & Hk & Hc' & Hs' & Hpre).
        -- injection Hk as <- _. congruence.
        -- injection Hk as <- ->. apply Forall_cons in Hpre as [_ Hpre].
           by exists pre, post, search'.
  - split; [done|].
    intros ([|k' pre] & post & search' & Hk & Hc' & Hs' & Hpre).
    + injection Hk as <- _. congruence.
    + injection Hk as <- _. apply Forall_cons in Hpre as [(s & Hcs & _) _]. congruence.
Qed.

Lemma topic_of_row_In (keywords : list string) (row : SubtitleRecord.t)
    (changes : list TopicChange.t) (c : TopicChange.t) :
  topic_of_row keywords row = Ok changes ->
  (length changes <= 1)%nat /\
  (In c changes <->
   TopicChange.time c = SubtitleRecord.start row /\
   TopicChange.text c = SubtitleRecord.text row /\
   first_found keywords (SubtitleRecord.text row) (TopicChange.keyword c)).
Proof.
  unfold topic_of_row. intros Hrow.
  apply bind_Ok in Hrow as ([k|] & Hfound & Hrow); injection Hrow as <-.
  - split; [cbn; lia|]. split.
    + intros [<-|[]]. cbn. repeat split. by apply first_match_Some.
    + intros (Ht & Htext & Hk%first_match_Some). left.
      rewrite Hfound in Hk. injection Hk as ->.
      destruct c; cbn in *. by rewrite Ht, Htext.
  - split; [cbn; lia|]. split; [done|].
    intros (_ & _ & Hk%first_match_Some). congruence.
Qed.

Lemma detect_topic_changes_In (subtitle_df : list SubtitleRecord.t)
    (keywords : option (list string)) (changes : list TopicChange.t) :
  detect_topic_changes subtitle_df keywords = Ok changes ->
  (length changes <= length subtitle_df)%nat /\
  forall c,
    In c changes <->
    exists row,
      In row subtitle_df /\
      TopicChange.time c = SubtitleRecord.start row /\
      TopicChange.text c = SubtitleRecord.text row /\
      first_found (default default_topic_keywords keywords)
                  (SubtitleRecord.text row) (TopicChange.keyword c).
Proof.
  unfold detect_topic_changes. intros Hchanges.
  apply bind_Ok in Hchanges as (per_row & Hper_row & [= <-]).
  apply for_each_Ok in Hper_row. split.
  - induction Hper_row as [|row cs rows css Hrow _ IH]; [done|]. cbn.
    rewrite length_app.
    pose proof (topic_of_row_In _ _ _ {| TopicChange.time := 0; TopicChange.keyword := "";
                                         TopicChange.text := "" |} Hrow) as [Hlen _].
    lia.
  - intros c. rewrite in_concat. split.
    + intros (cs & Hcs & Hc).
      destruct (Forall2_In_r _ _ _ _ Hper_row Hcs) as (row & Hrow & Htopic).
      exists row. split; [done|].
      by apply (topic_of_row_In _ _ _ c Htopic).
    + intros (row & Hrow & Hc).
      destruct (Forall2_In_l _ _ _ _ Hper_row Hrow) as (cs & Hcs & Htopic).
      exists cs. split; [done|]. by apply (topic_of_row_In _ _ _ c Htopic).
Qed.

Lemma keyword_rows_In (subtitle_df : list SubtitleRecord.t) (case_sensitive : bool)
    (keyword : string) (rows : list KeywordTimestamp.t) (search : string -> bool)
    (r : SubtitleRecord.t) :
  SubtitleLookup.keyword_rows subtitle_df case_sensitive keyword = Ok rows ->
  re_compile (negb case_sensitive) keyword = Some search ->
  In r subtitle_df -> search (SubtitleRecord.text r) = true ->
  In {| KeywordTimestamp.keyword := keyword;
        KeywordTimestamp.start := SubtitleRecord.start r;
        KeywordTimestamp.end_ := SubtitleRecord.end_ r;
        KeywordTimestamp.text := SubtitleRecord.text r |} rows.
Proof.
  unfold SubtitleLookup.keyword_rows, Py.compile. intros Hrows Hc Hr Hs.
  rewrite Hc in Hrows. cbn in Hrows. injection Hrows as <-.
  apply in_map_iff. exists r. split; [done|]. apply List.filter_In. by split.
Qed.
End topic_changes.

(** X19. [detect_topic_changes] reports at most one change per subtitle,
    and exactly these: a change (time, keyword, text) is in the result if
    and only if some subtitle has that start and that text and the keyword
    is the first of the keywords that is found in the text. *)
Theorem detect_topic_changes_spec `{RegexEngine} (subtitle_df : list SubtitleRecord.t)
    (keywords : option (list string)) (changes : list TopicChange.t) :
  SubtitleAnalyzer.detect_topic_changes subtitle_df keywords = Ok changes ->
  (length changes <= length subtitle_df)%nat /\
  forall c,
    In c changes <->
    exists row,
      In row subtitle_df /\
      TopicChange.time c = SubtitleRecord.start row /\
      TopicChange.text c = SubtitleRecord.text row /\
      first_found (default SubtitleAnalyzer.default_topic_keywords keywords)
                  (SubtitleRecord.text row) (TopicChange.keyword c).
Proof. apply detect_topic_changes_In. Qed.

Lemma detect_topic_changes_spec_witness :
  exists changes,
    @SubtitleAnalyzer.detect_topic_changes literal_engine test_subtitles None = Ok changes /\
    length changes = 3%nat /\
    (length changes <= length test_subtitles)%nat /\
    forall c,
      In c changes <->
      exists row,
        In row test_subtitles /\
        TopicChange.time c = SubtitleRecord.start row /\
        TopicChange.text c = SubtitleRecord.text row /\
        @first_found literal_engine
          (default SubtitleAnalyzer.default_topic_keywords None)
          (SubtitleRecord.text row) (TopicChange.keyword c).
Proof.
  eexists. split; [by vm_compute|]. split; [done|].
  apply (@detect_topic_changes_spec literal_engine test_subtitles None). by vm_compute.
Defined.

(** X20. The two keyword searches over subtitles agree: every topic change
    that [detect_topic_changes] reports for a list of keywords is a row of
    the case-sensitive [find_keyword_timestamps] for the same keywords, with
    the same keyword, start and text. *)
Theorem topic_changes_are_keyword_rows `{RegexEngine}
    (subtitle_df : list SubtitleRecord.t) (keywords : list string)
    (changes : list TopicChange.t) (rows : list KeywordTimestamp.t) :
  SubtitleAnalyzer.detect_topic_changes subtitle_df (Some keywords) = Ok changes ->
  SubtitleLookup.find_keyword_timestamps subtitle_df keywords true = Ok rows ->
  Forall (fun c => exists row,
            In row rows /\
            KeywordTimestamp.keyword row = TopicChange.keyword c /\
            KeywordTimestamp.start row = TopicChange.time c /\
            KeywordTimestamp.text row = TopicChange.text c) changes.
Proof.
  intros Hchanges Hrows. apply detect_topic_changes_In in Hchanges as [_ Hchanges].
  apply List.Forall_forall. intros c Hc.
  apply Hchanges in Hc as (r & Hr & Htime & Htext & Hfound).
  destruct Hfound as (pre & post & search & Hk & Hcompile & Hs & _). cbn in Hk.
  destruct subtitle_df as [|r0 df] eqn:Hdf; [done|]. rewrite <- Hdf in *.
  unfold SubtitleLookup.find_keyword_timestamps in Hrows. rewrite Hdf in Hrows.
  rewrite <- Hdf in Hrows.
  apply bind_Ok in Hrows as (results & Hresults & [= <-]).
  apply for_each_Ok in Hresults.
  assert (In (TopicChange.keyword c) keywords) as Hin
    by (rewrite Hk; apply in_or_app; right; by left).
  destruct (Forall2_In_l _ _ _ _ Hresults Hin) as (res & Hres & Hrow).
  eexists. split.
  - apply in_concat. exists res. split; [done|].
    by apply (keyword_rows_In _ _ _ _ search r Hrow).
  - done.
Qed.

Lemma topic_changes_are_keyword_rows_witness :
  exists changes rows,
    @SubtitleAnalyzer.detect_topic_changes literal_engine test_subtitles
      (Some ["次は"; "これから"]) = Ok changes /\
    @SubtitleLookup.find_keyword_timestamps literal_engine test_subtitles
      ["次は"; "これから"] true = Ok rows /\
    length changes = 2%nat /\
    Forall (fun c => exists row,
              In row rows /\
              KeywordTimestamp.keyword row = TopicChange.keyword c /\
              KeywordTimestamp.start row = TopicChange.time c /\
              KeywordTimestamp.text row = TopicChange.text c) changes.
Proof.
  eexists _, _. split; [by vm_compute|]. split; [by vm_compute|]. split; [done|].
  apply (@topic_changes_are_keyword_rows literal_engine test_subtitles ["次は"; "これから"]);
    by vm_compute.
Defined.

(** ** Thresholds on rounded differences *)

(** X30.  In double precision the thresholds are decided on the rounded
    differences.  Between a subtitle that ends at 0.13 and one that starts
    at 2.13 the exact distance is below 2 and the float difference is 2:
    [detect_silence_gaps] with [min_gap_seconds = 2] reports the gap, and
    [segment_by_silence] cuts there and returns the one segment from 2.13
    to 42.13, of one subtitle.  A subtitle from 0.02 to 30.02 is exactly
    less than 30 long and its float duration is 30: it is kept as a segment
    with [min_segment_duration = 30].  A subtitle from 0.03 to 180.03 is
    exactly more than 180 long and its float duration is 180:
    [generate_candidates] with [max_duration = 180] returns it. *)
Theorem thresholds_on_rounded_differences :
  (exists current next,
     near_gap_subtitles = [current; next] /\
     (SubtitleRecord.start next - SubtitleRecord.end_ current < 2)%Q /\
     @SubtitleAnalyzer.detect_silence_gaps Binary64.arith near_gap_subtitles 2
     = [ {| Gap.gap_start := SubtitleRecord.end_ current;
            Gap.gap_end := SubtitleRecord.start next;
            Gap.gap_duration := 2 |} ] /\
     @SubtitleAnalyzer.segment_by_silence Binary64.arith near_gap_subtitles 2 30
     = Ok [ {| Segment.segment_id := 0;
               Segment.start := SubtitleRecord.start next;
               Segment.end_ := SubtitleRecord.end_ next;
               Segment.duration := 40;
               Segment.subtitle_count := 1;
               Segment.text := "b" |} ]) /\
  (exists only,
     near_min_subtitles = [only] /\
     (SubtitleRecord.end_ only - SubtitleRecord.start only < 30)%Q /\
     @SubtitleAnalyzer.segment_by_silence Binary64.arith near_min_subtitles 2 30
     = Ok [ {| Segment.segment_id := 0;
               Segment.start := SubtitleRecord.start only;
               Segment.end_ := SubtitleRecord.end_ only;
               Segment.duration := 30;
               Segment.subtitle_count := 1;
               Segment.text := "c" |} ]) /\
  (exists only candidate,
     near_max_subtitles = [only] /\
     (180 < SubtitleRecord.end_ only - SubtitleRecord.start only)%Q /\
     @ClipGenerator.generate_candidates literal_engine Binary64.arith
       {| ClipGenerator.comment_analyzer := None;
          ClipGenerator.subtitle_analyzer := Some near_max_subtitles |}
       30 180 None = Ok [candidate] /\
     Merged.start candidate = SubtitleRecord.start only /\
     Merged.end_ candidate = SubtitleRecord.end_ only).
Proof.
  split; [|split].
  - eexists _, _. split; [reflexivity|]. split; [by vm_compute|].
    split; by vm_compute.
  - eexists. split; [reflexivity|]. split; by vm_compute.
  - eexists _, _. split; [reflexivity|]. split; [by vm_compute|].
    split; [by vm_compute|]. split; by vm_compute.
Qed.

(** ** Candidates: overlap, order, durations *)

Section overlap.
Import ClipGenerator.

(** One call of [_calculate_overlap], with the bounds of the overlap and
    the shorter of the two lengths named. *)
Lemma _calculate_overlap_Ok (a b c d : Q) :
  exists lo hi shorter r,
    _calculate_overlap a b c d = Ok r /\
    ((a <= lo /\ c <= lo /\ (lo == a \/ lo == c)) /\
     (hi <= b /\ hi <= d /\ (hi == b \/ hi == d)) /\
     (shorter <= b - a /\ shorter <= d - c /\ (shorter == b - a \/ shorter == d - c)) /\
     (hi <= lo /\ r = 0 \/ lo < hi /\ r = (hi - lo) / shorter))%Q.
Proof.
  exists (Py.max a c), (Py.min b d), (Py.min (b - a) (d - c)).
  destruct (_calculate_overlap_returns a b c d) as [r Hr]. exists r. split; [done|].
  split.
  { destruct (max_spec a c) as [[? ->]|[? ->]]; repeat split; try lra;
      first [left; reflexivity|right; reflexivity]. }
  split.
  { destruct (min_spec b d) as [[? ->]|[? ->]]; repeat split; try lra;
      first [left; reflexivity|right; reflexivity]. }
  split.
  { destruct (min_spec (b - a) (d - c)) as [[? ->]|[? ->]]; repeat split; try lra;
      first [left; reflexivity|right; reflexivity]. }
  unfold _calculate_overlap in Hr.
  destruct (Qleb (Py.min b d) (Py.max a c)) eqn:Hov; Qcases.
  - left. split; [done|]. by injection Hr as <-.
  - right. split; [done|]. destruct (Qeq_bool _ 0); [done|]. by injection Hr as <-.
Qed.
End overlap.

(** X21. [_calculate_overlap] never divides by zero; the ratio it returns
    lies between 0 and 1, does not depend on the order of its two
    arguments, and is 0 exactly when the two intervals share no stretch of
    positive length. *)
Theorem calculate_overlap_spec (c1_start c1_end c2_start c2_end : Q) :
  exists overlap swapped,
    ClipGenerator._calculate_overlap c1_start c1_end c2_start c2_end = Ok overlap /\
    ClipGenerator._calculate_overlap c2_start c2_end c1_start c1_end = Ok swapped /\
    (overlap == swapped)%Q /\
    (0 <= overlap <= 1)%Q /\
    ((overlap == 0)%Q <->
     (c1_end <= c1_start \/ c1_end <= c2_start \/
      c2_end <= c1_start \/ c2_end <= c2_start)%Q).
Proof.
  destruct (_calculate_overlap_Ok c1_start c1_end c2_start c2_end)
    as (lo & hi & shorter & r & Hr & Hlo & Hhi & Hshorter & Hcase).
  destruct (_calculate_overlap_Ok c2_start c2_end c1_start c1_end)
    as (lo' & hi' & shorter' & r' & Hr' & Hlo' & Hhi' & Hshorter' & Hcase').
  exists r, r'. split; [done|]. split; [done|].
  assert (lo' == lo)%Q as Elo
    by (destruct Hlo as (? & ? & [?|?]), Hlo' as (? & ? & [?|?]); lra).
  assert (hi' == hi)%Q as Ehi
    by (destruct Hhi as (? & ? & [?|?]), Hhi' as (? & ? & [?|?]); lra).
  assert (shorter' == shorter)%Q as Eshorter
    by (destruct Hshorter as (? & ? & [?|?]), Hshorter' as (? & ? & [?|?]); lra).
  destruct Hlo as (Hlo1 & Hlo2 & Hlo3), Hhi as (Hhi1 & Hhi2 & Hhi3),
           Hshorter as (Hs1 & Hs2 & Hs3).
  destruct Hcase as [[Hle ->]|[Hlt ->]].
  - destruct Hcase' as [[_ ->]|[Hlt' _]]; [|lra].
    split; [reflexivity|]. split; [lra|]. split; [intros _|reflexivity].
    destruct Hlo3, Hhi3; lra.
  - assert (0 < shorter)%Q as Hpos by (destruct Hs3; lra).
    assert (0 < (hi - lo) / shorter)%Q as Hratio by (apply Qlt_shift_div_l; lra).
    destruct Hcase' as [[Hle' _]|[_ ->]]; [lra|].
    split; [by rewrite Elo, Ehi, Eshorter|].
    split; [split; [lra|apply Qle_shift_div_r; lra]|].
    split; [lra|]. intros Hnone. exfalso. lra.
Qed.

Section bookkeeping.
Context `{FloatArith}.
Import ClipGenerator.

Lemma _calculate_score_set_score (c : Merged.t) :
  _calculate_score (set_score c) = _calculate_score c.
Proof. done. Qed.

Lemma join_reasons_ok (min_duration max_duration : Q) (c : Merged.t) :
  valid_duration min_duration max_duration c = true ->
  Merged.score c = _calculate_score c /\ booked c ->
  merged_ok min_duration max_duration (join_reasons c).
Proof.
  unfold valid_duration, within. intros [? ?]%andb_true_iff [Hscore Hbooked]. Qcases.
  split; [done|]. split; [exact Hscore|exact Hbooked].
Qed.

Lemma open_candidate_booked (candidate : Candidate.t) : booked (open_candidate candidate).
Proof. by split. Qed.

Lemma set_score_booked (c : Merged.t) :
  booked c -> Merged.score (set_score c) = _calculate_score (set_score c) /\
              booked (set_score c).
Proof. intros Hc. by split. Qed.

Lemma merge_step_booked (st st' : list Merged.t * Merged.t) (candidate : Candidate.t) :
  merge_state_booked st -> merge_step st candidate = Ok st' -> merge_state_booked st'.
Proof.
  destruct st as [merged current]. intros [Hmerged [Hne Hlen]].
  cbn [fst snd] in Hmerged, Hne, Hlen. unfold merge_step.
  destruct (_calculate_overlap _ _ _ _) as [overlap|e]; [|done]. cbn.
  destruct (Qltb 0.5 overlap); intros [= <-]; split; cbn.
  - done.
  - split; cbn; [by destruct (Merged.reasons current)|].
    rewrite !length_app. cbn. by rewrite Hlen.
  - apply Forall_app. split; [done|]. constructor; [|done]. by apply set_score_booked.
  - apply open_candidate_booked.
Qed.

Lemma merge_loop_booked (rest : list Candidate.t) (st st' : list Merged.t * Merged.t) :
  merge_state_booked st -> for_loop merge_step st rest = Ok st' -> merge_state_booked st'.
Proof.
  revert st. induction rest as [|c rest IH]; intros st Hst; cbn; [by intros [= <-]|].
  intros Hloop. apply bind_Ok in Hloop as (st1 & Hstep & Hloop).
  eapply IH; [|exact Hloop]. by eapply merge_step_booked.
Qed.

Lemma _merge_and_score_candidates_booked (candidates : list Candidate.t)
    (min_duration max_duration : Q) (out : list Merged.t) :
  _merge_and_score_candidates candidates min_duration max_duration = Ok out ->
  Forall (merged_ok min_duration max_duration) out.
Proof.
  unfold _merge_and_score_candidates.
  destruct (sort_by _ candidates) as [|first rest]; [by intros [= <-]|].
  intros Hout. apply bind_Ok in Hout as (st & Hloop & [= <-]).
  apply merge_loop_booked in Hloop as [Hmerged Hcurrent];
    [|split; [done|apply open_candidate_booked]].
  apply List.Forall_forall. intros m Hm.
  apply in_map_iff in Hm as (c & <- & Hc). apply List.filter_In in Hc as [Hc Hvalid].
  apply join_reasons_ok; [done|].
  apply in_app_or in Hc as [Hc|[<-|[]]].
  - rewrite List.Forall_forall in Hmerged. by apply Hmerged.
  - by apply set_score_booked.
Qed.
End bookkeeping.

(** X22. [generate_candidates] returns its candidates in descending order
    of score: no candidate is followed by one with a higher score. *)
Theorem generate_candidates_sorted `{RegexEngine} `{FloatArith} (self : ClipGenerator.t)
    (min_duration max_duration : Q) (reaction_keywords : option (list string))
    (out : list Merged.t) :
  ClipGenerator.generate_candidates self min_duration max_duration reaction_keywords
    = Ok out ->
  StronglySorted (fun earlier later => (Merged.score later <= Merged.score earlier)%Q) out.
Proof.
  intros Hout.
  apply generate_candidates_inv in Hout as (candidates & merged & _ & _ & ->).
  eapply StronglySorted_weaken; [|apply sort_by_StronglySorted].
  - intros a b Hab. cbn in Hab. by apply Qleb_le.
  - intros a b Hab. Qcases. apply Qleb_le. lra.
  - intros a b c Hab Hbc. Qcases. apply Qleb_le. lra.
Qed.

Lemma generate_candidates_sorted_witness :
  exists out,
    @ClipGenerator.generate_candidates literal_engine Binary64.arith
      test_generator 30 180 None = Ok out /\
    length out = 2%nat /\
    StronglySorted (fun earlier later => (Merged.score later <= Merged.score earlier)%Q)
                   out.
Proof.
  eexists. split; [by vm_compute|]. split; [done|].
  apply (@generate_candidates_sorted literal_engine Binary64.arith
           test_generator 30 180 None).
  by vm_compute.
Defined.

(** X23. Every candidate that [generate_candidates] returns has a length,
    the float difference [end - start], between [min_duration] and
    [max_duration], also after merging; its score is the value of
    [_calculate_score] on the candidate itself, and it carries as many
    details as reasons, at least one of each.  This holds whatever the
    rounding of the floats. *)
Theorem generate_candidates_durations `{RegexEngine} `{FloatArith} (self : ClipGenerator.t)
    (min_duration max_duration : Q) (reaction_keywords : option (list string))
    (out : list Merged.t) :
  ClipGenerator.generate_candidates self min_duration max_duration reaction_keywords
    = Ok out ->
  Forall (merged_ok min_duration max_duration) out.
Proof.
  intros Hout.
  apply generate_candidates_inv in Hout as (candidates & merged & _ & Hmerged & ->).
  apply sort_by_Forall. by eapply _merge_and_score_candidates_booked.
Qed.

Lemma generate_candidates_durations_witness :
  exists out,
    @ClipGenerator.generate_candidates literal_engine Binary64.arith
      test_generator 30 180 None = Ok out /\
    length out = 2%nat /\
    Forall (@merged_ok Binary64.arith 30 180) out.
Proof.
  eexists. split; [by vm_compute|]. split; [done|].
  apply (@generate_candidates_durations literal_engine Binary64.arith
           test_generator 30 180 None).
  by vm_compute.
Defined.

Section peak_windows.
Import CommentAnalyzer.

Lemma find_peaks_In (binned_df : list TimeBin.t) (q : Q) (min_gap_seconds : Z)
    (peaks : list Peak.t) :
  find_peaks binned_df q min_gap_seconds = Ok peaks ->
  Forall (fun peak => exists row, In row binned_df /\ peak = peak_of row) peaks.
Proof.
  rewrite find_peaks_factor. intros H.
  apply bind_Ok in H as (groups & Hgroups & Hpeaks). apply for_each_Ok in Hpeaks.
  apply (peak_groups_members (fun r => In r binned_df)) in Hgroups;
    [|by apply List.Forall_forall].
  apply List.Forall_forall. intros peak Hpeak.
  destruct (Forall2_In_r _ _ _ _ Hpeaks Hpeak) as (g & Hg & Hmerge).
  apply _merge_peak_group_Ok in Hmerge as (row & Hrow & -> & _).
  exists row. split; [|done].
  rewrite List.Forall_forall in Hgroups. specialize (Hgroups g Hg).
  rewrite List.Forall_forall in Hgroups. by apply Hgroups.
Qed.

Lemma bin_row_width (start stop bs : Z) (g : nat * Z) (row : TimeBin.t) :
  bin_row (Np.arange start stop bs) bs g = Ok row ->
  TimeBin.bin_end row = (TimeBin.bin_start row + bs)%Z.
Proof.
  unfold bin_row, Py.index. rewrite arange_edges.
  set (n := Z.to_nat _).
  destruct (map (edge start bs) (seq 0 n) !! g.1) as [b_start|] eqn:Hs; [|done].
  destruct (map (edge start bs) (seq 0 n) !! (g.1 + 1)%nat) as [b_end|] eqn:He; [|done].
  cbn. intros [= <-]. cbn.
  pose proof (lookup_lt_Some _ _ _ He) as Hlen. rewrite length_map, length_seq in Hlen.
  rewrite edges_lookup in Hs, He by lia.
  injection Hs as <-. injection He as <-. rewrite Nat.add_1_r. apply edge_S.
Qed.

Lemma bin_comments_by_time_width (chat_df : list CommentRecord.t) (bs : Z)
    (binned_df : list TimeBin.t) :
  bin_comments_by_time chat_df bs = Ok binned_df ->
  Forall (fun b => TimeBin.bin_end b = (TimeBin.bin_start b + bs)%Z) binned_df.
Proof.
  unfold bin_comments_by_time. destruct chat_df as [|r chat_df]; [by intros [= <-]|].
  destruct (binning_error _ _); [done|]. intros Hrows.
  apply bind_Ok in Hrows as (rows & Hrows & [= <-]).
  apply sort_by_Forall. apply for_each_Ok in Hrows.
  induction Hrows as [|g row gs rows Hrow _ IH]; constructor; [|done].
  by eapply bin_row_width.
Qed.

Lemma candidate_of_peak_window (min_duration max_duration : Q) (row : TimeBin.t) :
  TimeBin.bin_end row = (TimeBin.bin_start row + 10)%Z ->
  (0 < TimeBin.count row)%Z ->
  Forall (peak_window min_duration max_duration)
         (ClipGenerator.candidate_of_peak min_duration max_duration (peak_of row)).
Proof.
  intros Hend Hpos. unfold ClipGenerator.candidate_of_peak.
  cbn [peak_of Peak.time Peak.time_end Peak.count]. rewrite Hend.
  set (t := TimeBin.bin_start row).
  destruct (ClipGenerator.within _ _ _) eqn:Hw; [|done].
  unfold ClipGenerator.within in Hw. apply andb_true_iff in Hw as [Hmin Hmax]. Qcases.
  constructor; [|done]. exists (TimeBin.count row), t. cbn.
  rewrite inject_Z_plus in *. change (inject_Z 10) with 10%Q in *.
  split; [done|]. split; [done|]. split; [done|].
  destruct (max_spec 0 (inject_Z t - 15)) as [[? Hs]|[? Hs]];
    destruct (min_spec (inject_Z t + 10 + 30) (inject_Z t + 60)) as [[? He]|[? He]];
    rewrite Hs, He in *; (split; [first [left; split; [lra|reflexivity]
                                       |right; split; [lra|reflexivity]
                                       |left; split; lra|right; split; lra]|]);
    repeat split; try done; lra.
Qed.
End peak_windows.

(** X24. Every candidate of [_generate_from_comment_peaks] is a window
    around a peak of 10-second bins: its start is [max(0, time - 15)], that
    is 15 seconds before the start of the peak's bin, and 0 when the bin
    starts in the first 15 seconds; it ends 40 seconds after the bin's
    start, so it is at most 55 seconds long, and its length lies between
    [min_duration] and [max_duration]; the peak it records counts at least
    one comment. *)
Theorem comment_peak_candidates_window (chat_df : list CommentRecord.t)
    (min_duration max_duration : Q) (candidates : list Candidate.t) :
  ClipGenerator._generate_from_comment_peaks chat_df min_duration max_duration
    = Ok candidates ->
  Forall (peak_window min_duration max_duration) candidates.
Proof.
  unfold ClipGenerator._generate_from_comment_peaks. intros Hcs.
  apply bind_Ok in Hcs as (binned_df & Hbinned & Hcs).
  apply bind_Ok in Hcs as (peaks & Hpeaks & [= <-]).
  pose proof (bin_comments_by_time_width _ _ _ Hbinned) as Hwidth.
  pose proof (bin_comments_by_time_positive _ _ _ Hbinned) as Hpos.
  apply find_peaks_In in Hpeaks.
  apply Forall_concat, Forall_map.
  rewrite List.Forall_forall in Hpeaks, Hwidth, Hpos |- *. intros peak Hpeak.
  destruct (Hpeaks peak Hpeak) as (row & Hrow & ->).
  apply candidate_of_peak_window; auto.
Qed.

Lemma comment_peak_candidates_window_witness :
  exists candidates,
    ClipGenerator._generate_from_comment_peaks test_chat 30 180 = Ok candidates /\
    length candidates = 1%nat /\
    Forall (peak_window 30 180) candidates.
Proof.
  eexists. split; [by vm_compute|]. split; [done|].
  apply (comment_peak_candidates_window test_chat 30 180). by vm_compute.
Defined.

(** ** Keyword frequencies over time *)





(** ** The ranking of commenters *)

Section ranking.
Import PdSeries.

Lemma tally_keys (value : string) (counts : list (string * Z)) :
  In value (map fst counts) /\ map fst (tally value counts) = map fst counts \/
  ~ In value (map fst counts) /\ map fst (tally value counts) = map fst counts ++ [value].
Proof.
  induction counts as [|[v c] counts IH]; cbn [tally map fst].
  { right. split; [by intros []|done]. }
  destruct (String.eqb_spec v value) as [->|Hne].
  - left. split; [by left|done].
  - cbn [map fst]. destruct IH as [[Hin ->]|[Hout ->]].
    + left. split; [by right|done].
    + right. split; [by intros [?|?]|done].
Qed.

Lemma tally_NoDup (value : string) (counts : list (string * Z)) :
  List.NoDup (map fst counts) -> List.NoDup (map fst (tally value counts)).
Proof.
  intros Hnd. destruct (tally_keys value counts) as [[_ ->]|[Hout ->]]; [done|].
  rewrite <- (rev_involutive (map fst counts ++ [value])). apply List.NoDup_rev.
  rewrite rev_app_distr. cbn. constructor; [by rewrite <- in_rev|].
  by apply List.NoDup_rev.
Qed.

Lemma tally_tally_of (value v : string) (counts : list (string * Z)) :
  tally_of v (tally value counts) =
  (tally_of v counts + (if String.eqb value v then 1 else 0))%Z.
Proof.
  induction counts as [|[v' c] counts IH]; cbn [tally tally_of].
  { lia. }
  destruct (String.eqb_spec v' value) as [->|Hne]; cbn [tally_of].
  - destruct (String.eqb value v); lia.
  - rewrite IH. lia.
Qed.

Lemma tally_positive (value : string) (counts : list (string * Z)) :
  Forall (fun vc => (0 < vc.2)%Z) counts ->
  Forall (fun vc => (0 < vc.2)%Z) (tally value counts).
Proof.
  induction 1 as [|[v c] counts Hc Hcounts IH]; cbn [tally].
  { repeat constructor. }
  cbn in Hc. destruct (String.eqb v value); constructor; cbn; try done. lia.
Qed.

Lemma occurrences_cons (value v : string) (values : list string) :
  occurrences v (value :: values) =
  ((if String.eqb value v then 1 else 0) + occurrences v values)%Z.
Proof.
  unfold occurrences. cbn [List.filter]. destruct (String.eqb value v); cbn [length]; lia.
Qed.

Lemma foldl_tally (values : list string) (counts : list (string * Z)) :
  let counts' := foldl (fun counts value => tally value counts) counts values in
  (List.NoDup (map fst counts) -> List.NoDup (map fst counts')) /\
  (Forall (fun vc => (0 < vc.2)%Z) counts -> Forall (fun vc => (0 < vc.2)%Z) counts') /\
  (forall v, tally_of v counts' = (tally_of v counts + occurrences v values)%Z) /\
  (forall v, In v (map fst counts) \/ In v values -> In v (map fst counts')).
Proof.
  revert counts. induction values as [|value values IH]; intros counts; cbn [foldl].
  { repeat split; try done.
    - intros v. unfold occurrences. cbn. lia.
    - by intros v [?|[]]. }
  destruct (IH (tally value counts)) as (Hnd & Hpos & Htally & Hkeys).
  repeat split.
  - intros H. by apply Hnd, tally_NoDup.
  - intros H. by apply Hpos, tally_positive.
  - intros v. rewrite Htally, tally_tally_of, occurrences_cons. lia.
  - intros v Hv. apply Hkeys.
    destruct (tally_keys value counts) as [[Hin ->]|[Hout ->]].
    + destruct Hv as [?|[<-|?]]; auto.
    + destruct Hv as [?|[<-|?]]; auto.
      * left. apply in_or_app. by left.
      * left. apply in_or_app. right. by left.
Qed.

Lemma tally_of_notin (v : string) (counts : list (string * Z)) :
  ~ In v (map fst counts) -> tally_of v counts = 0%Z.
Proof.
  induction counts as [|[v' c] counts IH]; [done|]. cbn. intros Hv.
  destruct (String.eqb_spec v' v) as [->|_]; [destruct Hv; by left|].
  rewrite IH; [lia|]. intros ?. apply Hv. by right.
Qed.

Lemma tally_of_In (v : string) (c : Z) (counts : list (string * Z)) :
  List.NoDup (map fst counts) -> In (v, c) counts -> tally_of v counts = c.
Proof.
  induction counts as [|[v' c'] counts IH]; [done|]. cbn [map fst tally_of].
  intros Hnd%List.NoDup_cons_iff [[= -> ->]|Hin].
  - rewrite String.eqb_refl, tally_of_notin by apply Hnd. lia.
  - destruct Hnd as [Hv' Hnd].
    destruct (String.eqb_spec v' v) as [->|_].
    + destruct Hv'. apply in_map_iff. by exists (v, c).
    + rewrite IH by done. lia.
Qed.

Lemma tally_of_Permutation (v : string) (counts counts' : list (string * Z)) :
  counts ≡ₚ counts' -> tally_of v counts = tally_of v counts'.
Proof.
  induction 1 as [|[x c] l l' _ IH|[x c] [y d] l|l1 l2 l3 _ IH1 _ IH2]; cbn; lia.
Qed.

(** What [value_counts] returns: each value once, with the number of its
    occurrences, no value left out, in descending order of count. *)
Lemma value_counts_spec (values : list string) :
  List.NoDup (map fst (value_counts values)) /\
  (forall vc, In vc (value_counts values) ->
     vc.2 = occurrences vc.1 values /\ (0 < vc.2)%Z) /\
  (forall v, In v values -> In v (map fst (value_counts values))) /\
  StronglySorted (fun a b : string * Z => (b.2 <= a.2)%Z) (value_counts values).
Proof.
  unfold value_counts.
  set (leb := fun a b : string * Z => (b.2 <=? a.2)%Z).
  set (counts := foldl _ [] values).
  destruct (foldl_tally values []) as (Hnd & Hpos & Htally & Hkeys). fold counts in Hnd, Hpos, Htally, Hkeys.
  specialize (Hnd (List.NoDup_nil _)). specialize (Hpos (List.Forall_nil _)).
  assert (map fst (sort_by leb counts) ≡ₚ map fst counts) as Hperm
    by (apply Permutation_map, sort_by_Permutation).
  assert (List.NoDup (map fst (sort_by leb counts))) as Hnd'.
  { eapply Permutation_NoDup; [symmetry; exact Hperm|done]. }
  split; [done|]. split; [|split].
  - intros [v c] Hin. cbn. split.
    + rewrite <- (tally_of_In v c _ Hnd' Hin).
      rewrite (tally_of_Permutation v _ counts) by apply sort_by_Permutation.
      rewrite Htally. cbn. lia.
    + apply sort_by_In in Hin. rewrite List.Forall_forall in Hpos. by apply (Hpos (v, c)).
  - intros v Hv. apply list_elem_of_In. rewrite Hperm. apply list_elem_of_In.
    apply Hkeys. by right.
  - eapply StronglySorted_weaken; [|apply sort_by_StronglySorted].
    + intros a b Hab. cbn in Hab. by apply Z.leb_le in Hab.
    + intros a b Hab. unfold leb in *. apply Z.leb_gt in Hab. apply Z.leb_le. lia.
    + intros a b c Hab Hbc. unfold leb in *. apply Z.leb_le in Hab, Hbc. apply Z.leb_le. lia.
Qed.

Lemma head_take {A} (n : Z) (rows : list A) :
  exists k, head n rows = take k rows /\ ((0 <= n)%Z -> k = Z.to_nat n).
Proof.
  unfold head. destruct (Z.leb_spec 0 n); eexists; split; try done; lia.
Qed.

Lemma StronglySorted_app_cross {A} (R : A -> A -> Prop) (l1 l2 : list A) (x y : A) :
  StronglySorted R (l1 ++ l2) -> In x l1 -> In y l2 -> R x y.
Proof.
  induction l1 as [|a l1 IH]; [done|]. cbn.
  intros [Hl Ha]%StronglySorted_inv [<-|Hx] Hy.
  - rewrite List.Forall_forall in Ha. apply Ha, in_or_app. by right.
  - by apply IH.
Qed.
End ranking.

Lemma occurrences_authors (chat_df : list CommentRecord.t) (author : string) :
  occurrences author (map CommentRecord.author chat_df) = comments_by chat_df author.
Proof.
  unfold occurrences, comments_by. f_equal.
  induction chat_df as [|c chat_df IH]; [done|]. cbn.
  destruct (String.eqb (CommentRecord.author c) author); cbn; by rewrite IH.
Qed.

(** X26. [get_top_commenters] lists each author at most once, with the
    number of that author's comments, in descending order of that number,
    and at most [top_n] authors for a [top_n] that is not negative.  The
    ranking is right: an author who wrote a comment and is not listed has no
    more comments than any author who is listed. *)
Theorem get_top_commenters_spec (chat_df : list CommentRecord.t) (top_n : Z) :
  let top := CommentRanking.get_top_commenters chat_df top_n in
  List.NoDup (map Commenter.author top) /\
  Forall (fun row => Commenter.comment_count row
                     = comments_by chat_df (Commenter.author row) /\
                     (0 < Commenter.comment_count row)%Z) top /\
  StronglySorted (fun earlier later =>
                    (Commenter.comment_count later <= Commenter.comment_count earlier)%Z)
                 top /\
  ((0 <= top_n)%Z -> (length top <= Z.to_nat top_n)%nat) /\
  forall c row,
    In c chat_df -> In row top ->
    ~ In (CommentRecord.author c) (map Commenter.author top) ->
    (comments_by chat_df (CommentRecord.author c) <= Commenter.comment_count row)%Z.
Proof.
  unfold CommentRanking.get_top_commenters.
  destruct chat_df as [|c0 chat_df'] eqn:Hdf.
  { cbn. repeat split; try done; try constructor. intros; lia. }
  rewrite <- Hdf. clear Hdf c0 chat_df'.
  set (counts := PdSeries.value_counts (map CommentRecord.author chat_df)).
  destruct (value_counts_spec (map CommentRecord.author chat_df))
    as (Hnd & Hcount & Hall & Hsorted). fold counts in Hnd, Hcount, Hall, Hsorted.
  destruct (head_take top_n counts) as (k & -> & Hk).
  set (mk := fun vc : string * Z =>
               {| Commenter.author := vc.1; Commenter.comment_count := vc.2 |}).
  rewrite <- (take_drop k counts) in Hnd, Hsorted.
  cbn zeta. split; [|split; [|split; [|split]]].
  - rewrite map_map. cbn. rewrite map_app in Hnd. by apply List.NoDup_app_remove_r in Hnd.
  - apply List.Forall_forall. intros row Hrow.
    apply in_map_iff in Hrow as (vc & <- & Hvc). cbn.
    assert (In vc counts) as Hin.
    { rewrite <- (take_drop k counts). apply in_or_app. by left. }
    destruct (Hcount vc Hin) as [Hc Hpos]. by rewrite <- occurrences_authors.
  - apply StronglySorted_app_inv in Hsorted as [Hsorted _].
    clear -Hsorted. induction Hsorted as [|vc l _ IH Hvc]; cbn; constructor; [done|].
    by apply Forall_map.
  - intros Hn. rewrite length_map, length_take, (Hk Hn). lia.
  - intros c row Hc Hrow Hout.
    apply in_map_iff in Hrow as (vc & <- & Hvc). cbn.
    assert (In (CommentRecord.author c) (map fst counts)) as Hauthor
      by (apply Hall; by apply in_map).
    rewrite <- (take_drop k counts), map_app in Hauthor.
    apply in_app_or in Hauthor as [Hin|Hin].
    { destruct Hout. by rewrite map_map. }
    apply in_map_iff in Hin as (vc' & Hvc' & Hin).
    pose proof (StronglySorted_app_cross _ _ _ _ _ Hsorted Hvc Hin) as Hle. cbn in Hle.
    assert (In vc' counts) as Hin'.
    { rewrite <- (take_drop k counts). apply in_or_app. by right. }
    destruct (Hcount vc' Hin') as [Hc' _].
    rewrite <- occurrences_authors, <- Hvc', <- Hc'. done.
Qed.

(** ** [bin_comments_by_time] as a method, called again *)

Section method_calls.
Import Store.

Lemma bin_comments_by_time_call (self : comment_analyzer) (bs : Z) (h : heap)
    (df : ChatFrame) :
  h !! chat_df self = Some (Chat df) ->
  (bin_comments_by_time self bs h).2 = CommentAnalyzer.bin_comments_by_time (chat_rows df) bs /\
  (forall l, l <> chat_df self -> (bin_comments_by_time self bs h).1 !! l = h !! l) /\
  exists df',
    (bin_comments_by_time self bs h).1 !! chat_df self = Some (Chat df') /\
    chat_rows df' = chat_rows df /\
    (bin df' = bin df /\ (bin_comments_by_time self bs h).1 = h /\
       (chat_rows df = [] \/ (bs <= 0)%Z) \/
     bin df' = Some (CommentAnalyzer.bin_column (chat_rows df) bs) /\
       (bin_comments_by_time self bs h).1 = <[chat_df self := Chat df']> h /\
       chat_rows df <> []).
Proof.
  intros Hdf. unfold bin_comments_by_time. rewrite Hdf. cbn [fst snd].
  split; [done|].
  destruct (chat_rows df) as [|r rows] eqn:Hrows.
  { split; [done|]. exists df. split; [done|]. split; [done|]. left. auto. }
  destruct (CommentAnalyzer.binning_error (r :: rows) bs) as [e|] eqn:Herror.
  { split; [done|]. exists df. split; [done|]. split; [done|]. left.
    split; [done|]. split; [done|]. right.
    destruct (Z.leb_spec bs 0) as [|Hgt]; [done|].
    by rewrite binning_error_positive in Herror. }
  split; [intros l Hl; by rewrite lookup_insert_ne|].
  eexists. split; [by rewrite lookup_insert_eq|]. split; [done|]. right. cbn.
  repeat split; try done.
Qed.
End method_calls.

(** X27. [bin_comments_by_time] can be called again: the table that a
    second call returns is that of the analyzer's rows and the second bin
    size, whatever the first call was; the rows of the analyzer's frame and
    all other frames of the store are as before both calls, and with a
    positive bin size on a non-empty frame the ['bin'] column left behind is
    that of the second call. *)
Theorem bin_comments_by_time_again (self : Store.comment_analyzer)
    (first_size second_size : Z) (h : Store.heap) (df : Store.ChatFrame) :
  h !! Store.chat_df self = Some (Store.Chat df) ->
  let first := Store.bin_comments_by_time self first_size h in
  let second := Store.bin_comments_by_time self second_size first.1 in
  second.2 = CommentAnalyzer.bin_comments_by_time (Store.chat_rows df) second_size /\
  (forall l, l <> Store.chat_df self -> second.1 !! l = h !! l) /\
  exists df',
    second.1 !! Store.chat_df self = Some (Store.Chat df') /\
    Store.chat_rows df' = Store.chat_rows df /\
    (Store.chat_rows df <> [] -> (0 < second_size)%Z ->
     Store.bin df' = Some (CommentAnalyzer.bin_column (Store.chat_rows df) second_size)).
Proof.
  intros Hdf first second.
  destruct (bin_comments_by_time_call self first_size h df Hdf)
    as (_ & Hother1 & df1 & Hdf1 & Hrows1 & _).
  fold first in Hother1, Hdf1.
  destruct (bin_comments_by_time_call self second_size first.1 df1 Hdf1)
    as (Hresult & Hother2 & df2 & Hdf2 & Hrows2 & Hbin).
  fold second in Hresult, Hother2, Hdf2, Hbin.
  split; [by rewrite Hresult, Hrows1|].
  split; [intros l Hl; by rewrite Hother2, Hother1|].
  exists df2. split; [done|]. split; [by rewrite Hrows2|].
  intros Hne Hpos. rewrite Hrows1 in Hbin.
  destruct Hbin as [(_ & _ & [Hnil|Hle])|(Hbin & _)]; [done|lia|done].
Qed.

Lemma bin_comments_by_time_again_witness :
  test_heap !! 1%positive
    = Some (Store.Chat {| Store.chat_rows := test_chat; Store.bin := None |}) /\
  (Store.bin_comments_by_time {| Store.chat_df := 1%positive |} 10
     (Store.bin_comments_by_time {| Store.chat_df := 1%positive |} 30 test_heap).1).2
    = CommentAnalyzer.bin_comments_by_time test_chat 10 /\
  exists df',
    (Store.bin_comments_by_time {| Store.chat_df := 1%positive |} 10
       (Store.bin_comments_by_time {| Store.chat_df := 1%positive |} 30 test_heap).1).1
      !! 1%positive = Some (Store.Chat df') /\
    Store.chat_rows df' = test_chat /\
    Store.bin df' = Some (CommentAnalyzer.bin_column test_chat 10).
Proof.
  assert (test_heap !! Store.chat_df {| Store.chat_df := 1%positive |}
          = Some (Store.Chat {| Store.chat_rows := test_chat; Store.bin := None |}))
    as Hdf by reflexivity.
  destruct (bin_comments_by_time_again {| Store.chat_df := 1%positive |} 30 10 test_heap
              {| Store.chat_rows := test_chat; Store.bin := None |} Hdf)
    as (Hresult & _ & df' & Hdf' & Hrows & Hbin).
  split; [exact Hdf|]. split; [exact Hresult|].
  exists df'. split; [exact Hdf'|]. split; [exact Hrows|].
  apply Hbin; [done|lia].
Defined.

(** A bin size below [floor(min) - ceil(max)] leaves the one edge
    [floor(min)]: every record is outside the bins, the ['bin'] column is
    assigned with NaN in every row and the table returned is empty. *)
Lemma bin_comments_by_time_below_zero :
  CommentAnalyzer.bin_edges test_chat (-200) = [10%Z] /\
  (Store.bin_comments_by_time {| Store.chat_df := 1%positive |} (-200) test_heap).2 = Ok [] /\
  (Store.bin_comments_by_time {| Store.chat_df := 1%positive |} (-200) test_heap).1
    !! 1%positive
  = Some (Store.Chat {| Store.chat_rows := test_chat;
                        Store.bin := Some (map (fun _ => None) test_chat) |}).
Proof. repeat split; by vm_compute. Qed.
